(** * P-chain transaction builder: shallow embedding and verification

    Embedding of [wallet/chain/p/builder.go] (package [p]): the output-owner
    matcher [match], the UTXO spend planner [spend], the subnet authorisation
    resolver [authorizeSubnet] and the seven transaction assemblers.

    Conventions.
    - Go's [uint64] and [uint32] values are integers of [Z]; every
      subtraction of the source is written with its wrap-around ([wrap64]),
      every checked addition with [Add64].
    - [ids.ID] (32 bytes) and [ids.ShortID] (20 bytes) are kept as the
      number their big-endian bytes denote, so that [bytes.Compare] on them is
      the order of [N].
    - Go maps [map[ids.ID]uint64] are [gmap ID Z]; reading an absent key gives
      the zero value ([get]).  A [range] over a map visits the entries in an
      order the Go runtime picks; that pick is the [Runtime] argument.
    - A Go function that returns [(..., error)] returns a [result]. *)

From Stdlib Require Import ZArith List Lia Bool.
From stdpp Require Import base decidable option list gmap sorting.

Local Open Scope Z_scope.

(** ** Machine integers *)

Definition MaxUint64 : Z := 2 ^ 64 - 1.
Definition MaxUint32 : Z := 2 ^ 32 - 1.

Definition wrap64 (x : Z) : Z := x mod 2 ^ 64.
Definition wrap32 (x : Z) : Z := x mod 2 ^ 32.

(** Range of the values of the Go types. *)
Definition is_uint64 (x : Z) : Prop := 0 <= x <= MaxUint64.
Definition is_uint32 (x : Z) : Prop := 0 <= x <= MaxUint32.

(** ** Identifiers *)

Definition ID := N.
Definition ShortID := N.

(** ** Errors *)

Inductive fundsDetail :=
| needToStake (amount : Z) (assetID : ID)  (* "provided UTXOs need %d more units of asset %q to stake" *)
| needToBurn (amount : Z) (assetID : ID)   (* "provided UTXOs need %d more units of asset %q" *)
| nothingToImport.                          (* "no UTXOs available to import" *)

Inductive error :=
| errNoChangeAddress
| errWrongTxType
| errUnknownOwnerType
| errInsufficientAuthorization
| errInsufficientFunds (d : fundsDetail)
| errUnknownOutputType
| errOverflow
| errBackend (code : N)
| errFetchSubnet (subnetID : ID) (e : error)   (* "failed to fetch subnet %q: %w" *)
| errGenerate (e : error).                       (* "couldn't generate tx inputs/outputs: %w" *)

Inductive result (A : Type) :=
| Ok (a : A)
| Err (e : error).
Arguments Ok {A} a.
Arguments Err {A} e.

Definition bind {A B} (r : result A) (k : A -> result B) : result B :=
  match r with
  | Ok a => k a
  | Err e => Err e
  end.

Notation "'do' x <- r ; k" := (bind r (fun x => k))
  (at level 10, x name, r at level 100, k at level 200).
Notation "'do' ' p <- r ; k" := (bind r (fun p => k))
  (at level 10, p pattern, r at level 100, k at level 200).

(** A [for ... range slice] loop whose body may return an error. *)
Fixpoint forEach {S A} (body : S -> A -> result S) (st : S) (l : list A) : result S :=
  match l with
  | [] => Ok st
  | x :: l' => do st' <- body st x; forEach body st' l'
  end.

Definition isOk {A} (r : result A) : bool :=
  match r with Ok _ => true | Err _ => false end.

(** Modelled from the spec: [math.Add64] and [math.Min64] of [utils/math] are
    not part of the excerpt.  The spec asks that an overflow of a [uint64]
    sum "must itself be a detectable failure"; [Add64] returns the exact sum
    or the overflow error, [Min64] the smaller argument. *)
Definition Add64 (a b : Z) : result Z :=
  if MaxUint64 - b <? a then Err errOverflow else Ok (a + b).

Definition Min64 (a b : Z) : Z := if a <? b then a else b.

(** ** secp256k1fx and djtx data *)

(** Modelled from the spec: the declarations of [secp256k1fx.OutputOwners],
    [secp256k1fx.TransferOutput], [secp256k1fx.TransferInput],
    [platformvm.StakeableLockOut], [platformvm.StakeableLockIn], [djtx.UTXO],
    [djtx.TransferableInput] and [djtx.TransferableOutput] are not part of the
    excerpt.  The records below hold the fields [builder.go] reads and writes;
    they are the spec's Output Owners, UTXO, Transferable Input and
    Transferable Output. *)

Record OutputOwners := mkOwners {
  Locktime : Z;
  Threshold : Z;
  Addrs : list ShortID
}.

Record TransferOutput := mkTransferOutput {
  Amt : Z;
  Owners : OutputOwners
}.

(** The dynamic type of [utxo.Out] and of [TransferableOutput.Out]: a plain
    [secp256k1fx.TransferOutput], a [platformvm.StakeableLockOut] around any
    output, or a value of another type (its codec type id and the amount it
    reports). *)
Inductive Out :=
| TransferOut (out : TransferOutput)
| StakeableLockOut (locktime : Z) (transferableOut : Out)
| OtherOut (typeID : Z) (amount : Z).

Fixpoint Amount (o : Out) : Z :=
  match o with
  | TransferOut out => Amt out
  | StakeableLockOut _ inner => Amount inner
  | OtherOut _ amount => amount
  end.

Record UTXOID := mkUTXOID {
  TxID : ID;
  OutputIndex : Z
}.

Record UTXO := mkUTXO {
  utxoID : UTXOID;
  utxoAsset : ID;
  utxoOut : Out
}.

Record TransferInput := mkTransferInput {
  inAmt : Z;
  SigIndices : list Z
}.

Inductive In :=
| TransferIn (input : TransferInput)
| StakeableLockIn (locktime : Z) (transferableIn : TransferInput).

Definition InAmount (i : In) : Z :=
  match i with
  | TransferIn input => inAmt input
  | StakeableLockIn _ input => inAmt input
  end.

Record TransferableInput := mkInput {
  inUTXOID : UTXOID;
  inAsset : ID;
  inIn : In
}.

Record TransferableOutput := mkOutput {
  outAsset : ID;
  outOut : Out
}.

Global Instance OutputOwners_eq_dec : EqDecision OutputOwners.
Proof. solve_decision. Defined.
Global Instance TransferOutput_eq_dec : EqDecision TransferOutput.
Proof. solve_decision. Defined.
Global Instance Out_eq_dec : EqDecision Out.
Proof. solve_decision. Defined.
Global Instance TransferableOutput_eq_dec : EqDecision TransferableOutput.
Proof. solve_decision. Defined.

(** ** The controlled address set *)

(** Modelled from the spec: [ids.ShortSet] and its [Peek] are not part of the
    excerpt.  The spec says of the controlled-address set that "the
    implementation uses a fixed pick from the set, not a random one": [Peek]
    is the first element of the set's canonical listing, and reports an empty
    set. *)
Definition Peek (s : gset ShortID) : option ShortID := head (elements s).

(** ** match *)

(** The body of the [for] loop of [match]: [l] is what is left of
    [owners.Addrs] from position [i] on. *)
Fixpoint matchLoop (addrs : gset ShortID) (threshold : Z)
    (l : list ShortID) (i : Z) (sigs : list Z) : list Z :=
  match l with
  | [] => sigs
  | addr :: l' =>
      if wrap32 (Z.of_nat (length sigs)) <? threshold then
        matchLoop addrs threshold l' (wrap32 (i + 1))
          (if decide (addr ∈ addrs) then sigs ++ [i] else sigs)
      else sigs
  end.

(** [match] attempts to match a list of addresses up to the provided
    threshold.  The loop counter is a [uint32] bounded by
    [uint32(len(owners.Addrs))], so the loop sees the first
    [len mod 2^32] addresses. *)
Definition match_ (addrs : gset ShortID) (owners : OutputOwners)
    (minIssuanceTime : Z) : list Z * bool :=
  if minIssuanceTime <? Locktime owners then ([], false)
  else
    let n := wrap32 (Z.of_nat (length (Addrs owners))) in
    let sigs :=
      matchLoop addrs (Threshold owners) (take (Z.to_nat n) (Addrs owners)) 0 [] in
    (sigs, wrap32 (Z.of_nat (length sigs)) =? Threshold owners).

(** Positions, in listed order and counted from [i], of the addresses of [l]
    that the wallet controls. *)
Fixpoint controlledFrom (addrs : gset ShortID) (i : Z) (l : list ShortID) : list Z :=
  match l with
  | [] => []
  | addr :: l' =>
      if decide (addr ∈ addrs) then i :: controlledFrom addrs (i + 1) l'
      else controlledFrom addrs (i + 1) l'
  end.

Definition controlledIndices (addrs : gset ShortID) (owners : OutputOwners) : list Z :=
  controlledFrom addrs 0 (Addrs owners).

(** Well-formed owners: the fields hold values of their Go types, and the
    address slice is one a [uint32] length describes. *)
Definition wfOwners (o : OutputOwners) : Prop :=
  is_uint64 (Locktime o) /\ is_uint32 (Threshold o) /\
  Z.of_nat (length (Addrs o)) <= MaxUint32.

(** ** Maps of amounts *)

(** [m[k]] of Go: the zero value when [k] is absent. *)
Definition get (m : gmap ID Z) (k : ID) : Z := default 0 (m !! k).

(** [m[k] -= x] of Go, on [uint64]. *)
Definition subAt (m : gmap ID Z) (k : ID) (x : Z) : gmap ID Z :=
  <[k := wrap64 (get m k - x)]> m.

(** The order in which a [range] over a map visits its entries is the Go
    runtime's: some listing of the entries, each once. *)
Record Runtime := mkRuntime {
  rangeMap : gmap ID Z -> list (ID * Z);
  rangeMap_perm : forall m, rangeMap m ≡ₚ map_to_list m
}.

Definition canonicalRuntime : Runtime :=
  {| rangeMap := map_to_list; rangeMap_perm := fun m => reflexivity _ |}.

Definition reversedRuntime : Runtime :=
  {| rangeMap := fun m => reverse (map_to_list m);
     rangeMap_perm := fun m => reverse_Permutation _ |}.

(** The first entry, in visiting order, whose amount is not zero. *)
Fixpoint firstNonzero (l : list (ID * Z)) : option (ID * Z) :=
  match l with
  | [] => None
  | (assetID, amount) :: l' =>
      if amount =? 0 then firstNonzero l' else Some (assetID, amount)
  end.

(** ** Canonical orders *)

(** Modelled from the spec: [djtx.SortTransferableInputs],
    [djtx.SortTransferableOutputs], [ids.SortShortIDs], [ids.SortIDs] and the
    codec are not part of the excerpt.  The spec: "inputs are sorted by a
    total order over UTXO id; change outputs and stake outputs are each sorted
    by a total order over their serialized output representation".  Inputs
    are ordered by transaction id, then output index; outputs by the sequence
    of their serialized fields (fixed-width big-endian fields compare as the
    numbers they hold); identifiers by their bytes.  Go's [sort.Sort] is not a
    stable sort and [merge_sort] is one: the two can differ only in the order
    of elements with equal keys, which for outputs are elements with the same
    bytes ([canonical_outputs_unique]). *)
Definition utxoIDLe (a b : UTXOID) : Prop :=
  (TxID a < TxID b)%N \/ (TxID a = TxID b /\ OutputIndex a <= OutputIndex b).

Global Instance utxoIDLe_dec : RelDecision utxoIDLe.
Proof. intros a b. unfold utxoIDLe. apply _. Defined.

Definition inputLe (a b : TransferableInput) : Prop :=
  utxoIDLe (inUTXOID a) (inUTXOID b).

Global Instance inputLe_dec : RelDecision inputLe.
Proof. intros a b. unfold inputLe. apply _. Defined.

Fixpoint marshalOut (o : Out) : list Z :=
  match o with
  | TransferOut out =>
      [7; Amt out; Locktime (Owners out); Threshold (Owners out);
       Z.of_nat (length (Addrs (Owners out)))] ++ (Z.of_N <$> Addrs (Owners out))
  | StakeableLockOut locktime inner => [22; locktime] ++ marshalOut inner
  | OtherOut typeID amount => [typeID; amount]
  end.

Definition marshalOutput (o : TransferableOutput) : list Z :=
  Z.of_N (outAsset o) :: marshalOut (outOut o).

Fixpoint lexLeb (l1 l2 : list Z) : bool :=
  match l1, l2 with
  | [], _ => true
  | _ :: _, [] => false
  | x :: l1', y :: l2' => (x <? y) || ((x =? y) && lexLeb l1' l2')
  end.

Definition lexLe (l1 l2 : list Z) : Prop := lexLeb l1 l2 = true.

Definition outputLe (a b : TransferableOutput) : Prop :=
  lexLe (marshalOutput a) (marshalOutput b).

Global Instance outputLe_dec : RelDecision outputLe.
Proof. intros a b. unfold outputLe, lexLe. apply _. Defined.

Definition SortTransferableInputs (l : list TransferableInput) : list TransferableInput :=
  merge_sort inputLe l.

Definition SortTransferableOutputs (l : list TransferableOutput) : list TransferableOutput :=
  merge_sort outputLe l.

Definition SortShortIDs (l : list ShortID) : list ShortID := merge_sort N.le l.
Definition SortIDs (l : list ID) : list ID := merge_sort N.le l.

(** ** Transactions *)

(** Modelled from the spec: the declarations of [platformvm.Validator],
    [platformvm.SubnetValidator], [djtx.BaseTx], [platformvm.Tx] and of the
    unsigned transactions are not part of the excerpt.  The records hold the
    fields [builder.go] fills in; the unsigned transaction is the spec's
    "tagged union over the seven kinds". *)

Record Validator := mkValidator {
  NodeID : ShortID;
  Start : Z;
  End_ : Z;
  Wght : Z
}.

Record SubnetValidator := mkSubnetValidator {
  subnetValidator : Validator;
  Subnet : ID
}.

Record BaseTx := mkBaseTx {
  NetworkID : Z;
  BlockchainID : ID;
  Ins : list TransferableInput;
  Outs : list TransferableOutput;
  Memo : list Z
}.

(** The dynamic type of [UnsignedCreateSubnetTx.Owner]. *)
Inductive Owner :=
| SecpOwner (owner : OutputOwners)
| OtherOwner (typeID : Z).

(** The dynamic type of [Tx.UnsignedTx]: the seven kinds the builder
    produces, or another kind of transaction the chain holds. *)
Inductive UnsignedTx :=
| UnsignedAddValidatorTx (base : BaseTx) (validator : Validator)
    (stake : list TransferableOutput) (rewardsOwner : OutputOwners) (shares : Z)
| UnsignedAddSubnetValidatorTx (base : BaseTx) (validator : SubnetValidator)
    (subnetAuth : list Z)
| UnsignedAddDelegatorTx (base : BaseTx) (validator : Validator)
    (stake : list TransferableOutput) (rewardsOwner : OutputOwners)
| UnsignedCreateChainTx (base : BaseTx) (subnetID : ID) (chainName : list Z)
    (vmID : ID) (fxIDs : list ID) (genesisData : list Z) (subnetAuth : list Z)
| UnsignedCreateSubnetTx (base : BaseTx) (owner : Owner)
| UnsignedImportTx (base : BaseTx) (sourceChain : ID)
    (importedInputs : list TransferableInput)
| UnsignedExportTx (base : BaseTx) (destinationChain : ID)
    (exportedOutputs : list TransferableOutput)
| UnsignedOtherTx (typeID : Z).

Record Tx := mkTx {
  txUnsigned : UnsignedTx
}.

(** ** Backend, options, builder *)

(** [BuilderBackend]: the chain's [Context] and its state.  The [Context]
    interface is not part of the excerpt; its methods are the four
    [builder.go] calls, the spec's [context_info]. *)
Record BuilderBackend := mkBackend {
  backendNetworkID : Z;
  DJTXAssetID : ID;
  BaseTxFee : Z;
  CreateSubnetTxFee : Z;
  UTXOs : ID -> result (list UTXO);
  GetTx : ID -> result Tx
}.

(** Modelled from the spec: [common.Options] is not part of the excerpt.  The
    spec's Build Options: "an issuance-time floor used to evaluate lock
    expiry, an optional explicit change-output owner override, and an optional
    memo byte blob" (the calling context, used for cancellation only, is left
    out). *)
Record Options := mkOptions {
  MinIssuanceTime : Z;
  changeOwnerOverride : option OutputOwners;
  optMemo : list Z
}.

(** [options.ChangeOwner(defaultOwner)]: the override, or [defaultOwner]
    "unless overridden by options". *)
Definition ChangeOwner (options : Options) (defaultOwner : OutputOwners) : OutputOwners :=
  default defaultOwner (changeOwnerOverride options).

Record builder := mkBuilder {
  addrs : gset ShortID;
  backend : BuilderBackend
}.

(** Modelled from the spec: [constants.PlatformChainID] is not part of the
    excerpt; it is the fixed id of "the platform/P-chain", the all-zero id. *)
Definition PlatformChainID : ID := 0%N.

(** ** spend *)

(** The variables of [spend] that its loops update. *)
Record spendState := mkSpendState {
  amountsToBurn : gmap ID Z;
  amountsToStake : gmap ID Z;
  inputs : list TransferableInput;
  changeOutputs : list TransferableOutput;
  stakeOutputs : list TransferableOutput
}.

(** Body of the first loop of [spend] ("Iterate over the locked UTXOs"). *)
Definition lockedVisit (addrs : gset ShortID) (minIssuanceTime : Z)
    (st : spendState) (utxo : UTXO) : result spendState :=
  let assetID := utxoAsset utxo in
  let remainingAmountToStake := get (amountsToStake st) assetID in
  if remainingAmountToStake =? 0 then Ok st
  else
    match utxoOut utxo with
    | StakeableLockOut locktime transferableOut =>
        if locktime <=? minIssuanceTime then Ok st
        else
          match transferableOut with
          | TransferOut out =>
              match match_ addrs (Owners out) minIssuanceTime with
              | (_, false) => Ok st
              | (inputSigIndices, true) =>
                  let input :=
                    mkInput (utxoID utxo) (utxoAsset utxo)
                      (StakeableLockIn locktime
                         (mkTransferInput (Amt out) inputSigIndices)) in
                  let amountToStake := Min64 remainingAmountToStake (Amt out) in
                  let stakeOutput :=
                    mkOutput (utxoAsset utxo)
                      (StakeableLockOut locktime
                         (TransferOut (mkTransferOutput amountToStake (Owners out)))) in
                  let remainingAmount := wrap64 (Amt out - amountToStake) in
                  Ok {| amountsToBurn := amountsToBurn st;
                        amountsToStake := subAt (amountsToStake st) assetID amountToStake;
                        inputs := inputs st ++ [input];
                        stakeOutputs := stakeOutputs st ++ [stakeOutput];
                        changeOutputs :=
                          if 0 <? remainingAmount then
                            changeOutputs st ++
                              [mkOutput (utxoAsset utxo)
                                 (StakeableLockOut locktime
                                    (TransferOut
                                       (mkTransferOutput remainingAmount (Owners out))))]
                          else changeOutputs st |}
              end
          | _ => Err errUnknownOutputType
          end
    | _ => Ok st
    end.

(** What the second loop looks at: the output itself, or what a
    [StakeableLockOut] whose lock time has passed wraps; nothing for an output
    that is still locked. *)
Definition unlockedView (minIssuanceTime : Z) (outIntf : Out) : option Out :=
  match outIntf with
  | StakeableLockOut locktime transferableOut =>
      if minIssuanceTime <? locktime then None else Some transferableOut
  | _ => Some outIntf
  end.

(** Body of the second loop of [spend] ("Iterate over the unlocked UTXOs"). *)
Definition unlockedVisit (addrs : gset ShortID) (minIssuanceTime : Z)
    (changeOwner : OutputOwners) (st : spendState) (utxo : UTXO) : result spendState :=
  let assetID := utxoAsset utxo in
  let remainingAmountToStake := get (amountsToStake st) assetID in
  let remainingAmountToBurn := get (amountsToBurn st) assetID in
  if (remainingAmountToStake =? 0) && (remainingAmountToBurn =? 0) then Ok st
  else
    match unlockedView minIssuanceTime (utxoOut utxo) with
    | None => Ok st
    | Some (TransferOut out) =>
        match match_ addrs (Owners out) minIssuanceTime with
        | (_, false) => Ok st
        | (inputSigIndices, true) =>
            let input :=
              mkInput (utxoID utxo) (utxoAsset utxo)
                (TransferIn (mkTransferInput (Amt out) inputSigIndices)) in
            let amountToBurn := Min64 remainingAmountToBurn (Amt out) in
            let amountAvalibleToStake := wrap64 (Amt out - amountToBurn) in
            let amountToStake := Min64 remainingAmountToStake amountAvalibleToStake in
            let remainingAmount := wrap64 (amountAvalibleToStake - amountToStake) in
            Ok {| amountsToBurn := subAt (amountsToBurn st) assetID amountToBurn;
                  amountsToStake := subAt (amountsToStake st) assetID amountToStake;
                  inputs := inputs st ++ [input];
                  stakeOutputs :=
                    if 0 <? amountToStake then
                      stakeOutputs st ++
                        [mkOutput (utxoAsset utxo)
                           (TransferOut (mkTransferOutput amountToStake changeOwner))]
                    else stakeOutputs st;
                  changeOutputs :=
                    if 0 <? remainingAmount then
                      changeOutputs st ++
                        [mkOutput (utxoAsset utxo)
                           (TransferOut (mkTransferOutput remainingAmount changeOwner))]
                    else changeOutputs st |}
        end
    | Some _ => Err errUnknownOutputType
    end.

(** The two loops that close [spend]: the first entry of the stake map, then
    of the burn map, that is not zero is reported. *)
Definition checkExhausted (rt : Runtime) (st : spendState) : result unit :=
  match firstNonzero (rangeMap rt (amountsToStake st)) with
  | Some (assetID, amount) => Err (errInsufficientFunds (needToStake amount assetID))
  | None =>
      match firstNonzero (rangeMap rt (amountsToBurn st)) with
      | Some (assetID, amount) => Err (errInsufficientFunds (needToBurn amount assetID))
      | None => Ok tt
      end
  end.

Definition defaultChangeOwner (addr : ShortID) : OutputOwners :=
  {| Locktime := 0; Threshold := 1; Addrs := [addr] |}.

(** Both loops of [spend], from its arguments. *)
Definition spendPasses (addrs : gset ShortID) (minIssuanceTime : Z)
    (changeOwner : OutputOwners) (utxos : list UTXO)
    (toBurn toStake : gmap ID Z) : result spendState :=
  do st1 <- forEach (lockedVisit addrs minIssuanceTime)
              (mkSpendState toBurn toStake [] [] []) utxos;
  forEach (unlockedVisit addrs minIssuanceTime changeOwner) st1 utxos.

Definition spend (rt : Runtime) (b : builder) (toBurn toStake : gmap ID Z)
    (options : Options)
  : result (list TransferableInput * list TransferableOutput * list TransferableOutput) :=
  do utxos <- UTXOs (backend b) PlatformChainID;
  let minIssuanceTime := MinIssuanceTime options in
  match Peek (addrs b) with
  | None => Err errNoChangeAddress
  | Some addr =>
      let changeOwner := ChangeOwner options (defaultChangeOwner addr) in
      do st <- spendPasses (addrs b) minIssuanceTime changeOwner utxos toBurn toStake;
      do _ <- checkExhausted rt st;
      Ok (SortTransferableInputs (inputs st),
          SortTransferableOutputs (changeOutputs st),
          SortTransferableOutputs (stakeOutputs st))
  end.

(** ** authorizeSubnet *)

Definition authorizeSubnet (b : builder) (subnetID : ID) (options : Options)
  : result (list Z) :=
  match GetTx (backend b) subnetID with
  | Err e => Err (errFetchSubnet subnetID e)
  | Ok subnetTx =>
      match txUnsigned subnetTx with
      | UnsignedCreateSubnetTx _ (SecpOwner owner) =>
          match match_ (addrs b) owner (MinIssuanceTime options) with
          | (inputSigIndices, true) => Ok inputSigIndices
          | (_, false) => Err errInsufficientAuthorization
          end
      | UnsignedCreateSubnetTx _ (OtherOwner _) => Err errUnknownOwnerType
      | _ => Err errWrongTxType
      end
  end.

(** ** The transaction assemblers *)

Definition baseTx (b : builder) (options : Options)
    (ins : list TransferableInput) (outs : list TransferableOutput) : BaseTx :=
  {| NetworkID := backendNetworkID (backend b);
     BlockchainID := PlatformChainID;
     Ins := ins;
     Outs := outs;
     Memo := optMemo options |}.

(** [ids.SortShortIDs(owner.Addrs)], which sorts the caller's slice in place. *)
Definition sortOwnerAddrs (o : OutputOwners) : OutputOwners :=
  {| Locktime := Locktime o; Threshold := Threshold o; Addrs := SortShortIDs (Addrs o) |}.

Definition NewAddValidatorTx (rt : Runtime) (b : builder) (validator : Validator)
    (rewardsOwner : OutputOwners) (shares : Z) (options : Options) : result UnsignedTx :=
  let toBurn : gmap ID Z := ∅ in
  let toStake : gmap ID Z := {[ DJTXAssetID (backend b) := Wght validator ]} in
  do '(inputs, baseOutputs, stakeOutputs) <- spend rt b toBurn toStake options;
  Ok (UnsignedAddValidatorTx (baseTx b options inputs baseOutputs) validator
        stakeOutputs (sortOwnerAddrs rewardsOwner) shares).

Definition NewAddSubnetValidatorTx (rt : Runtime) (b : builder)
    (validator : SubnetValidator) (options : Options) : result UnsignedTx :=
  let toBurn : gmap ID Z := {[ DJTXAssetID (backend b) := CreateSubnetTxFee (backend b) ]} in
  let toStake : gmap ID Z := ∅ in
  do '(inputs, outputs, _) <- spend rt b toBurn toStake options;
  do subnetAuth <- authorizeSubnet b (Subnet validator) options;
  Ok (UnsignedAddSubnetValidatorTx (baseTx b options inputs outputs) validator subnetAuth).

Definition NewAddDelegatorTx (rt : Runtime) (b : builder) (validator : Validator)
    (rewardsOwner : OutputOwners) (options : Options) : result UnsignedTx :=
  let toBurn : gmap ID Z := ∅ in
  let toStake : gmap ID Z := {[ DJTXAssetID (backend b) := Wght validator ]} in
  do '(inputs, baseOutputs, stakeOutputs) <- spend rt b toBurn toStake options;
  Ok (UnsignedAddDelegatorTx (baseTx b options inputs baseOutputs) validator
        stakeOutputs (sortOwnerAddrs rewardsOwner)).

Definition NewCreateChainTx (rt : Runtime) (b : builder) (subnetID : ID)
    (genesis : list Z) (vmID : ID) (fxIDs : list ID) (chainName : list Z)
    (options : Options) : result UnsignedTx :=
  let toBurn : gmap ID Z := {[ DJTXAssetID (backend b) := CreateSubnetTxFee (backend b) ]} in
  let toStake : gmap ID Z := ∅ in
  do '(inputs, outputs, _) <- spend rt b toBurn toStake options;
  do subnetAuth <- authorizeSubnet b subnetID options;
  Ok (UnsignedCreateChainTx (baseTx b options inputs outputs) subnetID chainName vmID
        (SortIDs fxIDs) genesis subnetAuth).

Definition NewCreateSubnetTx (rt : Runtime) (b : builder) (owner : OutputOwners)
    (options : Options) : result UnsignedTx :=
  let toBurn : gmap ID Z := {[ DJTXAssetID (backend b) := CreateSubnetTxFee (backend b) ]} in
  let toStake : gmap ID Z := ∅ in
  do '(inputs, outputs, _) <- spend rt b toBurn toStake options;
  Ok (UnsignedCreateSubnetTx (baseTx b options inputs outputs)
        (SecpOwner (sortOwnerAddrs owner))).

(** Body of the loop of [NewImportTx] over the source chain's UTXOs; the
    state is [(importedInputs, importedAmount)]. *)
Definition importVisit (addrs : gset ShortID) (minIssuanceTime : Z) (djtxAssetID : ID)
    (st : list TransferableInput * Z) (utxo : UTXO)
  : result (list TransferableInput * Z) :=
  let '(importedInputs, importedAmount) := st in
  if negb (bool_decide (utxoAsset utxo = djtxAssetID)) then Ok st
  else
    match utxoOut utxo with
    | TransferOut out =>
        match match_ addrs (Owners out) minIssuanceTime with
        | (_, false) => Ok st
        | (inputSigIndices, true) =>
            let input :=
              mkInput (utxoID utxo) (utxoAsset utxo)
                (TransferIn (mkTransferInput (Amt out) inputSigIndices)) in
            do newImportedAmount <- Add64 importedAmount (Amt out);
            Ok (importedInputs ++ [input], newImportedAmount)
        end
    | _ => Ok st
    end.

Definition NewImportTx (rt : Runtime) (b : builder) (sourceChainID : ID)
    (to : OutputOwners) (options : Options) : result UnsignedTx :=
  do utxos <- UTXOs (backend b) sourceChainID;
  let minIssuanceTime := MinIssuanceTime options in
  let djtxAssetID := DJTXAssetID (backend b) in
  let txFee := BaseTxFee (backend b) in
  do '(importedInputs, importedAmount) <-
    forEach (importVisit (addrs b) minIssuanceTime djtxAssetID) ([], 0) utxos;
  let importedInputs := SortTransferableInputs importedInputs in
  if bool_decide (length importedInputs = 0%nat) then
    Err (errInsufficientFunds nothingToImport)
  else
    do '(inputs, outputs) <-
      (if importedAmount <? txFee then
         let toBurn : gmap ID Z := {[ djtxAssetID := wrap64 (txFee - importedAmount) ]} in
         let toStake : gmap ID Z := ∅ in
         match spend rt b toBurn toStake options with
         | Ok (inputs, outputs, _) => Ok (inputs, outputs)
         | Err e => Err (errGenerate e)
         end
       else if txFee <? importedAmount then
         match Peek (addrs b) with
         | None => Err errNoChangeAddress
         | Some addr =>
             let changeOwner := ChangeOwner options (defaultChangeOwner addr) in
             Ok ([],
                 [mkOutput djtxAssetID
                    (TransferOut
                       (mkTransferOutput (wrap64 (importedAmount - txFee)) changeOwner))])
         end
       else Ok ([], []));
    Ok (UnsignedImportTx (baseTx b options inputs outputs) sourceChainID importedInputs).

(** Body of the loop of [NewExportTx] over the exported outputs. *)
Definition exportVisit (toBurn : gmap ID Z) (out : TransferableOutput)
  : result (gmap ID Z) :=
  let assetID := outAsset out in
  do amountToBurn <- Add64 (get toBurn assetID) (Amount (outOut out));
  Ok (<[assetID := amountToBurn]> toBurn).

Definition NewExportTx (rt : Runtime) (b : builder) (chainID : ID)
    (outputs : list TransferableOutput) (options : Options) : result UnsignedTx :=
  let toBurn0 : gmap ID Z := {[ DJTXAssetID (backend b) := BaseTxFee (backend b) ]} in
  do toBurn <- forEach exportVisit toBurn0 outputs;
  let toStake : gmap ID Z := ∅ in
  do '(inputs, changeOutputs, _) <- spend rt b toBurn toStake options;
  Ok (UnsignedExportTx (baseTx b options inputs changeOutputs) chainID
        (SortTransferableOutputs outputs)).

(** ** Accounting over a transaction *)

Definition sumIn (assetID : ID) (l : list TransferableInput) : Z :=
  foldr (fun i acc => (if decide (inAsset i = assetID) then InAmount (inIn i) else 0) + acc)
    0 l.

Definition sumOut (assetID : ID) (l : list TransferableOutput) : Z :=
  foldr (fun o acc => (if decide (outAsset o = assetID) then Amount (outOut o) else 0) + acc)
    0 l.

(** All the inputs a transaction consumes and all the outputs it produces. *)
Definition txBase (tx : UnsignedTx) : option BaseTx :=
  match tx with
  | UnsignedAddValidatorTx base _ _ _ _ => Some base
  | UnsignedAddSubnetValidatorTx base _ _ => Some base
  | UnsignedAddDelegatorTx base _ _ _ => Some base
  | UnsignedCreateChainTx base _ _ _ _ _ _ => Some base
  | UnsignedCreateSubnetTx base _ => Some base
  | UnsignedImportTx base _ _ => Some base
  | UnsignedExportTx base _ _ => Some base
  | UnsignedOtherTx _ => None
  end.

Definition txInputs (tx : UnsignedTx) : list TransferableInput :=
  match tx with
  | UnsignedImportTx base _ importedInputs => Ins base ++ importedInputs
  | _ => from_option Ins [] (txBase tx)
  end.

Definition txOutputs (tx : UnsignedTx) : list TransferableOutput :=
  match tx with
  | UnsignedAddValidatorTx base _ stake _ _ => Outs base ++ stake
  | UnsignedAddDelegatorTx base _ stake _ => Outs base ++ stake
  | UnsignedExportTx base _ exportedOutputs => Outs base ++ exportedOutputs
  | _ => from_option Outs [] (txBase tx)
  end.

(** The amount a transaction of each kind burns as its fee. *)
Definition txFeeOf (b : builder) (tx : UnsignedTx) (assetID : ID) : Z :=
  if decide (assetID = DJTXAssetID (backend b)) then
    match tx with
    | UnsignedAddValidatorTx _ _ _ _ _ | UnsignedAddDelegatorTx _ _ _ _ => 0
    | UnsignedAddSubnetValidatorTx _ _ _ | UnsignedCreateChainTx _ _ _ _ _ _ _
    | UnsignedCreateSubnetTx _ _ => CreateSubnetTxFee (backend b)
    | UnsignedImportTx _ _ _ | UnsignedExportTx _ _ _ => BaseTxFee (backend b)
    | UnsignedOtherTx _ => 0
    end
  else 0.

Definition conserved (b : builder) (tx : UnsignedTx) : Prop :=
  forall assetID,
    sumIn assetID (txInputs tx) = sumOut assetID (txOutputs tx) + txFeeOf b tx assetID.

(** * Vocabulary of the statements *)

(** ** Values of the Go types *)

(** Every amount a map holds is a [uint64]. *)
Definition wfAmounts (m : gmap ID Z) : Prop :=
  forall k v, m !! k = Some v -> is_uint64 v.

(** ** Shapes of outputs *)

(** An output still under its stake lock at [minIssuanceTime]. *)
Definition activeLock (minIssuanceTime : Z) (o : Out) : option (Z * Out) :=
  match o with
  | StakeableLockOut locktime inner =>
      if minIssuanceTime <? locktime then Some (locktime, inner) else None
  | _ => None
  end.

Definition isTransferOut (o : Out) : bool :=
  match o with TransferOut _ => true | _ => false end.

(** The shapes [spend] knows: a plain transfer output, or a stake lock
    around one. *)
Definition recognized (o : Out) : bool :=
  match o with
  | TransferOut _ => true
  | StakeableLockOut _ inner => isTransferOut inner
  | OtherOut _ _ => false
  end.

Definition lockedOutput (assetID : ID) (locktime amount : Z) (owners : OutputOwners)
  : TransferableOutput :=
  mkOutput assetID (StakeableLockOut locktime (TransferOut (mkTransferOutput amount owners))).

Definition plainOutput (assetID : ID) (amount : Z) (owners : OutputOwners)
  : TransferableOutput :=
  mkOutput assetID (TransferOut (mkTransferOutput amount owners)).

(** The amount a UTXO holds is a [uint64]. *)
Definition wfUTXO (u : UTXO) : Prop := is_uint64 (Amount (utxoOut u)).

(** ** Accounting of [spend] *)

(** What the loops of [spend] maintain, for the maps [toBurn] and [toStake]
    it was called with: per asset, what was consumed is what was produced plus
    what was burned so far, and the stake outputs hold what was staked so
    far. *)
Definition accounted (toBurn toStake : gmap ID Z) (st : spendState) : Prop :=
  wfAmounts (amountsToBurn st) /\ wfAmounts (amountsToStake st) /\
  forall assetID,
    sumIn assetID (inputs st) =
      sumOut assetID (changeOutputs st) + sumOut assetID (stakeOutputs st) +
      (get toBurn assetID - get (amountsToBurn st) assetID) /\
    sumOut assetID (stakeOutputs st) =
      get toStake assetID - get (amountsToStake st) assetID.

(** ** The assemblers as one operation *)

(** The seven methods of [Builder], for the statements that range over all
    of them. *)
Inductive request :=
| AddValidator (validator : Validator) (rewardsOwner : OutputOwners) (shares : Z)
| AddSubnetValidator (validator : SubnetValidator)
| AddDelegator (validator : Validator) (rewardsOwner : OutputOwners)
| CreateChain (subnetID : ID) (genesis : list Z) (vmID : ID) (fxIDs : list ID)
    (chainName : list Z)
| CreateSubnet (owner : OutputOwners)
| Import (sourceChainID : ID) (to : OutputOwners)
| Export (chainID : ID) (outputs : list TransferableOutput).

Definition build (rt : Runtime) (b : builder) (req : request) (options : Options)
  : result UnsignedTx :=
  match req with
  | AddValidator validator rewardsOwner shares =>
      NewAddValidatorTx rt b validator rewardsOwner shares options
  | AddSubnetValidator validator => NewAddSubnetValidatorTx rt b validator options
  | AddDelegator validator rewardsOwner =>
      NewAddDelegatorTx rt b validator rewardsOwner options
  | CreateChain subnetID genesis vmID fxIDs chainName =>
      NewCreateChainTx rt b subnetID genesis vmID fxIDs chainName options
  | CreateSubnet owner => NewCreateSubnetTx rt b owner options
  | Import sourceChainID to => NewImportTx rt b sourceChainID to options
  | Export chainID outputs => NewExportTx rt b chainID outputs options
  end.

(** The amounts a backend and a request carry are [uint64] values. *)
Definition wfBackend (be : BuilderBackend) : Prop :=
  is_uint64 (BaseTxFee be) /\ is_uint64 (CreateSubnetTxFee be) /\
  forall chainID utxos, UTXOs be chainID = Ok utxos -> Forall wfUTXO utxos.

Definition wfOutput (o : TransferableOutput) : Prop := is_uint64 (Amount (outOut o)).

Definition wfRequest (req : request) : Prop :=
  match req with
  | AddValidator validator _ _ => is_uint64 (Wght validator)
  | AddDelegator validator _ => is_uint64 (Wght validator)
  | Export _ outputs => Forall wfOutput outputs
  | _ => True
  end.

(** ** Import *)

(** The import input a source-chain UTXO gives, when it is eligible: of the
    native asset, a plain transfer output, and matched. *)
Definition importable (addrs : gset ShortID) (minIssuanceTime : Z) (djtxAssetID : ID)
    (u : UTXO) : option TransferableInput :=
  if decide (utxoAsset u = djtxAssetID) then
    match utxoOut u with
    | TransferOut out =>
        let m := match_ addrs (Owners out) minIssuanceTime in
        if snd m then
          Some (mkInput (utxoID u) (utxoAsset u)
                  (TransferIn (mkTransferInput (Amt out) (fst m))))
        else None
    | _ => None
    end
  else None.

Definition eligibleInputs (b : builder) (options : Options) (utxos : list UTXO)
  : list TransferableInput :=
  omap (importable (addrs b) (MinIssuanceTime options) (DJTXAssetID (backend b))) utxos.

(** The sum of the amounts of a list of inputs. *)
Definition totalIn (l : list TransferableInput) : Z :=
  foldr (fun i acc => InAmount (inIn i) + acc) 0 l.

(** ** Outcomes of two runs *)

(** An error without the asset and the amount an InsufficientFunds error
    names. *)
Fixpoint eraseDetail (e : error) : error :=
  match e with
  | errInsufficientFunds (needToStake _ _) => errInsufficientFunds (needToStake 0 0%N)
  | errInsufficientFunds (needToBurn _ _) => errInsufficientFunds (needToBurn 0 0%N)
  | errFetchSubnet subnetID e' => errFetchSubnet subnetID (eraseDetail e')
  | errGenerate e' => errGenerate (eraseDetail e')
  | _ => e
  end.

(** Both runs return the same value, or both fail with the same kind of
    error. *)
Definition sameOutcome {A} (r1 r2 : result A) : Prop :=
  match r1, r2 with
  | Ok a1, Ok a2 => a1 = a2
  | Err e1, Err e2 => eraseDetail e1 = eraseDetail e2
  | _, _ => False
  end.

(** Two backends that answer every query alike. *)
Definition sameResponses (be1 be2 : BuilderBackend) : Prop :=
  backendNetworkID be1 = backendNetworkID be2 /\
  DJTXAssetID be1 = DJTXAssetID be2 /\
  BaseTxFee be1 = BaseTxFee be2 /\
  CreateSubnetTxFee be1 = CreateSubnetTxFee be2 /\
  (forall chainID, UTXOs be1 chainID = UTXOs be2 chainID) /\
  (forall txID, GetTx be1 txID = GetTx be2 txID).

(** ** Scenarios *)

Definition addrA : ShortID := 65%N.
Definition addrB : ShortID := 66%N.
Definition djtx : ID := 7%N.
Definition assetX : ID := 9%N.
Definition chainX : ID := 5%N.

Definition ownerA : OutputOwners := {| Locktime := 0; Threshold := 1; Addrs := [addrA] |}.
Definition ownerB : OutputOwners := {| Locktime := 0; Threshold := 1; Addrs := [addrB] |}.

Definition plainUTXO (tx : ID) (assetID : ID) (amount : Z) (owners : OutputOwners) : UTXO :=
  mkUTXO (mkUTXOID tx 0) assetID (TransferOut (mkTransferOutput amount owners)).

Definition backendOf (local foreign : list UTXO) : BuilderBackend :=
  {| backendNetworkID := 1;
     DJTXAssetID := djtx;
     BaseTxFee := 10;
     CreateSubnetTxFee := 100;
     UTXOs := fun chainID => if decide (chainID = PlatformChainID) then Ok local else Ok foreign;
     GetTx := fun _ => Err (errBackend 404) |}.

Definition walletA (local foreign : list UTXO) : builder :=
  {| addrs := {[ addrA ]}; backend := backendOf local foreign |}.

Definition noOptions : Options :=
  {| MinIssuanceTime := 1000; changeOwnerOverride := None; optMemo := [] |}.

(** Import shortfall: base fee 10, one eligible foreign UTXO of 4, one local
    unlocked UTXO of 10 owned by A. *)
Definition shortfallWallet : builder :=
  walletA [plainUTXO 1%N djtx 10 ownerA] [plainUTXO 2%N djtx 4 ownerA].

Definition shortfallTx : UnsignedTx :=
  UnsignedImportTx
    {| NetworkID := 1; BlockchainID := PlatformChainID;
       Ins := [mkInput (mkUTXOID 1%N 0) djtx (TransferIn (mkTransferInput 10 [0]))];
       Outs := [plainOutput djtx 4 ownerA];
       Memo := [] |}
    chainX
    [mkInput (mkUTXOID 2%N 0) djtx (TransferIn (mkTransferInput 4 [0]))].

(** An export of 500 units of X from a wallet without funds: two assets are
    unmet. *)
Definition emptyWallet : builder := walletA [] [].
Definition exportX : request := Export chainX [plainOutput assetX 500 ownerB].

(** A wallet holding 10 asked to burn 15: 5 are left unmet. *)
Definition tenWallet : builder := walletA [plainUTXO 1%N djtx 10 ownerA] [].

Definition tenWalletAfter15 : spendState :=
  {| amountsToBurn := {[ djtx := 5 ]};
     amountsToStake := {[ djtx := 0 ]};
     inputs := [mkInput (mkUTXOID 1%N 0) djtx (TransferIn (mkTransferInput 10 [0]))];
     changeOutputs := [];
     stakeOutputs := [] |}.

(** ** What a visit produces *)

(** The visit from [st] to [st'] appended the inputs [ni], the stake outputs
    [ns] and the change outputs [nc]. *)
Definition appended (st st' : spendState)
    (ni : list TransferableInput) (ns nc : list TransferableOutput) : Prop :=
  inputs st' = inputs st ++ ni /\
  stakeOutputs st' = stakeOutputs st ++ ns /\
  changeOutputs st' = changeOutputs st ++ nc.

(** An output of [spend] is a plain output to the change owner, or the
    re-locked content of a stake-locked UTXO of the backend whose lock is
    still active. *)
Definition producedFrom (changeOwner : OutputOwners) (minIssuanceTime : Z)
    (utxos : list UTXO) (o : TransferableOutput) : Prop :=
  (exists assetID amount, o = plainOutput assetID amount changeOwner) \/
  (exists u locktime out amount,
     u ∈ utxos /\ utxoOut u = StakeableLockOut locktime (TransferOut out) /\
     minIssuanceTime < locktime /\
     o = lockedOutput (utxoAsset u) locktime amount (Owners out)).

(** The outputs a state of [spend] holds are all of these two kinds. *)
Definition producedSoFar (changeOwner : OutputOwners) (minIssuanceTime : Z)
    (utxos : list UTXO) (st : spendState) : Prop :=
  Forall (producedFrom changeOwner minIssuanceTime utxos)
    (changeOutputs st ++ stakeOutputs st).

(** ** More scenarios *)

(** An output of a type the builder does not know. *)
Definition unknownUTXO : UTXO := mkUTXO (mkUTXOID 2%N 0) djtx (OtherOut 99 50).

(** A stake-locked UTXO of 10, locked until 5000, asked to stake 6 at time
    1000: both outputs stay locked until 5000 for the same owner. *)
Definition lockedUTXO : UTXO :=
  mkUTXO (mkUTXOID 3%N 0) djtx
    (StakeableLockOut 5000 (TransferOut (mkTransferOutput 10 ownerA))).

Definition lockedAfter6 : spendState :=
  {| amountsToBurn := ∅;
     amountsToStake := {[ djtx := 0 ]};
     inputs := [mkInput (mkUTXOID 3%N 0) djtx
                  (StakeableLockIn 5000 (mkTransferInput 10 [0]))];
     changeOutputs := [lockedOutput djtx 5000 4 ownerA];
     stakeOutputs := [lockedOutput djtx 5000 6 ownerA] |}.

(** ** Two runs that differ *)

(** The state [spend] reaches after its two loops, before the closing check. *)
Definition afterLoops (b : builder) (toBurn toStake : gmap ID Z) (options : Options)
  : result spendState :=
  do utxos <- UTXOs (backend b) PlatformChainID;
  match Peek (addrs b) with
  | None => Err errNoChangeAddress
  | Some addr =>
      spendPasses (addrs b) (MinIssuanceTime options)
        (ChangeOwner options (defaultChangeOwner addr)) utxos toBurn toStake
  end.

(** The two results are InsufficientFunds errors that name two different
    assets, both left unmet in the map [remaining], each with the exact
    amount the map holds for it. *)
Definition namesUnmet {A} (remaining : gmap ID Z) (detail : Z -> ID -> fundsDetail)
    (r1 r2 : result A) : Prop :=
  exists assetID1 assetID2,
    assetID1 <> assetID2 /\
    get remaining assetID1 <> 0 /\ get remaining assetID2 <> 0 /\
    r1 = Err (errInsufficientFunds (detail (get remaining assetID1) assetID1)) /\
    r2 = Err (errInsufficientFunds (detail (get remaining assetID2) assetID2)).

(** A wallet of A with a stake-locked UTXO, 10 of the native asset and 600 of
    X, which exports 200 and 300 of X: the fee of 10 and the 500 are burned,
    100 of X come back. *)
Definition exportingWallet : builder :=
  walletA [lockedUTXO; plainUTXO 1%N djtx 10 ownerA; plainUTXO 2%N assetX 600 ownerA] [].

Definition export500 : request :=
  Export chainX [plainOutput assetX 300 ownerA; plainOutput assetX 200 ownerB].

Definition export500Tx : UnsignedTx :=
  UnsignedExportTx
    {| NetworkID := 1; BlockchainID := PlatformChainID;
       Ins := [mkInput (mkUTXOID 1%N 0) djtx (TransferIn (mkTransferInput 10 [0]));
               mkInput (mkUTXOID 2%N 0) assetX (TransferIn (mkTransferInput 600 [0]))];
       Outs := [plainOutput assetX 100 ownerA];
       Memo := [] |}
    chainX
    [plainOutput assetX 200 ownerB; plainOutput assetX 300 ownerA].

(** A wallet that controls no address, and a foreign UTXO of 20 that anyone
    can spend (threshold 0). *)
Definition anyone : OutputOwners := {| Locktime := 0; Threshold := 0; Addrs := [] |}.

Definition noAddressWallet : builder :=
  {| addrs := ∅; backend := backendOf [] [plainUTXO 2%N djtx 20 anyone] |}.

Definition changeToB : Options :=
  {| MinIssuanceTime := 1000; changeOwnerOverride := Some ownerB; optMemo := [] |}.

(** * Vocabulary of the further properties *)

(** [NewBuilder] returns a new transaction builder. *)
Definition NewBuilder (addrs : gset ShortID) (backend : BuilderBackend) : builder :=
  {| addrs := addrs; backend := backend |}.

(** An index of [owners.Addrs] whose address the wallet controls. *)
Definition controlledAt (addrs : gset ShortID) (owners : OutputOwners) (i : Z) : Prop :=
  0 <= i /\ exists a, Addrs owners !! Z.to_nat i = Some a /\ a ∈ addrs.

(** A subnet created by the transaction [subnetX], owned by A and B with
    threshold 1. *)
Definition subnetX : ID := 77%N.

Definition subnetOwner : OutputOwners :=
  {| Locktime := 0; Threshold := 1; Addrs := [addrB; addrA] |}.

Definition subnetBackend (local : list UTXO) : BuilderBackend :=
  {| backendNetworkID := 1;
     DJTXAssetID := djtx;
     BaseTxFee := 10;
     CreateSubnetTxFee := 100;
     UTXOs := fun _ => Ok local;
     GetTx := fun txID =>
       if decide (txID = subnetX) then
         Ok (mkTx (UnsignedCreateSubnetTx
                     (mkBaseTx 1 PlatformChainID [] [] []) (SecpOwner subnetOwner)))
       else Err (errBackend 404) |}.

Definition subnetWallet (local : list UTXO) : builder :=
  NewBuilder {[ addrA ]} (subnetBackend local).

(** An input that spends plain funds, an output that holds plain funds. *)
Definition plainIn (i : TransferableInput) : Prop :=
  exists input, inIn i = TransferIn input.

Definition plainOut (o : TransferableOutput) : Prop :=
  exists out, outOut o = TransferOut out.

(** The input [i] spends the UTXO [u], which the wallet matches: it carries
    the UTXO's id, asset and amount and the signer indices [match] gave, as a
    [StakeableLockIn] with the UTXO's lock time when the UTXO is still
    locked, as a plain input otherwise. *)
Definition spends (addrs : gset ShortID) (minIssuanceTime : Z) (i : TransferableInput)
    (u : UTXO) : Prop :=
  inUTXOID i = utxoID u /\ inAsset i = utxoAsset u /\
  InAmount (inIn i) = Amount (utxoOut u) /\
  exists out sigs,
    match_ addrs (Owners out) minIssuanceTime = (sigs, true) /\
    ((exists locktime,
        utxoOut u = StakeableLockOut locktime (TransferOut out) /\
        minIssuanceTime < locktime /\
        inIn i = StakeableLockIn locktime (mkTransferInput (Amt out) sigs)) \/
     (unlockedView minIssuanceTime (utxoOut u) = Some (TransferOut out) /\
      inIn i = TransferIn (mkTransferInput (Amt out) sigs))).

(** A UTXO still under its stake lock at [minIssuanceTime]. *)
Definition stillLocked (minIssuanceTime : Z) (u : UTXO) : Prop :=
  is_Some (activeLock minIssuanceTime (utxoOut u)).

(** What a UTXO offers of an asset to the first loop of [spend]: the amount of
    a stake-locked, still locked, matched UTXO of that asset. *)
Definition lockedFunds (addrs : gset ShortID) (minIssuanceTime : Z) (assetID : ID)
    (u : UTXO) : Z :=
  match utxoOut u with
  | StakeableLockOut locktime (TransferOut out) =>
      if (minIssuanceTime <? locktime)
         && snd (match_ addrs (Owners out) minIssuanceTime)
         && bool_decide (utxoAsset u = assetID)
      then Amt out else 0
  | _ => 0
  end.

(** What it offers to the second loop: the amount of a plain, or no longer
    locked, matched UTXO of that asset. *)
Definition unlockedFunds (addrs : gset ShortID) (minIssuanceTime : Z) (assetID : ID)
    (u : UTXO) : Z :=
  match unlockedView minIssuanceTime (utxoOut u) with
  | Some (TransferOut out) =>
      if snd (match_ addrs (Owners out) minIssuanceTime)
         && bool_decide (utxoAsset u = assetID)
      then Amt out else 0
  | _ => 0
  end.

Definition totalFunds (f : UTXO -> Z) (l : list UTXO) : Z :=
  foldr (fun u acc => f u + acc) 0 l.

(** The transaction [tx] is of the kind [req] asks for and carries the
    fields of [req], the owners' addresses and the exported outputs put in
    canonical order. *)
Definition answers (req : request) (tx : UnsignedTx) : Prop :=
  match req, tx with
  | AddValidator validator rewardsOwner shares,
    UnsignedAddValidatorTx _ validator' _ rewardsOwner' shares' =>
      validator' = validator /\ rewardsOwner' = sortOwnerAddrs rewardsOwner /\
      shares' = shares
  | AddSubnetValidator validator, UnsignedAddSubnetValidatorTx _ validator' _ =>
      validator' = validator
  | AddDelegator validator rewardsOwner,
    UnsignedAddDelegatorTx _ validator' _ rewardsOwner' =>
      validator' = validator /\ rewardsOwner' = sortOwnerAddrs rewardsOwner
  | CreateChain subnetID genesis vmID fxIDs chainName,
    UnsignedCreateChainTx _ subnetID' chainName' vmID' fxIDs' genesis' _ =>
      subnetID' = subnetID /\ chainName' = chainName /\ vmID' = vmID /\
      fxIDs' = SortIDs fxIDs /\ genesis' = genesis
  | CreateSubnet owner, UnsignedCreateSubnetTx _ owner' =>
      owner' = SecpOwner (sortOwnerAddrs owner)
  | Import sourceChainID _, UnsignedImportTx _ sourceChain _ =>
      sourceChain = sourceChainID
  | Export chainID outputs, UnsignedExportTx _ destinationChain exportedOutputs =>
      destinationChain = chainID /\ exportedOutputs = SortTransferableOutputs outputs
  | _, _ => False
  end.

(** A wallet with a stake-locked UTXO and a plain one, asked to validate with
    weight 12. *)
Definition stakingWallet : builder :=
  walletA [lockedUTXO; plainUTXO 1%N djtx 10 ownerA] [].

Definition validator12 : Validator :=
  {| NodeID := 9%N; Start := 2000; End_ := 3000; Wght := 12 |}.

Definition validatorTx : UnsignedTx :=
  UnsignedAddValidatorTx
    {| NetworkID := 1; BlockchainID := PlatformChainID;
       Ins := [mkInput (mkUTXOID 1%N 0) djtx (TransferIn (mkTransferInput 10 [0]));
               mkInput (mkUTXOID 3%N 0) djtx
                 (StakeableLockIn 5000 (mkTransferInput 10 [0]))];
       Outs := [plainOutput djtx 8 ownerA];
       Memo := [] |}
    validator12
    [plainOutput djtx 2 ownerA; lockedOutput djtx 5000 10 ownerA]
    {| Locktime := 0; Threshold := 1; Addrs := [addrA; addrB] |} 30000.

(** A UTXO whose output both loops of [spend] can read: a plain output, or a
    stake lock around a plain output. *)
Definition knownOutput (u : UTXO) : Prop :=
  match utxoOut u with
  | TransferOut _ => True
  | StakeableLockOut _ (TransferOut _) => True
  | _ => False
  end.

(** The wallet holds what it takes to burn [toBurn] and to stake [toStake]:
    per asset, unlocked funds for the burn, and locked and unlocked funds
    together for both. *)
Definition funded (addrs : gset ShortID) (minIssuanceTime : Z) (utxos : list UTXO)
    (toBurn toStake : gmap ID Z) : Prop :=
  forall assetID,
    get toBurn assetID <=
      totalFunds (unlockedFunds addrs minIssuanceTime assetID) utxos /\
    get toBurn assetID + get toStake assetID <=
      totalFunds (lockedFunds addrs minIssuanceTime assetID) utxos +
      totalFunds (unlockedFunds addrs minIssuanceTime assetID) utxos.

(** * Verification *)

(** ** Machine arithmetic *)

Lemma wrap64_small x : is_uint64 x -> wrap64 x = x.
Proof. unfold is_uint64, MaxUint64, wrap64. intros H. apply Z.mod_small. lia. Qed.

Lemma wrap32_small x : is_uint32 x -> wrap32 x = x.
Proof. unfold is_uint32, MaxUint32, wrap32. intros H. apply Z.mod_small. lia. Qed.

Lemma Min64_le_l a b : Min64 a b <= a.
Proof. unfold Min64. destruct (a <? b) eqn:E; lia. Qed.

Lemma Min64_le_r a b : Min64 a b <= b.
Proof. unfold Min64. destruct (a <? b) eqn:E; lia. Qed.

Lemma Min64_nonneg a b : 0 <= a -> 0 <= b -> 0 <= Min64 a b.
Proof. unfold Min64. destruct (a <? b); lia. Qed.

Lemma Min64_cases a b : (Min64 a b = a /\ a <= b) \/ (Min64 a b = b /\ b <= a).
Proof. unfold Min64. destruct (a <? b) eqn:E; lia. Qed.

Lemma Add64_Ok a b c : Add64 a b = Ok c <-> a + b <= MaxUint64 /\ c = a + b.
Proof.
  unfold Add64. destruct (MaxUint64 - b <? a) eqn:E.
  - split; [discriminate | lia].
  - split; [intros [= <-]; lia | intros [_ ->]; reflexivity].
Qed.

Lemma Add64_Err a b e : Add64 a b = Err e <-> MaxUint64 < a + b /\ e = errOverflow.
Proof.
  unfold Add64. destruct (MaxUint64 - b <? a) eqn:E.
  - split; [intros [= <-]; split; [lia | reflexivity] | intros [_ ->]; reflexivity].
  - split; [discriminate | lia].
Qed.

(** ** The matcher *)

Section matcher.
Variable addrs : gset ShortID.

Lemma controlledFrom_length_le i l :
  (length (controlledFrom addrs i l) <= length l)%nat.
Proof.
  revert i. induction l as [|a l IH]; intros i; simpl; [lia|].
  destruct (decide (a ∈ addrs)); simpl; specialize (IH (i + 1)); lia.
Qed.

(** The positions listed are those of the controlled addresses. *)
Lemma elem_of_controlledFrom i l k :
  k ∈ controlledFrom addrs i l <->
  exists (n : nat) a, k = i + Z.of_nat n /\ l !! n = Some a /\ a ∈ addrs.
Proof.
  revert i. induction l as [|a l IH]; intros i; simpl.
  - split; [intros H; inversion H | intros (n & b & _ & H & _); destruct n; discriminate].
  - assert (Hrec : k ∈ controlledFrom addrs (i + 1) l <->
              exists (n : nat) b, k = i + Z.of_nat (S n) /\ l !! n = Some b /\ b ∈ addrs).
    { rewrite IH. split; intros (n & b & -> & ? & ?); exists n, b; split_and!; auto; lia. }
    destruct (decide (a ∈ addrs)) as [Hin|Hnin].
    + rewrite elem_of_cons, Hrec. split.
      * intros [-> | (n & b & -> & ? & ?)].
        -- exists 0%nat, a. split_and!; auto. lia.
        -- exists (S n), b. auto.
      * intros (n & b & -> & Hl & Hb). destruct n as [|n].
        -- left. lia.
        -- right. exists n, b. auto.
    + rewrite Hrec. split.
      * intros (n & b & -> & ? & ?). exists (S n), b. auto.
      * intros (n & b & -> & Hl & Hb). destruct n as [|n].
        -- simpl in Hl. injection Hl as ->. contradiction.
        -- exists n, b. auto.
Qed.

(** As many positions as listed addresses that are controlled. *)
Lemma controlledFrom_length i l :
  length (controlledFrom addrs i l) = length (filter (fun a => a ∈ addrs) l).
Proof.
  revert i. induction l as [|a l IH]; intros i; [reflexivity|].
  cbn [controlledFrom]. rewrite filter_cons.
  destruct (decide (a ∈ addrs)); simpl; rewrite (IH (i + 1)); reflexivity.
Qed.

(** Without repeated addresses in the list, that is the number of listed
    addresses the controlled set contains. *)
Lemma controlledFrom_size i l :
  NoDup l ->
  length (controlledFrom addrs i l) = size (addrs ∩ list_to_set l).
Proof.
  intros Hnd. rewrite controlledFrom_length.
  assert (Hf : NoDup (filter (fun a => a ∈ addrs) l)) by (apply NoDup_filter; exact Hnd).
  rewrite <- (size_list_to_set (C := gset ShortID) _ Hf).
  f_equal. apply set_eq. intros x.
  rewrite elem_of_list_to_set, list_elem_of_filter, elem_of_intersection, elem_of_list_to_set.
  reflexivity.
Qed.

Lemma matchLoop_spec threshold l i sigs :
  0 <= i ->
  Z.of_nat (length sigs) <= i ->
  i + Z.of_nat (length l) <= MaxUint32 ->
  matchLoop addrs threshold l i sigs =
  sigs ++ take (Z.to_nat (threshold - Z.of_nat (length sigs))) (controlledFrom addrs i l).
Proof.
  revert i sigs. induction l as [|a l IH]; intros i sigs Hi Hs Hl; simpl.
  - rewrite take_nil, app_nil_r. reflexivity.
  - simpl length in Hl. rewrite wrap32_small by (unfold is_uint32; lia).
    destruct (Z.of_nat (length sigs) <? threshold) eqn:E.
    + apply Z.ltb_lt in E.
      rewrite (wrap32_small (i + 1)) by (unfold is_uint32; lia).
      destruct (decide (a ∈ addrs)).
      * rewrite IH by (rewrite ?length_app; simpl; lia).
        rewrite length_app. simpl length.
        replace (Z.to_nat (threshold - Z.of_nat (length sigs)))
          with (S (Z.to_nat (threshold - Z.of_nat (length sigs + 1)))) by lia.
        simpl. rewrite <- app_assoc. reflexivity.
      * apply IH; lia.
    + apply Z.ltb_ge in E.
      replace (Z.to_nat (threshold - Z.of_nat (length sigs))) with 0%nat by lia.
      rewrite take_0, app_nil_r. reflexivity.
Qed.

Lemma match_unlocked owners minIssuanceTime :
  wfOwners owners ->
  Locktime owners <= minIssuanceTime ->
  match_ addrs owners minIssuanceTime =
  (take (Z.to_nat (Threshold owners)) (controlledIndices addrs owners),
   Threshold owners <=? Z.of_nat (length (controlledIndices addrs owners))).
Proof.
  intros (Hlt & Hth & Hlen) Hle. unfold match_.
  destruct (minIssuanceTime <? Locktime owners) eqn:E; [apply Z.ltb_lt in E; lia|].
  rewrite (wrap32_small (Z.of_nat (length (Addrs owners)))) by (unfold is_uint32; lia).
  rewrite Nat2Z.id, firstn_all.
  rewrite matchLoop_spec by (simpl; lia). simpl.
  rewrite Z.sub_0_r. fold (controlledIndices addrs owners).
  f_equal.
  pose proof (controlledFrom_length_le 0 (Addrs owners)) as Hc.
  fold (controlledIndices addrs owners) in Hc.
  rewrite length_take.
  unfold is_uint32 in Hth.
  rewrite wrap32_small by (unfold is_uint32; lia).
  destruct (Threshold owners <=? Z.of_nat (length (controlledIndices addrs owners))) eqn:E2.
  - apply Z.leb_le in E2. apply Z.eqb_eq. lia.
  - apply Z.leb_gt in E2. apply Z.eqb_neq. lia.
Qed.

Lemma match_locked owners minIssuanceTime :
  minIssuanceTime < Locktime owners ->
  match_ addrs owners minIssuanceTime = ([], false).
Proof.
  intros H. unfold match_.
  destruct (minIssuanceTime <? Locktime owners) eqn:E; [reflexivity|].
  apply Z.ltb_ge in E. lia.
Qed.
End matcher.

(** C3. For well-formed owners, [match] is satisfied exactly when the
    issuance time has reached the owners' lock time and at least [Threshold]
    of the listed addresses are controlled; the signer indices are then the
    positions, in listed order, of the first [Threshold] controlled addresses,
    and there are exactly [Threshold] of them; a zero threshold with an
    expired lock gives the empty list and success.  The controlled positions
    are as many as the listed addresses that are controlled, which, for a
    list without repetition, is the number of listed addresses the controlled
    set contains. *)
Theorem match_threshold_correct (addrs : gset ShortID) (owners : OutputOwners)
    (minIssuanceTime : Z) :
  wfOwners owners ->
  (snd (match_ addrs owners minIssuanceTime) = true <->
     Locktime owners <= minIssuanceTime /\
     Threshold owners <= Z.of_nat (length (controlledIndices addrs owners))) /\
  (snd (match_ addrs owners minIssuanceTime) = true ->
     fst (match_ addrs owners minIssuanceTime) =
       take (Z.to_nat (Threshold owners)) (controlledIndices addrs owners) /\
     Z.of_nat (length (fst (match_ addrs owners minIssuanceTime))) = Threshold owners) /\
  (Threshold owners = 0 -> Locktime owners <= minIssuanceTime ->
     match_ addrs owners minIssuanceTime = ([], true)) /\
  length (controlledIndices addrs owners) =
    length (filter (fun a => a ∈ addrs) (Addrs owners)) /\
  (NoDup (Addrs owners) ->
     length (controlledIndices addrs owners) =
       size (addrs ∩ list_to_set (Addrs owners))).
Proof.
  intros Hwf.
  cut ((snd (match_ addrs owners minIssuanceTime) = true <->
          Locktime owners <= minIssuanceTime /\
          Threshold owners <= Z.of_nat (length (controlledIndices addrs owners))) /\
       (snd (match_ addrs owners minIssuanceTime) = true ->
          fst (match_ addrs owners minIssuanceTime) =
            take (Z.to_nat (Threshold owners)) (controlledIndices addrs owners) /\
          Z.of_nat (length (fst (match_ addrs owners minIssuanceTime))) = Threshold owners) /\
       (Threshold owners = 0 -> Locktime owners <= minIssuanceTime ->
          match_ addrs owners minIssuanceTime = ([], true))).
  { intros (H1 & H2 & H3). split_and!; auto.
    - apply controlledFrom_length.
    - apply controlledFrom_size. }
  destruct (Z_lt_le_dec minIssuanceTime (Locktime owners)) as [Hlk|Hlk].
  - rewrite match_locked by exact Hlk. simpl. split_and!.
    + split; [discriminate | lia].
    + discriminate.
    + lia.
  - rewrite match_unlocked by assumption. simpl. split_and!.
    + rewrite Z.leb_le. tauto.
    + intros H%Z.leb_le. split; [reflexivity|].
      destruct Hwf as (_ & [? ?] & _). rewrite length_take. lia.
    + intros -> _. simpl. rewrite take_0. f_equal. apply Z.leb_le. lia.
Qed.

Lemma match_threshold_correct_witness :
  let addrs : gset ShortID := {[ 1%N; 2%N ]} in
  let owners := {| Locktime := 3; Threshold := 2; Addrs := [1%N; 7%N; 2%N; 1%N] |} in
  wfOwners owners /\
  (snd (match_ addrs owners 5) = true <->
     Locktime owners <= 5 /\
     Threshold owners <= Z.of_nat (length (controlledIndices addrs owners))).
Proof.
  intros addrs owners.
  assert (Hwf : wfOwners owners) by (vm_compute; intuition discriminate).
  split; [exact Hwf|].
  exact (proj1 (match_threshold_correct addrs owners 5 Hwf)).
Defined.

Example match_first_threshold :
  match_ {[ 1%N; 2%N ]} {| Locktime := 3; Threshold := 2; Addrs := [1%N; 7%N; 2%N; 1%N] |} 5
  = ([0; 2], true).
Proof. reflexivity. Qed.

Example match_short_of_threshold :
  match_ {[ 1%N ]} {| Locktime := 0; Threshold := 2; Addrs := [1%N; 2%N] |} 5 = ([0], false).
Proof. reflexivity. Qed.

(** ** Loops, maps and sums *)

Lemma forEach_invariant {S A} (P : S -> Prop) (body : S -> A -> result S) l st st' :
  (forall s x s', x ∈ l -> P s -> body s x = Ok s' -> P s') ->
  P st -> forEach body st l = Ok st' -> P st'.
Proof.
  revert st. induction l as [|x l IH]; intros st Hstep HP Hrun; simpl in Hrun.
  - injection Hrun as <-. exact HP.
  - destruct (body st x) as [s1|e] eqn:E; simpl in Hrun; [|discriminate].
    apply (IH s1); auto.
    + intros s y s' Hy. apply Hstep. right. exact Hy.
    + eapply Hstep; eauto. left.
  Qed.

Lemma forEach_app {S A} (body : S -> A -> result S) l1 l2 st :
  forEach body st (l1 ++ l2) = do st1 <- forEach body st l1; forEach body st1 l2.
Proof.
  revert st. induction l1 as [|x l1 IH]; intros st; simpl; [reflexivity|].
  destruct (body st x); simpl; auto.
Qed.

Lemma get_uint64 m k : wfAmounts m -> is_uint64 (get m k).
Proof.
  intros H. unfold get. destruct (m !! k) as [v|] eqn:E; simpl.
  - eapply H; eauto.
  - unfold is_uint64, MaxUint64. lia.
Qed.

Lemma get_empty k : get ∅ k = 0.
Proof. unfold get. rewrite lookup_empty. reflexivity. Qed.

Lemma get_insert m k v k' :
  get (<[k := v]> m) k' = if decide (k = k') then v else get m k'.
Proof.
  unfold get. rewrite lookup_insert. destruct (decide (k = k')); reflexivity.
Qed.

Lemma get_singleton k v k' :
  get ({[ k := v ]} : gmap ID Z) k' = if decide (k = k') then v else 0.
Proof.
  unfold get. rewrite lookup_singleton. destruct (decide (k = k')); reflexivity.
Qed.

Lemma get_subAt m k x k' :
  get (subAt m k x) k' = if decide (k = k') then wrap64 (get m k - x) else get m k'.
Proof. unfold subAt. apply get_insert. Qed.

Lemma wfAmounts_empty : wfAmounts ∅.
Proof. intros k v H. rewrite lookup_empty in H. discriminate. Qed.

Lemma wfAmounts_insert m k v : wfAmounts m -> is_uint64 v -> wfAmounts (<[k := v]> m).
Proof.
  intros Hm Hv k' v' H. rewrite lookup_insert in H.
  destruct (decide (k = k')).
  - injection H as <-. exact Hv.
  - eapply Hm; eauto.
Qed.

Lemma wfAmounts_singleton k v : is_uint64 v -> wfAmounts {[ k := v ]}.
Proof. intros Hv. rewrite <- insert_empty. apply wfAmounts_insert; auto using wfAmounts_empty. Qed.

Lemma wfAmounts_subAt m k x : wfAmounts m -> wfAmounts (subAt m k x).
Proof.
  intros Hm. apply wfAmounts_insert; auto.
  unfold is_uint64, MaxUint64, wrap64.
  pose proof (Z.mod_pos_bound (get m k - x) (2 ^ 64)). lia.
Qed.

Lemma firstNonzero_None l :
  firstNonzero l = None <-> forall k v, (k, v) ∈ l -> v = 0.
Proof.
  induction l as [|[k v] l IH]; simpl.
  - split; [intros _ k v H; inversion H | reflexivity].
  - destruct (v =? 0) eqn:E.
    + apply Z.eqb_eq in E. rewrite IH. split.
      * intros H k' v' [[= -> ->] | Hin]%elem_of_cons; eauto.
      * intros H k' v' Hin. apply (H k'). right. exact Hin.
    + apply Z.eqb_neq in E. split; [discriminate|].
      intros H. exfalso. apply E. apply (H k). left.
Qed.

Lemma firstNonzero_Some l k v :
  firstNonzero l = Some (k, v) -> (k, v) ∈ l /\ v <> 0.
Proof.
  induction l as [|[k' v'] l IH]; simpl; [discriminate|].
  destruct (v' =? 0) eqn:E.
  - intros H. destruct (IH H). split; [right|]; assumption.
  - apply Z.eqb_neq in E. intros [= -> ->]. split; [left | assumption].
Qed.

Section range.
Variable rt : Runtime.

Lemma elem_of_rangeMap m k v : (k, v) ∈ rangeMap rt m <-> m !! k = Some v.
Proof. rewrite (rangeMap_perm rt m). apply elem_of_map_to_list. Qed.

Lemma rangeMap_all_zero m :
  firstNonzero (rangeMap rt m) = None <-> forall k, get m k = 0.
Proof.
  rewrite firstNonzero_None. split.
  - intros H k. unfold get. destruct (m !! k) as [v|] eqn:E; simpl; [|reflexivity].
    apply (H k). apply elem_of_rangeMap. exact E.
  - intros H k v Hin. apply elem_of_rangeMap in Hin.
    specialize (H k). unfold get in H. rewrite Hin in H. exact H.
Qed.

Lemma rangeMap_nonzero m k v :
  firstNonzero (rangeMap rt m) = Some (k, v) -> m !! k = Some v /\ get m k = v /\ v <> 0.
Proof.
  intros [Hin Hv]%firstNonzero_Some. apply elem_of_rangeMap in Hin.
  unfold get. rewrite Hin. auto.
Qed.

(** The closing check passes exactly when both maps read zero everywhere. *)
Lemma checkExhausted_Ok st :
  checkExhausted rt st = Ok tt <->
  (forall k, get (amountsToStake st) k = 0) /\ (forall k, get (amountsToBurn st) k = 0).
Proof.
  unfold checkExhausted. rewrite <- !rangeMap_all_zero.
  destruct (firstNonzero (rangeMap rt (amountsToStake st))) as [[k v]|].
  - split; [discriminate | intros [? _]; discriminate].
  - destruct (firstNonzero (rangeMap rt (amountsToBurn st))) as [[k v]|].
    + split; [discriminate | intros [_ ?]; discriminate].
    + tauto.
Qed.
End range.

Lemma sumIn_app a l1 l2 : sumIn a (l1 ++ l2) = sumIn a l1 + sumIn a l2.
Proof. unfold sumIn. induction l1 as [|x l1 IH]; simpl; [reflexivity|]. rewrite IH. lia. Qed.

Lemma sumOut_app a l1 l2 : sumOut a (l1 ++ l2) = sumOut a l1 + sumOut a l2.
Proof. unfold sumOut. induction l1 as [|x l1 IH]; simpl; [reflexivity|]. rewrite IH. lia. Qed.

Lemma sumIn_perm a l1 l2 : l1 ≡ₚ l2 -> sumIn a l1 = sumIn a l2.
Proof. unfold sumIn. induction 1; simpl; lia. Qed.

Lemma sumOut_perm a l1 l2 : l1 ≡ₚ l2 -> sumOut a l1 = sumOut a l2.
Proof. unfold sumOut. induction 1; simpl; lia. Qed.

Lemma sumIn_sort a l : sumIn a (SortTransferableInputs l) = sumIn a l.
Proof. apply sumIn_perm, merge_sort_Permutation. Qed.

Lemma sumOut_sort a l : sumOut a (SortTransferableOutputs l) = sumOut a l.
Proof. apply sumOut_perm, merge_sort_Permutation. Qed.

(** ** One visit of each loop of [spend] *)

Lemma forEach_Err_at {S A} (body : S -> A -> result S) l1 x l2 st st1 e :
  forEach body st l1 = Ok st1 -> body st1 x = Err e ->
  forEach body st (l1 ++ x :: l2) = Err e.
Proof. intros H1 H2. rewrite forEach_app, H1. simpl. rewrite H2. reflexivity. Qed.

Lemma forEach_Err_inv {S A} (body : S -> A -> result S) l st e :
  forEach body st l = Err e ->
  exists l1 x l2 st1,
    l = l1 ++ x :: l2 /\ forEach body st l1 = Ok st1 /\ body st1 x = Err e.
Proof.
  revert st. induction l as [|x l IH]; intros st H; simpl in H; [discriminate|].
  destruct (body st x) as [s1|e1] eqn:E; simpl in H.
  - destruct (IH _ H) as (l1 & y & l2 & st1 & -> & H1 & H2).
    exists (x :: l1), y, l2, st1. split_and!; auto. simpl. rewrite E. exact H1.
  - injection H as ->. exists [], x, l, st. auto.
Qed.

Section visits.
Variables (addrs : gset ShortID) (minIssuanceTime : Z) (changeOwner : OutputOwners).

Lemma unlockedView_activeLock o :
  unlockedView minIssuanceTime o = None <-> is_Some (activeLock minIssuanceTime o).
Proof.
  destruct o as [out|lt inner|t a]; simpl.
  - split; [discriminate | intros [? [=]]].
  - destruct (minIssuanceTime <? lt); split; eauto; try discriminate. intros [? [=]].
  - split; [discriminate | intros [? [=]]].
Qed.

(** What a successful visit of the first loop did. *)
Lemma lockedVisit_Ok st u st' :
  lockedVisit addrs minIssuanceTime st u = Ok st' ->
  st' = st \/
  exists locktime out sigs,
    utxoOut u = StakeableLockOut locktime (TransferOut out) /\
    minIssuanceTime < locktime /\
    match_ addrs (Owners out) minIssuanceTime = (sigs, true) /\
    get (amountsToStake st) (utxoAsset u) <> 0 /\
    let amountToStake := Min64 (get (amountsToStake st) (utxoAsset u)) (Amt out) in
    let remainingAmount := wrap64 (Amt out - amountToStake) in
    amountsToBurn st' = amountsToBurn st /\
    amountsToStake st' = subAt (amountsToStake st) (utxoAsset u) amountToStake /\
    inputs st' = inputs st ++
      [mkInput (utxoID u) (utxoAsset u)
         (StakeableLockIn locktime (mkTransferInput (Amt out) sigs))] /\
    stakeOutputs st' = stakeOutputs st ++
      [lockedOutput (utxoAsset u) locktime amountToStake (Owners out)] /\
    changeOutputs st' = changeOutputs st ++
      (if 0 <? remainingAmount
       then [lockedOutput (utxoAsset u) locktime remainingAmount (Owners out)]
       else []).
Proof.
  unfold lockedVisit.
  destruct (get (amountsToStake st) (utxoAsset u) =? 0) eqn:Hneed;
    [intros [= <-]; left; reflexivity|].
  apply Z.eqb_neq in Hneed.
  destruct (utxoOut u) as [out|lt inner|t a]; try (intros [= <-]; left; reflexivity).
  destruct (lt <=? minIssuanceTime) eqn:Hlt; [intros [= <-]; left; reflexivity|].
  apply Z.leb_gt in Hlt.
  destruct inner as [out|lt' inner'|t a]; try discriminate.
  destruct (match_ addrs (Owners out) minIssuanceTime) as [sigs [|]] eqn:Hm;
    [|intros [= <-]; left; reflexivity].
  intros [= <-]. right. exists lt, out, sigs. simpl.
  split_and!; auto.
  destruct (0 <? wrap64 (Amt out - Min64 (get (amountsToStake st) (utxoAsset u)) (Amt out)));
    [reflexivity | rewrite app_nil_r; reflexivity].
Qed.

(** When the first loop fails. *)
Lemma lockedVisit_Err st u e :
  lockedVisit addrs minIssuanceTime st u = Err e <->
  e = errUnknownOutputType /\
  get (amountsToStake st) (utxoAsset u) <> 0 /\
  exists locktime inner,
    activeLock minIssuanceTime (utxoOut u) = Some (locktime, inner) /\
    isTransferOut inner = false.
Proof.
  unfold lockedVisit, activeLock.
  destruct (get (amountsToStake st) (utxoAsset u) =? 0) eqn:Hneed.
  { apply Z.eqb_eq in Hneed. split; [discriminate | intros (_ & H & _); contradiction]. }
  apply Z.eqb_neq in Hneed.
  destruct (utxoOut u) as [out|lt inner|t a];
    try (split; [discriminate | intros (_ & _ & ? & ? & [=] & _)]).
  rewrite Z.leb_antisym. destruct (minIssuanceTime <? lt); simpl;
    [|split; [discriminate | intros (_ & _ & ? & ? & [=] & _)]].
  destruct inner as [out|lt' inner'|t a].
  - destruct (match_ addrs (Owners out) minIssuanceTime) as [sigs [|]];
      (split; [discriminate | intros (_ & _ & ? & ? & [= <- <-] & [=])]).
  - split; [intros [= <-] | intros (-> & _)]; eauto 10.
  - split; [intros [= <-] | intros (-> & _)]; eauto 10.
Qed.

(** What a successful visit of the second loop did. *)
Lemma unlockedVisit_Ok st u st' :
  unlockedVisit addrs minIssuanceTime changeOwner st u = Ok st' ->
  st' = st \/
  exists out sigs,
    unlockedView minIssuanceTime (utxoOut u) = Some (TransferOut out) /\
    match_ addrs (Owners out) minIssuanceTime = (sigs, true) /\
    ~ (get (amountsToStake st) (utxoAsset u) = 0 /\
       get (amountsToBurn st) (utxoAsset u) = 0) /\
    let amountToBurn := Min64 (get (amountsToBurn st) (utxoAsset u)) (Amt out) in
    let amountAvalibleToStake := wrap64 (Amt out - amountToBurn) in
    let amountToStake :=
      Min64 (get (amountsToStake st) (utxoAsset u)) amountAvalibleToStake in
    let remainingAmount := wrap64 (amountAvalibleToStake - amountToStake) in
    amountsToBurn st' = subAt (amountsToBurn st) (utxoAsset u) amountToBurn /\
    amountsToStake st' = subAt (amountsToStake st) (utxoAsset u) amountToStake /\
    inputs st' = inputs st ++
      [mkInput (utxoID u) (utxoAsset u) (TransferIn (mkTransferInput (Amt out) sigs))] /\
    stakeOutputs st' = stakeOutputs st ++
      (if 0 <? amountToStake
       then [plainOutput (utxoAsset u) amountToStake changeOwner] else []) /\
    changeOutputs st' = changeOutputs st ++
      (if 0 <? remainingAmount
       then [plainOutput (utxoAsset u) remainingAmount changeOwner] else []).
Proof.
  unfold unlockedVisit.
  destruct ((get (amountsToStake st) (utxoAsset u) =? 0) &&
            (get (amountsToBurn st) (utxoAsset u) =? 0)) eqn:Hneed;
    [intros [= <-]; left; reflexivity|].
  apply andb_false_iff in Hneed. rewrite !Z.eqb_neq in Hneed.
  destruct (unlockedView minIssuanceTime (utxoOut u)) as [[out|lt inner|t a]|] eqn:Hv;
    try discriminate; [|intros [= <-]; left; reflexivity].
  destruct (match_ addrs (Owners out) minIssuanceTime) as [sigs [|]] eqn:Hm;
    [|intros [= <-]; left; reflexivity].
  intros [= <-]. right. exists out, sigs. simpl.
  split_and!; auto; [tauto | |].
  - destruct (0 <? Min64 _ _); [reflexivity | rewrite app_nil_r; reflexivity].
  - destruct (0 <? wrap64 _); [reflexivity | rewrite app_nil_r; reflexivity].
Qed.

(** When the second loop fails. *)
Lemma unlockedVisit_Err st u e :
  unlockedVisit addrs minIssuanceTime changeOwner st u = Err e <->
  e = errUnknownOutputType /\
  ~ (get (amountsToStake st) (utxoAsset u) = 0 /\
     get (amountsToBurn st) (utxoAsset u) = 0) /\
  exists o,
    unlockedView minIssuanceTime (utxoOut u) = Some o /\ isTransferOut o = false.
Proof.
  unfold unlockedVisit.
  destruct ((get (amountsToStake st) (utxoAsset u) =? 0) &&
            (get (amountsToBurn st) (utxoAsset u) =? 0)) eqn:Hneed.
  { apply andb_true_iff in Hneed. rewrite !Z.eqb_eq in Hneed.
    split; [discriminate | intros (_ & H & _); contradiction]. }
  apply andb_false_iff in Hneed. rewrite !Z.eqb_neq in Hneed.
  destruct (unlockedView minIssuanceTime (utxoOut u)) as [[out|lt inner|t a]|] eqn:Hv.
  - destruct (match_ addrs (Owners out) minIssuanceTime) as [sigs [|]];
      (split; [discriminate | intros (_ & _ & ? & [= <-] & [=])]).
  - split; [intros [= <-] | intros (-> & _)]; [|reflexivity].
    split_and!; [reflexivity | tauto | eauto].
  - split; [intros [= <-] | intros (-> & _)]; [|reflexivity].
    split_and!; [reflexivity | tauto | eauto].
  - split; [discriminate | intros (_ & _ & ? & [=] & _)].
Qed.
End visits.

(** ** Accounting invariant of [spend] *)

Lemma sub64_small a b : is_uint64 a -> 0 <= b <= a -> wrap64 (a - b) = a - b.
Proof. intros Ha Hb. apply wrap64_small. unfold is_uint64 in *. lia. Qed.

Lemma sumOut_lockedOutput a assetID lt amt owners :
  sumOut a [lockedOutput assetID lt amt owners] = if decide (assetID = a) then amt else 0.
Proof. unfold sumOut. simpl. destruct (decide (assetID = a)); lia. Qed.

Lemma sumOut_plainOutput a assetID amt owners :
  sumOut a [plainOutput assetID amt owners] = if decide (assetID = a) then amt else 0.
Proof. unfold sumOut. simpl. destruct (decide (assetID = a)); lia. Qed.

Lemma sumOut_nil a : sumOut a [] = 0.
Proof. reflexivity. Qed.

Lemma sumIn_single a i : sumIn a [i] = if decide (inAsset i = a) then InAmount (inIn i) else 0.
Proof. unfold sumIn. simpl. destruct (decide (inAsset i = a)); lia. Qed.

Lemma unlockedView_Amount mit o out :
  unlockedView mit o = Some (TransferOut out) -> Amount o = Amt out.
Proof.
  destruct o as [out'|lt inner|t a]; simpl.
  - intros [= ->]. reflexivity.
  - destruct (mit <? lt); [discriminate|]. intros [= ->]. reflexivity.
  - discriminate.
Qed.

Section accounting.
Variables (addrs : gset ShortID) (minIssuanceTime : Z) (changeOwner : OutputOwners).
Variables (toBurn toStake : gmap ID Z).

Lemma lockedVisit_accounted st u st' :
  wfUTXO u -> accounted toBurn toStake st ->
  lockedVisit addrs minIssuanceTime st u = Ok st' ->
  accounted toBurn toStake st'.
Proof.
  intros Hu (Hb & Hs & Hacc) Hv.
  destruct (lockedVisit_Ok _ _ _ _ _ Hv)
    as [-> | (lt & out & sigs & Hout & Hlt & Hm & Hneed & HB & HS & HI & HSO & HCO)];
    [exact (conj Hb (conj Hs Hacc))|].
  unfold wfUTXO in Hu. rewrite Hout in Hu. simpl in Hu.
  pose proof (get_uint64 _ (utxoAsset u) Hs) as Hg.
  set (need := get (amountsToStake st) (utxoAsset u)) in *.
  pose proof (Min64_le_l need (Amt out)) as Hl.
  pose proof (Min64_le_r need (Amt out)) as Hr.
  assert (Hn : 0 <= Min64 need (Amt out))
    by (apply Min64_nonneg; unfold is_uint64 in *; lia).
  set (s := Min64 need (Amt out)) in *.
  rewrite (sub64_small (Amt out) s) in HCO by (auto; lia).
  split_and!.
  - rewrite HB. exact Hb.
  - rewrite HS. apply wfAmounts_subAt, Hs.
  - intros a. destruct (Hacc a) as [H1 H2].
    rewrite HB, HS, HI, HSO, HCO, sumIn_app, !sumOut_app, sumIn_single,
      sumOut_lockedOutput, get_subAt. simpl inAsset. simpl InAmount.
    fold need. rewrite (sub64_small need s) by (auto; lia).
    destruct (0 <? Amt out - s) eqn:E;
      [apply Z.ltb_lt in E; rewrite sumOut_lockedOutput
      |apply Z.ltb_ge in E; rewrite sumOut_nil];
      destruct (decide (utxoAsset u = a)) as [<-|]; fold need; lia.
Qed.

Lemma unlockedVisit_accounted st u st' :
  wfUTXO u -> accounted toBurn toStake st ->
  unlockedVisit addrs minIssuanceTime changeOwner st u = Ok st' ->
  accounted toBurn toStake st'.
Proof.
  intros Hu (Hb & Hs & Hacc) Hv.
  destruct (unlockedVisit_Ok _ _ _ _ _ _ Hv)
    as [-> | (out & sigs & Hout & Hm & Hneed & HB & HS & HI & HSO & HCO)];
    [exact (conj Hb (conj Hs Hacc))|].
  unfold wfUTXO in Hu. rewrite (unlockedView_Amount _ _ _ Hout) in Hu.
  pose proof (get_uint64 _ (utxoAsset u) Hs) as Hgs.
  pose proof (get_uint64 _ (utxoAsset u) Hb) as Hgb.
  set (needS := get (amountsToStake st) (utxoAsset u)) in *.
  set (needB := get (amountsToBurn st) (utxoAsset u)) in *.
  pose proof (Min64_le_l needB (Amt out)).
  pose proof (Min64_le_r needB (Amt out)).
  assert (0 <= Min64 needB (Amt out))
    by (apply Min64_nonneg; unfold is_uint64 in *; lia).
  set (bn := Min64 needB (Amt out)) in *.
  rewrite (sub64_small (Amt out) bn) in HS, HSO, HCO by (auto; lia).
  pose proof (Min64_le_l needS (Amt out - bn)).
  pose proof (Min64_le_r needS (Amt out - bn)).
  assert (0 <= Min64 needS (Amt out - bn))
    by (apply Min64_nonneg; unfold is_uint64 in *; lia).
  set (s := Min64 needS (Amt out - bn)) in *.
  rewrite (sub64_small (Amt out - bn) s) in HCO by (unfold is_uint64 in *; lia).
  split_and!.
  - rewrite HB. apply wfAmounts_subAt, Hb.
  - rewrite HS. apply wfAmounts_subAt, Hs.
  - intros a. destruct (Hacc a) as [Ha1 Ha2].
    rewrite HB, HS, HI, HSO, HCO, sumIn_app, !sumOut_app, sumIn_single, !get_subAt.
    simpl inAsset. simpl InAmount. fold needS needB.
    rewrite (sub64_small needS s), (sub64_small needB bn) by (auto; lia).
    destruct (0 <? s) eqn:E1;
      [apply Z.ltb_lt in E1; rewrite sumOut_plainOutput
      |apply Z.ltb_ge in E1; rewrite sumOut_nil];
      (destruct (0 <? Amt out - bn - s) eqn:E2;
       [apply Z.ltb_lt in E2; rewrite sumOut_plainOutput
       |apply Z.ltb_ge in E2; rewrite sumOut_nil]);
      destruct (decide (utxoAsset u = a)) as [<-|]; fold needS needB; lia.
Qed.

Lemma spendPasses_accounted utxos st :
  wfAmounts toBurn -> wfAmounts toStake -> Forall wfUTXO utxos ->
  spendPasses addrs minIssuanceTime changeOwner utxos toBurn toStake = Ok st ->
  accounted toBurn toStake st.
Proof.
  intros Hb Hs Hu. unfold spendPasses.
  destruct (forEach (lockedVisit addrs minIssuanceTime) _ utxos) as [st1|e] eqn:E1;
    simpl; [|discriminate].
  intros E2. rewrite Forall_forall in Hu.
  eapply (forEach_invariant (accounted toBurn toStake)); [| |exact E2].
  - intros s x s' Hx. apply unlockedVisit_accounted. auto.
  - eapply (forEach_invariant (accounted toBurn toStake)); [| |exact E1].
    + intros s x s' Hx. apply lockedVisit_accounted. auto.
    + unfold accounted. simpl. split_and!; auto. intros a. unfold sumIn, sumOut. simpl. lia.
Qed.
End accounting.

(** Conservation for [spend]: what it consumes is the change, the stake and
    the requested burn; the stake outputs hold the requested stake. *)
Lemma spend_conserves rt b toBurn toStake options utxos ins change stake :
  UTXOs (backend b) PlatformChainID = Ok utxos -> Forall wfUTXO utxos ->
  wfAmounts toBurn -> wfAmounts toStake ->
  spend rt b toBurn toStake options = Ok (ins, change, stake) ->
  forall assetID,
    sumIn assetID ins = sumOut assetID change + sumOut assetID stake + get toBurn assetID /\
    sumOut assetID stake = get toStake assetID.
Proof.
  intros HU Hwf Hb Hs. unfold spend. rewrite HU. simpl.
  destruct (Peek (addrs b)) as [addr|]; [|discriminate].
  destruct (spendPasses _ _ _ utxos toBurn toStake) as [st|e] eqn:Hp; simpl; [|discriminate].
  destruct (checkExhausted rt st) as [[]|e] eqn:Hc; simpl; [|discriminate].
  intros [= <- <- <-] a.
  apply checkExhausted_Ok in Hc. destruct Hc as [HzS HzB].
  apply spendPasses_accounted in Hp; auto. destruct Hp as (_ & _ & Hacc).
  destruct (Hacc a) as [H1 H2].
  rewrite sumIn_sort, !sumOut_sort, H1, H2, HzS, HzB. lia.
Qed.

(** ** Import and export loops *)

Lemma totalIn_app l1 l2 : totalIn (l1 ++ l2) = totalIn l1 + totalIn l2.
Proof. unfold totalIn. induction l1 as [|x l1 IH]; simpl; [reflexivity|]. rewrite IH. lia. Qed.

Lemma totalIn_cons i l : totalIn (i :: l) = InAmount (inIn i) + totalIn l.
Proof. reflexivity. Qed.

Lemma sumIn_cons a i l :
  sumIn a (i :: l) = (if decide (inAsset i = a) then InAmount (inIn i) else 0) + sumIn a l.
Proof. reflexivity. Qed.

Section import.
Variables (b : builder) (options : Options).

Local Abbreviation visit :=
  (importVisit (addrs b) (MinIssuanceTime options) (DJTXAssetID (backend b))).
Local Abbreviation pick :=
  (importable (addrs b) (MinIssuanceTime options) (DJTXAssetID (backend b))).

Lemma importable_Some u i :
  pick u = Some i ->
  inAsset i = DJTXAssetID (backend b) /\ InAmount (inIn i) = Amount (utxoOut u).
Proof.
  unfold importable.
  destruct (decide (utxoAsset u = DJTXAssetID (backend b))) as [Ha|]; [|discriminate].
  destruct (utxoOut u) as [out| |]; try discriminate.
  destruct (snd (match_ _ _ _)); [|discriminate].
  intros [= <-]. simpl. auto.
Qed.

Lemma importVisit_pick ins amt u :
  visit (ins, amt) u =
  match pick u with
  | Some i => do newAmt <- Add64 amt (InAmount (inIn i)); Ok (ins ++ [i], newAmt)
  | None => Ok (ins, amt)
  end.
Proof.
  unfold importVisit, importable.
  destruct (decide (utxoAsset u = DJTXAssetID (backend b))) as [Ha|Ha].
  - rewrite bool_decide_eq_true_2 by exact Ha. simpl.
    destruct (utxoOut u) as [out| |]; try reflexivity.
    destruct (match_ (addrs b) (Owners out) (MinIssuanceTime options)) as [sigs [|]];
      reflexivity.
  - rewrite bool_decide_eq_false_2 by exact Ha. reflexivity.
Qed.

Lemma eligible_cons u l :
  eligibleInputs b options (u :: l) =
  match pick u with
  | Some i => i :: eligibleInputs b options l
  | None => eligibleInputs b options l
  end.
Proof. reflexivity. Qed.

Lemma eligible_nonneg utxos :
  Forall wfUTXO utxos -> 0 <= totalIn (eligibleInputs b options utxos).
Proof.
  induction 1 as [|u l Hu Hl IH]; [reflexivity|].
  rewrite eligible_cons.
  destruct (pick u) as [i|] eqn:E; [|exact IH].
  apply importable_Some in E. destruct E as [_ E].
  unfold wfUTXO, is_uint64 in Hu. rewrite totalIn_cons. lia.
Qed.

Lemma sumIn_eligible utxos a :
  sumIn a (eligibleInputs b options utxos) =
  if decide (DJTXAssetID (backend b) = a) then totalIn (eligibleInputs b options utxos)
  else 0.
Proof.
  induction utxos as [|u l IH].
  - destruct (decide _); reflexivity.
  - rewrite eligible_cons.
    destruct (pick u) as [i|] eqn:E; [|exact IH].
    apply importable_Some in E. destruct E as [E _].
    rewrite sumIn_cons, totalIn_cons, IH, E.
    destruct (decide (DJTXAssetID (backend b) = a)); lia.
Qed.

(** The loop of [NewImportTx] collects the eligible inputs and their exact
    sum, or reports the overflow of that sum. *)
Lemma importLoop utxos ins amt :
  Forall wfUTXO utxos -> 0 <= amt <= MaxUint64 ->
  forEach visit (ins, amt) utxos =
  if amt + totalIn (eligibleInputs b options utxos) <=? MaxUint64
  then Ok (ins ++ eligibleInputs b options utxos,
           amt + totalIn (eligibleInputs b options utxos))
  else Err errOverflow.
Proof.
  intros Hwf. revert ins amt.
  induction Hwf as [|u l Hu Hl IH]; intros ins amt Hamt.
  - simpl. unfold totalIn. simpl. rewrite app_nil_r, Z.add_0_r.
    destruct (amt <=? MaxUint64) eqn:E; [reflexivity|]. apply Z.leb_gt in E. lia.
  - pose proof (eligible_nonneg l Hl) as Hrest.
    cbn [forEach]. rewrite importVisit_pick, eligible_cons.
    destruct (pick u) as [i|] eqn:E; cbn [bind].
    + apply importable_Some in E. destruct E as [_ E].
      unfold wfUTXO, is_uint64 in Hu. rewrite totalIn_cons.
      destruct (Add64 amt (InAmount (inIn i))) as [n|e] eqn:Hadd; cbn [bind].
      * apply Add64_Ok in Hadd. destruct Hadd as [Hle ->].
        rewrite IH by lia. rewrite <- app_assoc, Z.add_assoc. reflexivity.
      * apply Add64_Err in Hadd. destruct Hadd as [Hgt ->].
        destruct (_ <=? MaxUint64) eqn:E2; [apply Z.leb_le in E2; lia | reflexivity].
    + apply IH. exact Hamt.
Qed.
End import.

Lemma sort_inputs_nil l : SortTransferableInputs l = [] <-> l = [].
Proof.
  pose proof (merge_sort_Permutation inputLe l) as HP. unfold SortTransferableInputs.
  split; intros H.
  - rewrite H in HP. symmetry in HP. apply Permutation_nil_r in HP. exact HP.
  - subst l. apply Permutation_nil_r. symmetry. exact HP.
Qed.

(** [NewImportTx], once the loop over the source chain's UTXOs has run. *)
Lemma NewImportTx_after_loop rt b sourceChainID to options utxos :
  UTXOs (backend b) sourceChainID = Ok utxos -> Forall wfUTXO utxos ->
  totalIn (eligibleInputs b options utxos) <= MaxUint64 ->
  eligibleInputs b options utxos <> [] ->
  NewImportTx rt b sourceChainID to options =
  let importedInputs := SortTransferableInputs (eligibleInputs b options utxos) in
  let importedAmount := totalIn (eligibleInputs b options utxos) in
  let txFee := BaseTxFee (backend b) in
  do '(inputs, outputs) <-
    (if importedAmount <? txFee then
       match spend rt b {[ DJTXAssetID (backend b) := wrap64 (txFee - importedAmount) ]}
               ∅ options with
       | Ok (inputs, outputs, _) => Ok (inputs, outputs)
       | Err e => Err (errGenerate e)
       end
     else if txFee <? importedAmount then
       match Peek (addrs b) with
       | None => Err errNoChangeAddress
       | Some addr =>
           Ok ([], [plainOutput (DJTXAssetID (backend b))
                      (wrap64 (importedAmount - txFee))
                      (ChangeOwner options (defaultChangeOwner addr))])
       end
     else Ok ([], []));
  Ok (UnsignedImportTx (baseTx b options inputs outputs) sourceChainID importedInputs).
Proof.
  intros HU Hwf Hsum Hne. unfold NewImportTx. rewrite HU. cbn [bind].
  rewrite importLoop by (auto; unfold MaxUint64; lia).
  rewrite Z.add_0_l, app_nil_l.
  destruct (_ <=? MaxUint64) eqn:E; [|apply Z.leb_gt in E; lia].
  cbn [bind].
  rewrite bool_decide_eq_false_2; [reflexivity|].
  intros Hlen. apply Hne, sort_inputs_nil. apply nil_length_inv. exact Hlen.
Qed.

(** C7 (as amended). In [NewImportTx], with the eligible source-chain UTXOs
    (native asset, plain transfer output, matched) and [importedAmount] their
    sum: no eligible UTXO is an InsufficientFunds failure; a sum below the fee
    runs [spend] to burn exactly the shortfall; a sum above the fee runs no
    spend and, when [Peek] finds a controlled address, emits the one unlocked
    change output of the surplus to the resolved change owner, but fails with
    NoChangeAddress when the wallet controls no address, whatever the options
    say; a sum equal to the fee does neither. *)
Theorem import_fee_cases (rt : Runtime) (b : builder) (sourceChainID : ID)
    (to : OutputOwners) (options : Options) (utxos : list UTXO) :
  let eligible := eligibleInputs b options utxos in
  let importedAmount := totalIn eligible in
  let txFee := BaseTxFee (backend b) in
  let djtxAssetID := DJTXAssetID (backend b) in
  UTXOs (backend b) sourceChainID = Ok utxos ->
  Forall wfUTXO utxos -> is_uint64 txFee -> importedAmount <= MaxUint64 ->
  (eligible = [] ->
     NewImportTx rt b sourceChainID to options =
       Err (errInsufficientFunds nothingToImport)) /\
  (eligible <> [] -> importedAmount < txFee ->
     NewImportTx rt b sourceChainID to options =
       match spend rt b {[ djtxAssetID := txFee - importedAmount ]} ∅ options with
       | Ok (inputs, outputs, _) =>
           Ok (UnsignedImportTx (baseTx b options inputs outputs) sourceChainID
                 (SortTransferableInputs eligible))
       | Err e => Err (errGenerate e)
       end) /\
  (eligible <> [] -> txFee < importedAmount ->
     NewImportTx rt b sourceChainID to options =
       match Peek (addrs b) with
       | Some addr =>
           Ok (UnsignedImportTx
                 (baseTx b options []
                    [plainOutput djtxAssetID (importedAmount - txFee)
                       (ChangeOwner options (defaultChangeOwner addr))])
                 sourceChainID (SortTransferableInputs eligible))
       | None => Err errNoChangeAddress
       end) /\
  (eligible <> [] -> importedAmount = txFee ->
     NewImportTx rt b sourceChainID to options =
       Ok (UnsignedImportTx (baseTx b options [] []) sourceChainID
             (SortTransferableInputs eligible))).
Proof.
  intros eligible importedAmount txFee djtxAssetID HU Hwf Hfee Hsum.
  pose proof (eligible_nonneg b options utxos Hwf) as Hnn.
  fold eligible in Hnn. fold importedAmount in Hnn.
  split_and!.
  - intros Hnil. unfold NewImportTx. rewrite HU. cbn [bind].
    rewrite importLoop by (auto; unfold MaxUint64; lia).
    fold eligible. rewrite Hnil. reflexivity.
  - intros Hne Hlt.
    rewrite (NewImportTx_after_loop rt b sourceChainID to options utxos) by assumption.
    cbv zeta. fold eligible importedAmount txFee djtxAssetID.
    destruct (importedAmount <? txFee) eqn:E; [|apply Z.ltb_ge in E; lia].
    rewrite sub64_small by (auto; lia).
    destruct (spend rt b _ ∅ options) as [[[ins outs] stk]|e]; reflexivity.
  - intros Hne Hgt.
    rewrite (NewImportTx_after_loop rt b sourceChainID to options utxos) by assumption.
    cbv zeta. fold eligible importedAmount txFee djtxAssetID.
    destruct (importedAmount <? txFee) eqn:E; [apply Z.ltb_lt in E; lia|].
    destruct (txFee <? importedAmount) eqn:E2; [|apply Z.ltb_ge in E2; lia].
    rewrite sub64_small by (unfold is_uint64 in *; lia).
    destruct (Peek (addrs b)); reflexivity.
  - intros Hne Heq.
    rewrite (NewImportTx_after_loop rt b sourceChainID to options utxos) by assumption.
    cbv zeta. fold eligible importedAmount txFee djtxAssetID.
    destruct (importedAmount <? txFee) eqn:E; [apply Z.ltb_lt in E; lia|].
    destruct (txFee <? importedAmount) eqn:E2; [apply Z.ltb_lt in E2; lia|].
    reflexivity.
Qed.

Lemma import_fee_cases_witness :
  let utxos := [plainUTXO 2%N djtx 4 ownerA] in
  let eligible := eligibleInputs shortfallWallet noOptions utxos in
  UTXOs (backend shortfallWallet) chainX = Ok utxos /\
  Forall wfUTXO utxos /\
  is_uint64 (BaseTxFee (backend shortfallWallet)) /\
  totalIn eligible <= MaxUint64 /\
  (eligible <> [] -> totalIn eligible < BaseTxFee (backend shortfallWallet) ->
   NewImportTx canonicalRuntime shortfallWallet chainX ownerA noOptions =
     match spend canonicalRuntime shortfallWallet
             {[ DJTXAssetID (backend shortfallWallet) :=
                  BaseTxFee (backend shortfallWallet) - totalIn eligible ]} ∅ noOptions with
     | Ok (inputs, outputs, _) =>
         Ok (UnsignedImportTx (baseTx shortfallWallet noOptions inputs outputs) chainX
               (SortTransferableInputs eligible))
     | Err e => Err (errGenerate e)
     end).
Proof.
  intros utxos eligible.
  assert (H1 : UTXOs (backend shortfallWallet) chainX = Ok utxos) by reflexivity.
  assert (H2 : Forall wfUTXO utxos)
    by (apply Forall_singleton; unfold wfUTXO, is_uint64, MaxUint64; simpl; lia).
  assert (H3 : is_uint64 (BaseTxFee (backend shortfallWallet)))
    by (unfold is_uint64, MaxUint64; simpl; lia).
  assert (H4 : totalIn eligible <= MaxUint64) by (vm_compute; discriminate).
  split_and!; [exact H1 | exact H2 | exact H3 | exact H4 |].
  exact (proj1 (proj2 (import_fee_cases canonicalRuntime shortfallWallet chainX ownerA
                         noOptions utxos H1 H2 H3 H4))).
Defined.

(** The four cases of [NewImportTx] after its loop, as the conservation
    argument uses them. *)
Lemma NewImportTx_cases (rt : Runtime) (b : builder) (sourceChainID : ID)
    (to : OutputOwners) (options : Options) (utxos : list UTXO) :
  let eligible := eligibleInputs b options utxos in
  let importedAmount := totalIn eligible in
  let txFee := BaseTxFee (backend b) in
  let djtxAssetID := DJTXAssetID (backend b) in
  UTXOs (backend b) sourceChainID = Ok utxos ->
  Forall wfUTXO utxos -> is_uint64 txFee -> importedAmount <= MaxUint64 ->
  (eligible = [] ->
     NewImportTx rt b sourceChainID to options =
       Err (errInsufficientFunds nothingToImport)) /\
  (eligible <> [] -> importedAmount < txFee ->
     NewImportTx rt b sourceChainID to options =
       match spend rt b {[ djtxAssetID := txFee - importedAmount ]} ∅ options with
       | Ok (inputs, outputs, _) =>
           Ok (UnsignedImportTx (baseTx b options inputs outputs) sourceChainID
                 (SortTransferableInputs eligible))
       | Err e => Err (errGenerate e)
       end) /\
  (eligible <> [] -> txFee < importedAmount ->
     NewImportTx rt b sourceChainID to options =
       match Peek (addrs b) with
       | Some addr =>
           Ok (UnsignedImportTx
                 (baseTx b options []
                    [plainOutput djtxAssetID (importedAmount - txFee)
                       (ChangeOwner options (defaultChangeOwner addr))])
                 sourceChainID (SortTransferableInputs eligible))
       | None => Err errNoChangeAddress
       end) /\
  (eligible <> [] -> importedAmount = txFee ->
     NewImportTx rt b sourceChainID to options =
       Ok (UnsignedImportTx (baseTx b options [] []) sourceChainID
             (SortTransferableInputs eligible))).
Proof.
  intros eligible importedAmount txFee djtxAssetID HU Hwf Hfee Hsum.
  pose proof (eligible_nonneg b options utxos Hwf) as Hnn.
  fold eligible in Hnn. fold importedAmount in Hnn.
  split_and!.
  - intros Hnil. unfold NewImportTx. rewrite HU. cbn [bind].
    rewrite importLoop by (auto; unfold MaxUint64; lia).
    fold eligible. rewrite Hnil. reflexivity.
  - intros Hne Hlt.
    rewrite (NewImportTx_after_loop rt b sourceChainID to options utxos) by assumption.
    cbv zeta. fold eligible importedAmount txFee djtxAssetID.
    destruct (importedAmount <? txFee) eqn:E; [|apply Z.ltb_ge in E; lia].
    rewrite sub64_small by (auto; lia).
    destruct (spend rt b _ ∅ options) as [[[ins outs] stk]|e]; reflexivity.
  - intros Hne Hgt.
    rewrite (NewImportTx_after_loop rt b sourceChainID to options utxos) by assumption.
    cbv zeta. fold eligible importedAmount txFee djtxAssetID.
    destruct (importedAmount <? txFee) eqn:E; [apply Z.ltb_lt in E; lia|].
    destruct (txFee <? importedAmount) eqn:E2; [|apply Z.ltb_ge in E2; lia].
    rewrite sub64_small by (unfold is_uint64 in *; lia).
    destruct (Peek (addrs b)); reflexivity.
  - intros Hne Heq.
    rewrite (NewImportTx_after_loop rt b sourceChainID to options utxos) by assumption.
    cbv zeta. fold eligible importedAmount txFee djtxAssetID.
    destruct (importedAmount <? txFee) eqn:E; [apply Z.ltb_lt in E; lia|].
    destruct (txFee <? importedAmount) eqn:E2; [apply Z.ltb_lt in E2; lia|].
    reflexivity.
Qed.

(** The sum of the eligible amounts exceeding [uint64] is a build failure. *)
Lemma import_overflow rt b sourceChainID to options utxos :
  UTXOs (backend b) sourceChainID = Ok utxos -> Forall wfUTXO utxos ->
  MaxUint64 < totalIn (eligibleInputs b options utxos) ->
  NewImportTx rt b sourceChainID to options = Err errOverflow.
Proof.
  intros HU Hwf Hsum. unfold NewImportTx. rewrite HU. cbn [bind].
  rewrite importLoop by (auto; unfold MaxUint64; lia).
  rewrite Z.add_0_l.
  destruct (_ <=? MaxUint64) eqn:E; [apply Z.leb_le in E; lia | reflexivity].
Qed.

Lemma sumOut_cons a o l :
  sumOut a (o :: l) = (if decide (outAsset o = a) then Amount (outOut o) else 0) + sumOut a l.
Proof. reflexivity. Qed.

Lemma sumOut_nonneg a l : Forall wfOutput l -> 0 <= sumOut a l.
Proof.
  induction 1 as [|o l Ho Hl IH]; [reflexivity|].
  rewrite sumOut_cons. unfold wfOutput, is_uint64 in Ho. destruct (decide _); lia.
Qed.

(** The loop of [NewExportTx] adds, per asset, the exported amounts to the
    map, exactly. *)
Lemma exportLoop_Ok outputs toBurn0 toBurn :
  Forall wfOutput outputs -> wfAmounts toBurn0 ->
  forEach exportVisit toBurn0 outputs = Ok toBurn ->
  wfAmounts toBurn /\
  forall assetID, get toBurn assetID = get toBurn0 assetID + sumOut assetID outputs.
Proof.
  intros Hwf. revert toBurn0.
  induction Hwf as [|o l Ho Hl IH]; intros m0 Hm0; cbn [forEach].
  - intros [= <-]. split; [exact Hm0|]. intros a. rewrite sumOut_nil. lia.
  - unfold exportVisit at 1.
    destruct (Add64 (get m0 (outAsset o)) (Amount (outOut o))) as [n|e] eqn:Hadd;
      cbn [bind]; [|discriminate].
    apply Add64_Ok in Hadd. destruct Hadd as [Hle ->].
    pose proof (get_uint64 m0 (outAsset o) Hm0) as Hg.
    unfold wfOutput in Ho.
    intros Hrun. apply IH in Hrun.
    + destruct Hrun as [Hw Hsum]. split; [exact Hw|].
      intros a. rewrite Hsum, get_insert, sumOut_cons.
      destruct (decide (outAsset o = a)) as [<-|]; lia.
    + apply wfAmounts_insert; [exact Hm0|]. unfold is_uint64 in *. lia.
Qed.

Lemma exportLoop_Err outputs toBurn0 e :
  forEach exportVisit toBurn0 outputs = Err e -> e = errOverflow.
Proof.
  revert toBurn0. induction outputs as [|o l IH]; intros m0; cbn [forEach]; [discriminate|].
  unfold exportVisit at 1.
  destruct (Add64 (get m0 (outAsset o)) (Amount (outOut o))) as [n|e'] eqn:Hadd; cbn [bind].
  - apply IH.
  - apply Add64_Err in Hadd. destruct Hadd as [_ ->]. intros [= <-]. reflexivity.
Qed.

(** A burn requirement that does not fit [uint64] is a build failure. *)
Lemma export_overflow rt b chainID outputs options assetID :
  is_uint64 (BaseTxFee (backend b)) -> Forall wfOutput outputs ->
  MaxUint64 <
    get {[ DJTXAssetID (backend b) := BaseTxFee (backend b) ]} assetID +
    sumOut assetID outputs ->
  NewExportTx rt b chainID outputs options = Err errOverflow.
Proof.
  intros Hfee Hwf Hov. unfold NewExportTx.
  destruct (forEach exportVisit _ outputs) as [m|e] eqn:Hloop; cbn [bind].
  - apply exportLoop_Ok in Hloop; auto using wfAmounts_singleton.
    destruct Hloop as [Hw Hsum].
    pose proof (get_uint64 m assetID Hw) as Hg. rewrite Hsum in Hg.
    unfold is_uint64 in Hg. lia.
  - apply exportLoop_Err in Hloop. subst e. reflexivity.
Qed.

(** ** Conservation, assembler by assembler *)

Section conservation.
Variables (rt : Runtime) (b : builder) (options : Options).
Hypothesis Hbackend : wfBackend (backend b).

Lemma spend_conserves_wf toBurn toStake ins change stake :
  wfAmounts toBurn -> wfAmounts toStake ->
  spend rt b toBurn toStake options = Ok (ins, change, stake) ->
  forall assetID,
    sumIn assetID ins =
      sumOut assetID change + sumOut assetID stake + get toBurn assetID /\
    sumOut assetID stake = get toStake assetID.
Proof.
  intros Hb Hs Hsp.
  destruct (UTXOs (backend b) PlatformChainID) as [utxos|e] eqn:HU.
  - eapply spend_conserves; eauto. destruct Hbackend as (_ & _ & H). eauto.
  - unfold spend in Hsp. rewrite HU in Hsp. discriminate.
Qed.

Lemma txFeeOf_fee fee assetID :
  (if decide (assetID = DJTXAssetID (backend b)) then fee else 0) =
  get {[ DJTXAssetID (backend b) := fee ]} assetID.
Proof.
  rewrite get_singleton.
  destruct (decide (assetID = DJTXAssetID (backend b))),
           (decide (DJTXAssetID (backend b) = assetID)); congruence.
Qed.

Lemma stake_conserved validator ins change stake :
  is_uint64 (Wght validator) ->
  spend rt b ∅ {[ DJTXAssetID (backend b) := Wght validator ]} options
    = Ok (ins, change, stake) ->
  forall assetID, sumIn assetID ins = sumOut assetID (change ++ stake) + 0.
Proof.
  intros Hw Hsp a.
  destruct (spend_conserves_wf _ _ _ _ _ wfAmounts_empty (wfAmounts_singleton _ _ Hw) Hsp a)
    as [H1 _].
  rewrite sumOut_app, H1, get_empty. lia.
Qed.

Lemma fee_conserved ins change stake :
  spend rt b {[ DJTXAssetID (backend b) := CreateSubnetTxFee (backend b) ]} ∅ options
    = Ok (ins, change, stake) ->
  forall assetID,
    sumIn assetID ins =
    sumOut assetID change +
    (if decide (assetID = DJTXAssetID (backend b)) then CreateSubnetTxFee (backend b)
     else 0).
Proof.
  intros Hsp a. destruct Hbackend as (_ & Hfee & _).
  destruct (spend_conserves_wf _ _ _ _ _ (wfAmounts_singleton _ _ Hfee) wfAmounts_empty Hsp a)
    as [H1 H2].
  rewrite txFeeOf_fee, H1, H2, get_empty. lia.
Qed.

Lemma NewAddValidatorTx_conserved validator rewardsOwner shares tx :
  is_uint64 (Wght validator) ->
  NewAddValidatorTx rt b validator rewardsOwner shares options = Ok tx ->
  conserved b tx.
Proof.
  intros Hw. unfold NewAddValidatorTx.
  destruct (spend rt b _ _ options) as [[[ins change] stake]|e] eqn:Hsp;
    cbn [bind]; [|discriminate].
  intros [= <-] a. unfold txFeeOf. cbn [txInputs txOutputs txBase from_option baseTx Ins Outs].
  rewrite (stake_conserved _ _ _ _ Hw Hsp a). destruct (decide _); reflexivity.
Qed.

Lemma NewAddDelegatorTx_conserved validator rewardsOwner tx :
  is_uint64 (Wght validator) ->
  NewAddDelegatorTx rt b validator rewardsOwner options = Ok tx ->
  conserved b tx.
Proof.
  intros Hw. unfold NewAddDelegatorTx.
  destruct (spend rt b _ _ options) as [[[ins change] stake]|e] eqn:Hsp;
    cbn [bind]; [|discriminate].
  intros [= <-] a. unfold txFeeOf. cbn [txInputs txOutputs txBase from_option baseTx Ins Outs].
  rewrite (stake_conserved _ _ _ _ Hw Hsp a). destruct (decide _); reflexivity.
Qed.

Lemma NewAddSubnetValidatorTx_conserved validator tx :
  NewAddSubnetValidatorTx rt b validator options = Ok tx -> conserved b tx.
Proof.
  unfold NewAddSubnetValidatorTx.
  destruct (spend rt b _ _ options) as [[[ins change] stake]|e] eqn:Hsp;
    cbn [bind]; [|discriminate].
  destruct (authorizeSubnet b (Subnet validator) options) as [auth|e]; cbn [bind];
    [|discriminate].
  intros [= <-] a. unfold txFeeOf. cbn [txInputs txOutputs txBase from_option baseTx Ins Outs].
  apply (fee_conserved _ _ _ Hsp).
Qed.

Lemma NewCreateChainTx_conserved subnetID genesis vmID fxIDs chainName tx :
  NewCreateChainTx rt b subnetID genesis vmID fxIDs chainName options = Ok tx ->
  conserved b tx.
Proof.
  unfold NewCreateChainTx.
  destruct (spend rt b _ _ options) as [[[ins change] stake]|e] eqn:Hsp;
    cbn [bind]; [|discriminate].
  destruct (authorizeSubnet b subnetID options) as [auth|e]; cbn [bind]; [|discriminate].
  intros [= <-] a. unfold txFeeOf. cbn [txInputs txOutputs txBase from_option baseTx Ins Outs].
  apply (fee_conserved _ _ _ Hsp).
Qed.

Lemma NewCreateSubnetTx_conserved owner tx :
  NewCreateSubnetTx rt b owner options = Ok tx -> conserved b tx.
Proof.
  unfold NewCreateSubnetTx.
  destruct (spend rt b _ _ options) as [[[ins change] stake]|e] eqn:Hsp;
    cbn [bind]; [|discriminate].
  intros [= <-] a. unfold txFeeOf. cbn [txInputs txOutputs txBase from_option baseTx Ins Outs].
  apply (fee_conserved _ _ _ Hsp).
Qed.

Lemma NewExportTx_conserved chainID outputs tx :
  Forall wfOutput outputs ->
  NewExportTx rt b chainID outputs options = Ok tx -> conserved b tx.
Proof.
  intros Hwf. unfold NewExportTx. destruct Hbackend as (Hfee & _ & _).
  destruct (forEach exportVisit _ outputs) as [m|e] eqn:Hloop; cbn [bind]; [|discriminate].
  apply exportLoop_Ok in Hloop; auto using wfAmounts_singleton.
  destruct Hloop as [Hw Hsum].
  destruct (spend rt b m ∅ options) as [[[ins change] stake]|e] eqn:Hsp;
    cbn [bind]; [|discriminate].
  intros [= <-] a. unfold txFeeOf. cbn [txInputs txOutputs txBase from_option baseTx Ins Outs].
  destruct (spend_conserves_wf _ _ _ _ _ Hw wfAmounts_empty Hsp a) as [H1 H2].
  rewrite txFeeOf_fee, sumOut_app, sumOut_sort, H1, H2, Hsum, get_empty.
  lia.
Qed.

Lemma NewImportTx_conserved sourceChainID to tx :
  NewImportTx rt b sourceChainID to options = Ok tx -> conserved b tx.
Proof.
  intros Hrun. destruct Hbackend as (Hfee & _ & HwfU).
  destruct (UTXOs (backend b) sourceChainID) as [utxos|e] eqn:HU;
    [|unfold NewImportTx in Hrun; rewrite HU in Hrun; discriminate].
  specialize (HwfU _ _ HU).
  pose proof (eligible_nonneg b options utxos HwfU) as Hnn.
  destruct (Z_lt_le_dec MaxUint64 (totalIn (eligibleInputs b options utxos))) as [Hov|Hle].
  { rewrite (import_overflow rt b sourceChainID to options utxos) in Hrun by assumption.
    discriminate. }
  destruct (NewImportTx_cases rt b sourceChainID to options utxos HU HwfU Hfee Hle)
    as (Hnil & Hlt & Hgt & Heq).
  destruct (decide (eligibleInputs b options utxos = [])) as [Hn|Hn];
    [rewrite (Hnil Hn) in Hrun; discriminate|].
  assert (Hel : forall a,
             sumIn a (SortTransferableInputs (eligibleInputs b options utxos)) =
             get {[ DJTXAssetID (backend b) := totalIn (eligibleInputs b options utxos) ]} a).
  { intros a. rewrite sumIn_sort, sumIn_eligible, get_singleton. reflexivity. }
  set (imported := totalIn (eligibleInputs b options utxos)) in *.
  set (fee := BaseTxFee (backend b)) in *.
  destruct (Z.lt_trichotomy imported fee) as [Hc | [Hc | Hc]].
  - rewrite (Hlt Hn Hc) in Hrun.
    destruct (spend rt b _ ∅ options) as [[[ins outs] stk]|e] eqn:Hsp; [|discriminate].
    injection Hrun as <-. intros a.
    assert (Hw : is_uint64 (fee - imported)) by (unfold is_uint64 in *; lia).
    destruct (spend_conserves_wf _ _ _ _ _ (wfAmounts_singleton _ _ Hw) wfAmounts_empty Hsp a)
      as [H1 H2].
    unfold txFeeOf. cbn [txInputs txOutputs txBase from_option baseTx Ins Outs].
    fold fee. rewrite txFeeOf_fee, sumIn_app, Hel, H1, H2, get_empty, !get_singleton.
    destruct (decide (DJTXAssetID (backend b) = a)); lia.
  - rewrite (Heq Hn Hc) in Hrun. injection Hrun as <-. intros a.
    unfold txFeeOf. cbn [txInputs txOutputs txBase from_option baseTx Ins Outs].
    fold fee. rewrite txFeeOf_fee, sumIn_app, Hel, !get_singleton.
    unfold sumIn, sumOut. simpl.
    destruct (decide (DJTXAssetID (backend b) = a)); lia.
  - rewrite (Hgt Hn Hc) in Hrun.
    destruct (Peek (addrs b)) as [addr|]; [|discriminate].
    injection Hrun as <-. intros a.
    unfold txFeeOf. cbn [txInputs txOutputs txBase from_option baseTx Ins Outs].
    fold fee. rewrite txFeeOf_fee, sumIn_app, Hel, sumOut_plainOutput, !get_singleton.
    unfold sumIn. simpl.
    destruct (decide (DJTXAssetID (backend b) = a)); lia.
Qed.
End conservation.

(** C1. Every transaction the builder returns, of any of the seven kinds,
    conserves every asset: the amounts of its inputs (imported inputs
    included) are, exactly, the amounts of its outputs (change, stake and
    exported outputs included) plus the fee it burns; and a sum of imported
    amounts, or an export burn requirement, that does not fit [uint64] makes
    the build fail with the overflow error.  For [spend] itself: what it
    consumes of an asset is its change, its stake outputs and the burn asked
    for, and its stake outputs hold the stake asked for. *)
Theorem build_conserves (rt : Runtime) (b : builder) (req : request) (options : Options) :
  wfBackend (backend b) -> wfRequest req ->
  (forall tx, build rt b req options = Ok tx -> conserved b tx) /\
  (forall sourceChainID to utxos,
     req = Import sourceChainID to ->
     UTXOs (backend b) sourceChainID = Ok utxos ->
     MaxUint64 < totalIn (eligibleInputs b options utxos) ->
     build rt b req options = Err errOverflow) /\
  (forall chainID outputs assetID,
     req = Export chainID outputs ->
     MaxUint64 <
       get {[ DJTXAssetID (backend b) := BaseTxFee (backend b) ]} assetID +
       sumOut assetID outputs ->
     build rt b req options = Err errOverflow) /\
  (forall toBurn toStake ins change stake,
     wfAmounts toBurn -> wfAmounts toStake ->
     spend rt b toBurn toStake options = Ok (ins, change, stake) ->
     forall assetID,
       sumIn assetID ins =
         sumOut assetID change + sumOut assetID stake + get toBurn assetID /\
       sumOut assetID stake = get toStake assetID).
Proof.
  intros Hb Hreq. split_and!; [| | |intros; eapply spend_conserves_wf; eauto].
  - intros tx. destruct req; simpl in *.
    + apply NewAddValidatorTx_conserved; assumption.
    + apply NewAddSubnetValidatorTx_conserved; assumption.
    + apply NewAddDelegatorTx_conserved; assumption.
    + apply NewCreateChainTx_conserved; assumption.
    + apply NewCreateSubnetTx_conserved; assumption.
    + apply NewImportTx_conserved; assumption.
    + apply NewExportTx_conserved; assumption.
  - intros src to utxos -> HU Hov. simpl.
    destruct Hb as (_ & _ & HwfU). eapply import_overflow; eauto.
  - intros chainID outputs a -> Hov. simpl in *.
    destruct Hb as (Hfee & _ & _). eapply export_overflow; eauto.
Qed.

(** ** Independence from the runtime's map order *)

Lemma sameOutcome_refl {A} (r : result A) : sameOutcome r r.
Proof. destruct r; reflexivity. Qed.

Lemma sameOutcome_bind {A B} (r1 r2 : result A) (k : A -> result B) :
  sameOutcome r1 r2 -> sameOutcome (bind r1 k) (bind r2 k).
Proof.
  destruct r1 as [a1|e1], r2 as [a2|e2]; simpl; try contradiction.
  - intros ->. apply sameOutcome_refl.
  - auto.
Qed.

Lemma checkExhausted_sameOutcome rt1 rt2 st :
  sameOutcome (checkExhausted rt1 st) (checkExhausted rt2 st).
Proof.
  unfold checkExhausted.
  destruct (firstNonzero (rangeMap rt1 (amountsToStake st))) as [[k1 v1]|] eqn:E1;
  destruct (firstNonzero (rangeMap rt2 (amountsToStake st))) as [[k2 v2]|] eqn:E2.
  - reflexivity.
  - apply rangeMap_nonzero in E1. destruct E1 as (_ & E1 & Hv).
    rewrite rangeMap_all_zero in E2. rewrite E2 in E1. congruence.
  - apply rangeMap_nonzero in E2. destruct E2 as (_ & E2 & Hv).
    rewrite rangeMap_all_zero in E1. rewrite E1 in E2. congruence.
  - clear E1 E2.
    destruct (firstNonzero (rangeMap rt1 (amountsToBurn st))) as [[k1 v1]|] eqn:E1;
    destruct (firstNonzero (rangeMap rt2 (amountsToBurn st))) as [[k2 v2]|] eqn:E2.
    + reflexivity.
    + apply rangeMap_nonzero in E1. destruct E1 as (_ & E1 & Hv).
      rewrite rangeMap_all_zero in E2. rewrite E2 in E1. congruence.
    + apply rangeMap_nonzero in E2. destruct E2 as (_ & E2 & Hv).
      rewrite rangeMap_all_zero in E1. rewrite E1 in E2. congruence.
    + reflexivity.
Qed.

Lemma spend_sameOutcome rt1 rt2 b toBurn toStake options :
  sameOutcome (spend rt1 b toBurn toStake options) (spend rt2 b toBurn toStake options).
Proof.
  unfold spend.
  destruct (UTXOs (backend b) PlatformChainID) as [utxos|e]; cbn [bind]; [|reflexivity].
  destruct (Peek (addrs b)) as [addr|]; [|reflexivity].
  destruct (spendPasses _ _ _ utxos toBurn toStake) as [st|e]; cbn [bind]; [|reflexivity].
  apply sameOutcome_bind, checkExhausted_sameOutcome.
Qed.

(** A successful [spend] does not depend on the order of the closing check. *)
Lemma spend_Ok_any_runtime rt1 rt2 b toBurn toStake options r :
  spend rt1 b toBurn toStake options = Ok r -> spend rt2 b toBurn toStake options = Ok r.
Proof.
  intros H. pose proof (spend_sameOutcome rt1 rt2 b toBurn toStake options) as Hs.
  rewrite H in Hs. destruct (spend rt2 b toBurn toStake options); simpl in Hs;
    [subst; reflexivity | contradiction].
Qed.

Lemma build_sameOutcome rt1 rt2 b req options :
  sameOutcome (build rt1 b req options) (build rt2 b req options).
Proof.
  destruct req; simpl.
  - apply sameOutcome_bind, spend_sameOutcome.
  - apply sameOutcome_bind, spend_sameOutcome.
  - apply sameOutcome_bind, spend_sameOutcome.
  - apply sameOutcome_bind, spend_sameOutcome.
  - apply sameOutcome_bind, spend_sameOutcome.
  - unfold NewImportTx.
    destruct (UTXOs (backend b) sourceChainID) as [utxos|e]; cbn [bind]; [|reflexivity].
    destruct (forEach _ _ utxos) as [[importedInputs importedAmount]|e]; cbn [bind];
      [|reflexivity].
    destruct (bool_decide _); [reflexivity|].
    apply sameOutcome_bind.
    destruct (importedAmount <? BaseTxFee (backend b)); [|apply sameOutcome_refl].
    pose proof (spend_sameOutcome rt1 rt2 b
                  {[ DJTXAssetID (backend b) :=
                       wrap64 (BaseTxFee (backend b) - importedAmount) ]} ∅ options) as Hs.
    destruct (spend rt1 b _ ∅ options) as [[[i1 o1] s1]|e1],
             (spend rt2 b _ ∅ options) as [[[i2 o2] s2]|e2]; simpl in *;
      try contradiction.
    + injection Hs as -> -> ->. reflexivity.
    + rewrite Hs. reflexivity.
  - unfold NewExportTx.
    destruct (forEach exportVisit _ outputs) as [m|e]; cbn [bind]; [|reflexivity].
    apply sameOutcome_bind, spend_sameOutcome.
Qed.

(** ** Two runs *)

Lemma build_same_responses rt b1 b2 req options :
  addrs b1 = addrs b2 -> sameResponses (backend b1) (backend b2) ->
  build rt b1 req options = build rt b2 req options.
Proof.
  destruct b1 as [a1 [n1 d1 f1 c1 U1 G1]], b2 as [a2 [n2 d2 f2 c2 U2 G2]].
  unfold sameResponses. simpl. intros -> (-> & -> & -> & -> & HU & HG).
  destruct req; simpl;
    unfold NewAddValidatorTx, NewAddSubnetValidatorTx, NewAddDelegatorTx,
      NewCreateChainTx, NewCreateSubnetTx, NewImportTx, NewExportTx,
      spend, authorizeSubnet, baseTx; simpl;
    rewrite ?HU, ?HG; reflexivity.
Qed.

(** Inputs come out in the order of their UTXO ids, outputs in the order of
    their serialized fields. *)
Global Instance inputLe_total : Total inputLe.
Proof.
  intros x y. unfold inputLe, utxoIDLe.
  destruct (N.lt_total (TxID (inUTXOID x)) (TxID (inUTXOID y))) as [?|[?|?]]; try tauto.
  destruct (Z.le_ge_cases (OutputIndex (inUTXOID x)) (OutputIndex (inUTXOID y)));
    [left | right]; right; split; auto; lia.
Qed.

Lemma lexLeb_total l1 l2 : lexLeb l1 l2 = true \/ lexLeb l2 l1 = true.
Proof.
  revert l2. induction l1 as [|x l1 IH]; intros [|y l2]; simpl; auto.
  destruct (IH l2) as [H|H]; rewrite H;
    destruct (x <? y) eqn:E1, (y <? x) eqn:E2, (x =? y) eqn:E3, (y =? x) eqn:E4;
    simpl; auto; lia.
Qed.

Global Instance outputLe_total : Total outputLe.
Proof. intros x y. apply lexLeb_total. Qed.

Global Instance utxoIDLe_trans : Transitive utxoIDLe.
Proof. intros x y z. unfold utxoIDLe. lia. Qed.

Global Instance utxoIDLe_antisym : AntiSymm (=) utxoIDLe.
Proof.
  intros [t1 i1] [t2 i2]. unfold utxoIDLe. simpl.
  intros H1 H2. f_equal; lia.
Qed.

Global Instance lexLe_trans : Transitive lexLe.
Proof.
  unfold lexLe. intros l1. induction l1 as [|x l1 IH]; intros [|y l2] [|z l3]; simpl;
    try congruence.
  rewrite !orb_true_iff, !andb_true_iff, !Z.ltb_lt, !Z.eqb_eq.
  intros [H1 | [-> H1]] [H2 | [-> H2]]; try (left; lia); auto.
  right. split; [reflexivity|]. eapply IH; eauto.
Qed.

Global Instance lexLe_antisym : AntiSymm (=) lexLe.
Proof.
  unfold lexLe. intros l1. induction l1 as [|x l1 IH]; intros [|y l2]; simpl;
    try congruence.
  rewrite !orb_true_iff, !andb_true_iff, !Z.ltb_lt, !Z.eqb_eq.
  intros [H1 | [-> H1]] [H2 | [? H2]]; try lia.
  f_equal. apply IH; assumption.
Qed.

(** The canonical order leaves no choice: two sorted listings of the same
    outputs have the same serialized fields, in the same order, and two sorted
    listings of the same inputs name the same UTXOs in the same order,
    whatever sorting algorithm made them. *)
Lemma canonical_outputs_unique (l l' : list TransferableOutput) :
  l ≡ₚ l' -> Sorted outputLe l -> Sorted outputLe l' ->
  marshalOutput <$> l = marshalOutput <$> l'.
Proof.
  intros HP H1 H2. apply (Sorted_unique lexLe).
  - apply (Sorted_fmap marshalOutput outputLe lexLe); auto.
  - apply (Sorted_fmap marshalOutput outputLe lexLe); auto.
  - rewrite HP. reflexivity.
Qed.

Lemma canonical_inputs_unique (l l' : list TransferableInput) :
  l ≡ₚ l' -> Sorted inputLe l -> Sorted inputLe l' ->
  inUTXOID <$> l = inUTXOID <$> l'.
Proof.
  intros HP H1 H2. apply (Sorted_unique utxoIDLe).
  - apply (Sorted_fmap inUTXOID inputLe utxoIDLe); auto.
  - apply (Sorted_fmap inUTXOID inputLe utxoIDLe); auto.
  - rewrite HP. reflexivity.
Qed.

Lemma spend_sorted rt b toBurn toStake options ins change stake :
  spend rt b toBurn toStake options = Ok (ins, change, stake) ->
  Sorted inputLe ins /\ Sorted outputLe change /\ Sorted outputLe stake.
Proof.
  unfold spend.
  destruct (UTXOs (backend b) PlatformChainID) as [utxos|e]; cbn [bind]; [|discriminate].
  destruct (Peek (addrs b)) as [addr|]; [|discriminate].
  destruct (spendPasses _ _ _ utxos toBurn toStake) as [st|e]; cbn [bind]; [|discriminate].
  destruct (checkExhausted rt st) as [[]|e]; cbn [bind]; [|discriminate].
  intros [= <- <- <-]. unfold SortTransferableInputs, SortTransferableOutputs.
  split_and!; apply Sorted_merge_sort; apply _.
Qed.

(** ** Two runs, exactly *)

Lemma spend_afterLoops rt b toBurn toStake options :
  spend rt b toBurn toStake options =
  do st <- afterLoops b toBurn toStake options;
  do _ <- checkExhausted rt st;
  Ok (SortTransferableInputs (inputs st),
      SortTransferableOutputs (changeOutputs st),
      SortTransferableOutputs (stakeOutputs st)).
Proof.
  unfold spend, afterLoops.
  destruct (UTXOs (backend b) PlatformChainID) as [utxos|e]; cbn [bind]; [|reflexivity].
  destruct (Peek (addrs b)) as [addr|]; reflexivity.
Qed.

Lemma namesUnmet_bind {A B} remaining detail (r1 r2 : result A) (k : A -> result B) :
  namesUnmet remaining detail r1 r2 -> namesUnmet remaining detail (bind r1 k) (bind r2 k).
Proof.
  intros (a1 & a2 & Hne & H1 & H2 & -> & ->). exists a1, a2. split_and!; auto.
Qed.

(** Under two orders the closing check gives the same result, unless each
    names one of two different unmet entries of the same map. *)
Lemma checkExhausted_two_runs rt1 rt2 st :
  checkExhausted rt1 st = checkExhausted rt2 st \/
  namesUnmet (amountsToStake st) needToStake (checkExhausted rt1 st) (checkExhausted rt2 st) \/
  (forall assetID, get (amountsToStake st) assetID = 0) /\
  namesUnmet (amountsToBurn st) needToBurn (checkExhausted rt1 st) (checkExhausted rt2 st).
Proof.
  unfold checkExhausted.
  destruct (firstNonzero (rangeMap rt1 (amountsToStake st))) as [[k1 v1]|] eqn:E1;
  destruct (firstNonzero (rangeMap rt2 (amountsToStake st))) as [[k2 v2]|] eqn:E2.
  - apply rangeMap_nonzero in E1, E2.
    destruct E1 as (_ & E1 & Hv1), E2 as (_ & E2 & Hv2).
    destruct (decide (k1 = k2)) as [->|Hne]; [left; congruence|].
    right. left. exists k1, k2. rewrite E1, E2. auto.
  - apply rangeMap_nonzero in E1. destruct E1 as (_ & E1 & Hv).
    rewrite rangeMap_all_zero in E2. rewrite E2 in E1. congruence.
  - apply rangeMap_nonzero in E2. destruct E2 as (_ & E2 & Hv).
    rewrite rangeMap_all_zero in E1. rewrite E1 in E2. congruence.
  - rewrite rangeMap_all_zero in E1. clear E2.
    destruct (firstNonzero (rangeMap rt1 (amountsToBurn st))) as [[k1 v1]|] eqn:F1;
    destruct (firstNonzero (rangeMap rt2 (amountsToBurn st))) as [[k2 v2]|] eqn:F2.
    + apply rangeMap_nonzero in F1, F2.
      destruct F1 as (_ & F1 & Hv1), F2 as (_ & F2 & Hv2).
      destruct (decide (k1 = k2)) as [->|Hne]; [left; congruence|].
      right. right. split; [exact E1|]. exists k1, k2. rewrite F1, F2. auto.
    + apply rangeMap_nonzero in F1. destruct F1 as (_ & F1 & Hv).
      rewrite rangeMap_all_zero in F2. rewrite F2 in F1. congruence.
    + apply rangeMap_nonzero in F2. destruct F2 as (_ & F2 & Hv).
      rewrite rangeMap_all_zero in F1. rewrite F1 in F2. congruence.
    + left. reflexivity.
Qed.

Lemma spend_two_runs rt1 rt2 b toBurn toStake options :
  spend rt1 b toBurn toStake options = spend rt2 b toBurn toStake options \/
  exists st,
    afterLoops b toBurn toStake options = Ok st /\
    (namesUnmet (amountsToStake st) needToStake
       (spend rt1 b toBurn toStake options) (spend rt2 b toBurn toStake options) \/
     (forall assetID, get (amountsToStake st) assetID = 0) /\
     namesUnmet (amountsToBurn st) needToBurn
       (spend rt1 b toBurn toStake options) (spend rt2 b toBurn toStake options)).
Proof.
  rewrite !spend_afterLoops.
  destruct (afterLoops b toBurn toStake options) as [st|e]; cbn [bind]; [|left; reflexivity].
  destruct (checkExhausted_two_runs rt1 rt2 st) as [H | [H | [Hz H]]].
  - left. rewrite H. reflexivity.
  - right. exists st. split; [reflexivity|]. left. apply namesUnmet_bind, H.
  - right. exists st. split; [reflexivity|]. right. split; [exact Hz|].
    apply namesUnmet_bind, H.
Qed.

(** Neither loop writes a nonzero amount for an asset of which nothing is
    left to burn and nothing to stake. *)
Lemma lockedVisit_untouched addrs mit st u st' a :
  lockedVisit addrs mit st u = Ok st' ->
  get (amountsToBurn st) a = 0 /\ get (amountsToStake st) a = 0 ->
  get (amountsToBurn st') a = 0 /\ get (amountsToStake st') a = 0.
Proof.
  intros Hv [HB HS].
  destruct (lockedVisit_Ok _ _ _ _ _ Hv)
    as [-> | (lt & out & sigs & _ & _ & _ & Hneed & HB' & HS' & _)]; [auto|].
  rewrite HB', HS', get_subAt.
  destruct (decide (utxoAsset u = a)) as [E|E]; [subst a; contradiction | auto].
Qed.

Lemma unlockedVisit_untouched addrs mit changeOwner st u st' a :
  unlockedVisit addrs mit changeOwner st u = Ok st' ->
  get (amountsToBurn st) a = 0 /\ get (amountsToStake st) a = 0 ->
  get (amountsToBurn st') a = 0 /\ get (amountsToStake st') a = 0.
Proof.
  intros Hv [HB HS].
  destruct (unlockedVisit_Ok _ _ _ _ _ _ Hv)
    as [-> | (out & sigs & _ & _ & Hneed & HB' & HS' & _)]; [auto|].
  rewrite HB', HS', !get_subAt.
  destruct (decide (utxoAsset u = a)) as [E|E]; [subst a; tauto | auto].
Qed.

Lemma afterLoops_untouched b toBurn toStake options st a :
  afterLoops b toBurn toStake options = Ok st ->
  get toBurn a = 0 -> get toStake a = 0 ->
  get (amountsToBurn st) a = 0 /\ get (amountsToStake st) a = 0.
Proof.
  unfold afterLoops.
  destruct (UTXOs (backend b) PlatformChainID) as [utxos|e]; cbn [bind]; [|discriminate].
  destruct (Peek (addrs b)) as [addr|]; [|discriminate]. unfold spendPasses.
  destruct (forEach (lockedVisit _ _) _ utxos) as [st1|e] eqn:E1; cbn [bind]; [|discriminate].
  intros E2 HB HS.
  eapply (forEach_invariant
            (fun s => get (amountsToBurn s) a = 0 /\ get (amountsToStake s) a = 0));
    [| |exact E2].
  - intros s x s' _ HP Hv. eapply unlockedVisit_untouched; eauto.
  - eapply (forEach_invariant
              (fun s => get (amountsToBurn s) a = 0 /\ get (amountsToStake s) a = 0));
      [| |exact E1].
    + intros s x s' _ HP Hv. eapply lockedVisit_untouched; eauto.
    + simpl. auto.
Qed.

(** Nor does either loop write a nonzero amount to stake for an asset of
    which nothing is left to stake. *)
Lemma lockedVisit_stake_zero addrs mit st u st' a :
  lockedVisit addrs mit st u = Ok st' ->
  get (amountsToStake st) a = 0 -> get (amountsToStake st') a = 0.
Proof.
  intros Hv HS.
  destruct (lockedVisit_Ok _ _ _ _ _ Hv)
    as [-> | (lt & out & sigs & _ & _ & _ & Hneed & _ & HS' & _)]; [auto|].
  rewrite HS', get_subAt.
  destruct (decide (utxoAsset u = a)) as [E|E]; [subst a; contradiction | auto].
Qed.

Lemma unlockedVisit_stake_zero addrs mit changeOwner st u st' a :
  unlockedVisit addrs mit changeOwner st u = Ok st' ->
  get (amountsToStake st) a = 0 -> get (amountsToStake st') a = 0.
Proof.
  intros Hv HS.
  destruct (unlockedVisit_Ok _ _ _ _ _ _ Hv)
    as [-> | (out & sigs & _ & _ & _ & _ & HS' & _)]; [auto|].
  rewrite HS', get_subAt.
  destruct (decide (utxoAsset u = a)) as [E|E]; [subst a | auto].
  rewrite HS.
  match goal with |- context [Min64 0 ?w] => assert (Hw : Min64 0 w = 0) end.
  { match goal with |- Min64 0 (wrap64 ?y) = 0 =>
      pose proof (Z.mod_pos_bound y (2 ^ 64) ltac:(lia)) as Hb end.
    unfold Min64, wrap64 in *. destruct (0 <? _) eqn:E; [reflexivity|].
    apply Z.ltb_ge in E. lia. }
  rewrite Hw. reflexivity.
Qed.

Lemma afterLoops_stake_zero b toBurn toStake options st a :
  afterLoops b toBurn toStake options = Ok st ->
  get toStake a = 0 -> get (amountsToStake st) a = 0.
Proof.
  unfold afterLoops.
  destruct (UTXOs (backend b) PlatformChainID) as [utxos|e]; cbn [bind]; [|discriminate].
  destruct (Peek (addrs b)) as [addr|]; [|discriminate]. unfold spendPasses.
  destruct (forEach (lockedVisit _ _) _ utxos) as [st1|e] eqn:E1; cbn [bind]; [|discriminate].
  intros E2 HS.
  eapply (forEach_invariant (fun s => get (amountsToStake s) a = 0)); [| |exact E2].
  - intros s x s' _ HP Hv. eapply unlockedVisit_stake_zero; eauto.
  - eapply (forEach_invariant (fun s => get (amountsToStake s) a = 0)); [| |exact E1].
    + intros s x s' _ HP Hv. eapply lockedVisit_stake_zero; eauto.
    + simpl. auto.
Qed.

(** A [spend] that is asked for one asset only does not depend on the order
    of the closing check at all. *)
Lemma spend_one_asset rt1 rt2 b toBurn toStake options k :
  (forall a, a <> k -> get toBurn a = 0 /\ get toStake a = 0) ->
  spend rt1 b toBurn toStake options = spend rt2 b toBurn toStake options.
Proof.
  intros Hone.
  destruct (spend_two_runs rt1 rt2 b toBurn toStake options) as [H | (st & Hst & Hcase)];
    [exact H|].
  exfalso.
  assert (Hz : forall a, a <> k ->
                 get (amountsToBurn st) a = 0 /\ get (amountsToStake st) a = 0).
  { intros a Ha. destruct (Hone a Ha). eapply afterLoops_untouched; eauto. }
  destruct Hcase as [(a1 & a2 & Hne & N1 & N2 & _) | (_ & a1 & a2 & Hne & N1 & N2 & _)];
    (destruct (decide (a1 = k)) as [->|H1];
     [destruct (Hz a2) as [Z1 Z2]; [congruence | contradiction]
     |destruct (Hz a1 H1) as [Z1 Z2]; contradiction]).
Qed.

Lemma one_asset_burn k v a : a <> k -> get ({[ k := v ]} : gmap ID Z) a = 0 /\ get ∅ a = 0.
Proof.
  intros Ha. rewrite get_singleton, get_empty.
  destruct (decide (k = a)); [congruence | auto].
Qed.

Lemma one_asset_stake k v a : a <> k -> get ∅ a = 0 /\ get ({[ k := v ]} : gmap ID Z) a = 0.
Proof. intros Ha. destruct (one_asset_burn k v a Ha). auto. Qed.

(** The other assemblers ask [spend] for the native asset only; an export
    depends on the order only through two unmet entries of its burn map. *)
Lemma build_two_runs rt1 rt2 b req options :
  build rt1 b req options = build rt2 b req options \/
  exists chainID outputs toBurn st,
    req = Export chainID outputs /\
    forEach exportVisit {[ DJTXAssetID (backend b) := BaseTxFee (backend b) ]} outputs =
      Ok toBurn /\
    afterLoops b toBurn ∅ options = Ok st /\
    namesUnmet (amountsToBurn st) needToBurn
      (build rt1 b req options) (build rt2 b req options).
Proof.
  destruct req; cbn [build].
  - left. unfold NewAddValidatorTx. cbv zeta.
    rewrite (spend_one_asset rt1 rt2 b _ _ options (DJTXAssetID (backend b)));
      [reflexivity | apply one_asset_stake].
  - left. unfold NewAddSubnetValidatorTx. cbv zeta.
    rewrite (spend_one_asset rt1 rt2 b _ _ options (DJTXAssetID (backend b)));
      [reflexivity | apply one_asset_burn].
  - left. unfold NewAddDelegatorTx. cbv zeta.
    rewrite (spend_one_asset rt1 rt2 b _ _ options (DJTXAssetID (backend b)));
      [reflexivity | apply one_asset_stake].
  - left. unfold NewCreateChainTx. cbv zeta.
    rewrite (spend_one_asset rt1 rt2 b _ _ options (DJTXAssetID (backend b)));
      [reflexivity | apply one_asset_burn].
  - left. unfold NewCreateSubnetTx. cbv zeta.
    rewrite (spend_one_asset rt1 rt2 b _ _ options (DJTXAssetID (backend b)));
      [reflexivity | apply one_asset_burn].
  - left. unfold NewImportTx.
    destruct (UTXOs (backend b) sourceChainID) as [utxos|e]; cbn [bind]; [|reflexivity].
    destruct (forEach _ _ utxos) as [[importedInputs importedAmount]|e]; cbn [bind];
      [|reflexivity].
    destruct (bool_decide _); [reflexivity|].
    destruct (importedAmount <? BaseTxFee (backend b)); [|reflexivity].
    rewrite (spend_one_asset rt1 rt2 b _ _ options (DJTXAssetID (backend b)));
      [reflexivity | apply one_asset_burn].
  - unfold NewExportTx. cbv zeta.
    destruct (forEach exportVisit _ outputs) as [m|e] eqn:Hloop; cbn [bind];
      [|left; reflexivity].
    destruct (spend_two_runs rt1 rt2 b m ∅ options) as [H | (st & Hst & [H | [_ H]])].
    + left. rewrite H. reflexivity.
    + exfalso. destruct H as (a1 & _ & _ & N1 & _). apply N1.
      eapply afterLoops_stake_zero; [exact Hst | apply get_empty].
    + right. exists chainID, outputs, m, st.
      split_and!; [reflexivity | exact Hloop | exact Hst |]. apply namesUnmet_bind, H.
Qed.

Lemma spend_same_responses rt b1 b2 toBurn toStake options :
  addrs b1 = addrs b2 -> sameResponses (backend b1) (backend b2) ->
  spend rt b1 toBurn toStake options = spend rt b2 toBurn toStake options.
Proof.
  destruct b1 as [a1 [n1 d1 f1 c1 U1 G1]], b2 as [a2 [n2 d2 f2 c2 U2 G2]].
  unfold sameResponses. simpl. intros -> (-> & -> & -> & -> & HU & HG).
  unfold spend. simpl. rewrite HU. reflexivity.
Qed.

(** C2 (as amended). Two invocations of the same builder operation, with the
    same controlled addresses, the same backend responses and the same
    options, whatever order the runtime ranges over the maps in each, return
    identical results (the same transaction, or the same error with the same
    asset and amount), with one exception: an export that leaves two or more
    assets unmet fails in both with InsufficientFunds, and each invocation
    names one of the unmet assets, with the exact amount left unmet of it.
    The same holds of [spend] for any request, where the two assets are both
    unmet in the stake map or, with nothing left to stake, both in the burn
    map.  The lists a successful [spend] returns are in canonical order, an
    order that leaves no choice: any sorted listing of the same inputs names
    the same UTXOs in the same order, any sorted listing of the same outputs
    has the same serialized fields. *)
Theorem build_deterministic (rt1 rt2 : Runtime) (b1 b2 : builder) (req : request)
    (options : Options) :
  addrs b1 = addrs b2 -> sameResponses (backend b1) (backend b2) ->
  (build rt1 b1 req options = build rt2 b2 req options \/
   exists chainID outputs toBurn st,
     req = Export chainID outputs /\
     forEach exportVisit {[ DJTXAssetID (backend b1) := BaseTxFee (backend b1) ]} outputs =
       Ok toBurn /\
     afterLoops b1 toBurn ∅ options = Ok st /\
     namesUnmet (amountsToBurn st) needToBurn
       (build rt1 b1 req options) (build rt2 b2 req options)) /\
  (forall toBurn toStake,
     spend rt1 b1 toBurn toStake options = spend rt2 b2 toBurn toStake options \/
     exists st,
       afterLoops b1 toBurn toStake options = Ok st /\
       (namesUnmet (amountsToStake st) needToStake
          (spend rt1 b1 toBurn toStake options) (spend rt2 b2 toBurn toStake options) \/
        (forall assetID, get (amountsToStake st) assetID = 0) /\
        namesUnmet (amountsToBurn st) needToBurn
          (spend rt1 b1 toBurn toStake options) (spend rt2 b2 toBurn toStake options))) /\
  (forall toBurn toStake ins change stake,
     spend rt1 b1 toBurn toStake options = Ok (ins, change, stake) ->
     spend rt2 b2 toBurn toStake options = Ok (ins, change, stake) /\
     Sorted inputLe ins /\ Sorted outputLe change /\ Sorted outputLe stake /\
     (forall ins', ins' ≡ₚ ins -> Sorted inputLe ins' ->
        inUTXOID <$> ins' = inUTXOID <$> ins) /\
     (forall change', change' ≡ₚ change -> Sorted outputLe change' ->
        marshalOutput <$> change' = marshalOutput <$> change) /\
     (forall stake', stake' ≡ₚ stake -> Sorted outputLe stake' ->
        marshalOutput <$> stake' = marshalOutput <$> stake)).
Proof.
  intros Ha Hr. split_and!.
  - rewrite <- (build_same_responses rt2 b1 b2 req options Ha Hr). apply build_two_runs.
  - intros toBurn toStake.
    rewrite <- (spend_same_responses rt2 b1 b2 toBurn toStake options Ha Hr).
    apply spend_two_runs.
  - intros toBurn toStake ins change stake Hsp.
    destruct (spend_sorted _ _ _ _ _ _ _ _ Hsp) as (Hi & Hc & Hs).
    split; [|split_and!; auto;
             intros l' HP Hl';
             [apply canonical_inputs_unique | apply canonical_outputs_unique
             | apply canonical_outputs_unique]; auto].
    rewrite <- (spend_same_responses rt2 b1 b2 toBurn toStake options Ha Hr).
    apply (spend_Ok_any_runtime rt1 rt2). exact Hsp.
Qed.

(** ** Scenarios *)

Lemma wfBackend_backendOf local foreign :
  Forall wfUTXO local -> Forall wfUTXO foreign -> wfBackend (backendOf local foreign).
Proof.
  intros Hl Hf. split_and!.
  - unfold is_uint64, MaxUint64. simpl. lia.
  - unfold is_uint64, MaxUint64. simpl. lia.
  - intros chainID utxos. simpl. destruct (decide _); intros [= <-]; assumption.
Qed.

Lemma sameResponses_refl be : sameResponses be be.
Proof. unfold sameResponses. split_and!; reflexivity. Qed.

Lemma build_conserves_witness :
  wfBackend (backend shortfallWallet) /\ wfRequest (Import chainX ownerA) /\
  conserved shortfallWallet shortfallTx.
Proof.
  assert (Hb : wfBackend (backend shortfallWallet)).
  { apply wfBackend_backendOf; repeat constructor; vm_compute; intuition discriminate. }
  split_and!; [exact Hb | exact I |].
  apply (proj1 (build_conserves canonicalRuntime shortfallWallet (Import chainX ownerA)
                  noOptions Hb I)).
  reflexivity.
Defined.

Lemma build_deterministic_witness :
  addrs exportingWallet = addrs exportingWallet /\
  sameResponses (backend exportingWallet) (backend exportingWallet) /\
  build canonicalRuntime exportingWallet export500 noOptions = Ok export500Tx /\
  build reversedRuntime exportingWallet export500 noOptions = Ok export500Tx.
Proof.
  assert (H1 : build canonicalRuntime exportingWallet export500 noOptions = Ok export500Tx)
    by (vm_compute; reflexivity).
  split_and!; [reflexivity | apply sameResponses_refl | exact H1 |].
  destruct (proj1 (build_deterministic canonicalRuntime reversedRuntime
                     exportingWallet exportingWallet export500 noOptions
                     eq_refl (sameResponses_refl _)))
    as [Heq | (c & outs & tb & st & _ & _ & _ & a1 & a2 & _ & _ & _ & E1 & _)].
  - rewrite <- Heq. exact H1.
  - rewrite H1 in E1. discriminate E1.
Defined.

(** C2, as stated, fails: the same export, from the same wallet, against the
    same backend, names one unmet asset under one order of the range over the
    burn map and the other asset under another. *)
Lemma export_error_depends_on_range_order :
  build canonicalRuntime emptyWallet exportX noOptions =
    Err (errInsufficientFunds (needToBurn 500 assetX)) /\
  build reversedRuntime emptyWallet exportX noOptions =
    Err (errInsufficientFunds (needToBurn 10 djtx)) /\
  build canonicalRuntime emptyWallet exportX noOptions <>
  build reversedRuntime emptyWallet exportX noOptions.
Proof. split_and!; [reflexivity | reflexivity | discriminate]. Qed.

(** C7, as stated, fails: a wallet that controls no address imports a UTXO of
    20 that anyone can spend, against a fee of 10; the imported sum exceeds
    the fee, and no change output is emitted: the build fails with
    NoChangeAddress, also when the options name the change owner. *)
Lemma import_surplus_without_address :
  eligibleInputs noAddressWallet noOptions [plainUTXO 2%N djtx 20 anyone] =
    [mkInput (mkUTXOID 2%N 0) djtx (TransferIn (mkTransferInput 20 []))] /\
  BaseTxFee (backend noAddressWallet) = 10 /\
  NewImportTx canonicalRuntime noAddressWallet chainX ownerA noOptions =
    Err errNoChangeAddress /\
  NewImportTx canonicalRuntime noAddressWallet chainX ownerA changeToB =
    Err errNoChangeAddress.
Proof. split_and!; vm_compute; reflexivity. Qed.

(** C8, as stated, fails: the transaction of the import-shortfall scenario
    has a change output. *)
Lemma import_shortfall_has_change :
  NewImportTx canonicalRuntime shortfallWallet chainX ownerA noOptions = Ok shortfallTx /\
  txOutputs shortfallTx = [plainOutput djtx 4 ownerA] /\
  txOutputs shortfallTx <> [].
Proof. split_and!; [reflexivity | reflexivity | discriminate]. Qed.

(** C8 (as amended). In the import-shortfall scenario (base fee 10, one
    eligible foreign UTXO of 4, one local unlocked UTXO of 10 owned by A)
    [NewImportTx] returns the transaction with the imported input of 4, the
    local UTXO of 10 as its one input, 6 of it burned, and the other 4
    returned as one unlocked change output to A. *)
Theorem import_shortfall_scenario (rt : Runtime) :
  NewImportTx rt shortfallWallet chainX ownerA noOptions = Ok shortfallTx /\
  sumIn djtx (txInputs shortfallTx) = 14 /\
  sumOut djtx (txOutputs shortfallTx) = 4 /\
  BaseTxFee (backend shortfallWallet) = 10.
Proof.
  split_and!; try reflexivity.
  pose proof (build_sameOutcome canonicalRuntime rt shortfallWallet (Import chainX ownerA)
                noOptions) as Hs.
  change (build canonicalRuntime shortfallWallet (Import chainX ownerA) noOptions)
    with (Ok shortfallTx) in Hs.
  simpl in Hs. destruct (NewImportTx rt _ _ _ _); simpl in Hs; [subst; reflexivity | contradiction].
Qed.

(** ** The closing check of [spend] *)

Lemma spend_after_passes rt b toBurn toStake options utxos addr st :
  UTXOs (backend b) PlatformChainID = Ok utxos ->
  Peek (addrs b) = Some addr ->
  spendPasses (addrs b) (MinIssuanceTime options)
    (ChangeOwner options (defaultChangeOwner addr)) utxos toBurn toStake = Ok st ->
  spend rt b toBurn toStake options =
  do _ <- checkExhausted rt st;
  Ok (SortTransferableInputs (inputs st),
      SortTransferableOutputs (changeOutputs st),
      SortTransferableOutputs (stakeOutputs st)).
Proof. intros HU HP Hp. unfold spend. rewrite HU. cbn [bind]. rewrite HP, Hp. reflexivity. Qed.

(** C6. Once both loops have run: if any asset's stake or burn requirement
    is left nonzero, [spend] fails with an InsufficientFunds error that names
    an asset whose requirement is unmet together with exactly the amount left
    (the stake map is checked first), and nothing else is returned; and
    [spend] succeeds exactly when every entry of both maps is zero. *)
Theorem spend_exhaustion (rt : Runtime) (b : builder) (toBurn toStake : gmap ID Z)
    (options : Options) (utxos : list UTXO) (addr : ShortID) (st : spendState) :
  UTXOs (backend b) PlatformChainID = Ok utxos ->
  Peek (addrs b) = Some addr ->
  spendPasses (addrs b) (MinIssuanceTime options)
    (ChangeOwner options (defaultChangeOwner addr)) utxos toBurn toStake = Ok st ->
  ((exists assetID,
      get (amountsToStake st) assetID <> 0 \/ get (amountsToBurn st) assetID <> 0) ->
   exists assetID amount,
     amount <> 0 /\
     ((spend rt b toBurn toStake options =
         Err (errInsufficientFunds (needToStake amount assetID)) /\
       amountsToStake st !! assetID = Some amount) \/
      (spend rt b toBurn toStake options =
         Err (errInsufficientFunds (needToBurn amount assetID)) /\
       amountsToBurn st !! assetID = Some amount /\
       forall k, get (amountsToStake st) k = 0))) /\
  (isOk (spend rt b toBurn toStake options) = true <->
   map_Forall (fun _ amount => amount = 0) (amountsToStake st) /\
   map_Forall (fun _ amount => amount = 0) (amountsToBurn st)) /\
  (forall e, spend rt b toBurn toStake options = Err e ->
     exists d, e = errInsufficientFunds d).
Proof.
  intros HU HP Hp. rewrite (spend_after_passes rt b toBurn toStake options utxos addr st HU HP Hp).
  unfold checkExhausted.
  destruct (firstNonzero (rangeMap rt (amountsToStake st))) as [[k v]|] eqn:E1.
  { apply rangeMap_nonzero in E1. destruct E1 as (Hl & Hg & Hv). cbn [bind]. split_and!.
    - intros _. exists k, v. split; [exact Hv|]. left. auto.
    - simpl. split; [discriminate|]. intros [H _]. exfalso. apply Hv. exact (H k v Hl).
    - intros e [= <-]. eauto. }
  rewrite rangeMap_all_zero in E1.
  destruct (firstNonzero (rangeMap rt (amountsToBurn st))) as [[k v]|] eqn:E2.
  { apply rangeMap_nonzero in E2. destruct E2 as (Hl & Hg & Hv). cbn [bind]. split_and!.
    - intros _. exists k, v. split; [exact Hv|]. right. auto.
    - simpl. split; [discriminate|]. intros [_ H]. exfalso. apply Hv. exact (H k v Hl).
    - intros e [= <-]. eauto. }
  rewrite rangeMap_all_zero in E2. cbn [bind]. split_and!.
  - intros (a & [H|H]); exfalso; apply H; auto.
  - simpl. split; [|reflexivity]. intros _. split; intros k v Hl.
    + specialize (E1 k). unfold get in E1. rewrite Hl in E1. exact E1.
    + specialize (E2 k). unfold get in E2. rewrite Hl in E2. exact E2.
  - discriminate.
Qed.

Lemma spend_exhaustion_witness :
  UTXOs (backend tenWallet) PlatformChainID = Ok [plainUTXO 1%N djtx 10 ownerA] /\
  Peek (addrs tenWallet) = Some addrA /\
  spendPasses (addrs tenWallet) (MinIssuanceTime noOptions)
    (ChangeOwner noOptions (defaultChangeOwner addrA)) [plainUTXO 1%N djtx 10 ownerA]
    {[ djtx := 15 ]} ∅ = Ok tenWalletAfter15 /\
  spend canonicalRuntime tenWallet {[ djtx := 15 ]} ∅ noOptions =
    Err (errInsufficientFunds (needToBurn 5 djtx)) /\
  forall e, spend canonicalRuntime tenWallet {[ djtx := 15 ]} ∅ noOptions = Err e ->
            exists d, e = errInsufficientFunds d.
Proof.
  assert (Hp : spendPasses (addrs tenWallet) (MinIssuanceTime noOptions)
                 (ChangeOwner noOptions (defaultChangeOwner addrA))
                 [plainUTXO 1%N djtx 10 ownerA] {[ djtx := 15 ]} ∅ = Ok tenWalletAfter15)
    by (vm_compute; reflexivity).
  split_and!; [reflexivity | reflexivity | exact Hp | reflexivity |].
  exact (proj2 (proj2 (spend_exhaustion canonicalRuntime tenWallet {[ djtx := 15 ]} ∅ noOptions
                         [plainUTXO 1%N djtx 10 ownerA] addrA tenWalletAfter15
                         eq_refl eq_refl Hp))).
Defined.

Lemma Forall_if {A} (P : A -> Prop) (c : bool) (x : A) :
  P x -> Forall P (if c then [x] else []).
Proof. intros H. destruct c; repeat constructor; exact H. Qed.

(** ** Where the outputs of [spend] come from *)

Section provenance.
Variables (addrs : gset ShortID) (minIssuanceTime : Z) (changeOwner : OutputOwners).
Variable utxos : list UTXO.

Local Abbreviation good := (producedSoFar changeOwner minIssuanceTime utxos).

Lemma lockedVisit_produced st u st' :
  u ∈ utxos -> good st -> lockedVisit addrs minIssuanceTime st u = Ok st' -> good st'.
Proof.
  intros Hu Hg Hv. unfold producedSoFar in *. apply Forall_app in Hg. destruct Hg as [Hc Hs].
  destruct (lockedVisit_Ok _ _ _ _ _ Hv)
    as [-> | (lt & out & sigs & Hout & Hlt & _ & _ & _ & _ & _ & HSO & HCO)];
    [apply Forall_app; auto|].
  rewrite HSO, HCO. rewrite !Forall_app. split_and!; auto.
  - apply Forall_if. unfold producedFrom. right. eauto 10.
  - apply Forall_singleton. unfold producedFrom. right. eauto 10.
Qed.

Lemma unlockedVisit_produced st u st' :
  good st -> unlockedVisit addrs minIssuanceTime changeOwner st u = Ok st' -> good st'.
Proof.
  intros Hg Hv. unfold producedSoFar in *. apply Forall_app in Hg. destruct Hg as [Hc Hs].
  destruct (unlockedVisit_Ok _ _ _ _ _ _ Hv)
    as [-> | (out & sigs & _ & _ & _ & _ & _ & _ & HSO & HCO)];
    [apply Forall_app; auto|].
  rewrite HSO, HCO. rewrite !Forall_app. split_and!; auto.
  - apply Forall_if. unfold producedFrom. left. eauto.
  - apply Forall_if. unfold producedFrom. left. eauto.
Qed.

Lemma spendPasses_produced toBurn toStake st :
  spendPasses addrs minIssuanceTime changeOwner utxos toBurn toStake = Ok st ->
  Forall (producedFrom changeOwner minIssuanceTime utxos)
    (changeOutputs st ++ stakeOutputs st).
Proof.
  unfold spendPasses.
  destruct (forEach (lockedVisit addrs minIssuanceTime) _ utxos) as [st1|e] eqn:E1;
    cbn [bind]; [|discriminate].
  intros E2. change (good st).
  eapply (forEach_invariant good); [| |exact E2].
  - intros s x s' _. apply unlockedVisit_produced.
  - eapply (forEach_invariant good); [| |exact E1].
    + intros s x s'. apply lockedVisit_produced.
    + constructor.
Qed.
End provenance.

Lemma spend_produced rt b toBurn toStake options ins change stake :
  spend rt b toBurn toStake options = Ok (ins, change, stake) ->
  exists utxos addr,
    UTXOs (backend b) PlatformChainID = Ok utxos /\
    Peek (addrs b) = Some addr /\
    Forall (producedFrom (ChangeOwner options (defaultChangeOwner addr))
              (MinIssuanceTime options) utxos) (change ++ stake).
Proof.
  unfold spend.
  destruct (UTXOs (backend b) PlatformChainID) as [utxos|e]; cbn [bind]; [|discriminate].
  destruct (Peek (addrs b)) as [addr|]; [|discriminate].
  destruct (spendPasses _ _ _ utxos toBurn toStake) as [st|e] eqn:Hp; cbn [bind];
    [|discriminate].
  destruct (checkExhausted rt st) as [[]|e]; cbn [bind]; [|discriminate].
  intros [= <- <- <-]. exists utxos, addr. split_and!; auto.
  apply spendPasses_produced in Hp.
  unfold SortTransferableOutputs. rewrite !merge_sort_Permutation. exact Hp.
Qed.

(** ** What one consumed UTXO produces *)

(** C4. A UTXO still under its stake lock is consumed by the first loop only:
    its input is a [StakeableLockIn] with the UTXO's lock time, and the stake
    output and the change output made from it are [StakeableLockOut]s with
    that lock time around the UTXO's own owners.  Any other UTXO (plain, or
    with a lock time that has passed) is consumed by the second loop only, and
    what is made from it is plain transfer outputs, from a plain transfer
    input.  So every output [spend] returns is either the re-locked content of
    a UTXO of the backend whose lock is still active, with that UTXO's asset,
    lock time and owners, or a plain output to the change owner. *)
Theorem lock_preserved (controlled : gset ShortID) (minIssuanceTime : Z)
    (changeOwner : OutputOwners) (st st' : spendState) (u : UTXO) :
  (forall locktime inner,
     activeLock minIssuanceTime (utxoOut u) = Some (locktime, inner) ->
     (lockedVisit controlled minIssuanceTime st u = Ok st' ->
      minIssuanceTime < locktime /\
      exists ni ns nc,
        appended st st' ni ns nc /\
        Forall (fun o => exists amount out,
                  inner = TransferOut out /\
                  o = lockedOutput (utxoAsset u) locktime amount (Owners out)) (ns ++ nc) /\
        Forall (fun i => exists input,
                  inUTXOID i = utxoID u /\ inIn i = StakeableLockIn locktime input) ni) /\
     (unlockedVisit controlled minIssuanceTime changeOwner st u = Ok st' -> st' = st)) /\
  (activeLock minIssuanceTime (utxoOut u) = None ->
     (lockedVisit controlled minIssuanceTime st u = Ok st' -> st' = st) /\
     (unlockedVisit controlled minIssuanceTime changeOwner st u = Ok st' ->
      exists ni ns nc,
        appended st st' ni ns nc /\
        Forall (fun o => exists amount,
                  o = plainOutput (utxoAsset u) amount changeOwner) (ns ++ nc) /\
        Forall (fun i => exists input,
                  inUTXOID i = utxoID u /\ inIn i = TransferIn input) ni)) /\
  (forall rt b toBurn toStake options ins change stake,
     spend rt b toBurn toStake options = Ok (ins, change, stake) ->
     exists utxos addr,
       UTXOs (backend b) PlatformChainID = Ok utxos /\
       Peek (addrs b) = Some addr /\
       Forall (producedFrom (ChangeOwner options (defaultChangeOwner addr))
                 (MinIssuanceTime options) utxos) (change ++ stake)).
Proof.
  split; [|split]; [| |intros; eapply spend_produced; eauto].
  - intros locktime inner Hact. split.
    + intros Hv.
      assert (Hlt : minIssuanceTime < locktime).
      { unfold activeLock in Hact. destruct (utxoOut u); try discriminate.
        destruct (minIssuanceTime <? locktime0) eqn:E; [|discriminate].
        injection Hact as <- <-. apply Z.ltb_lt. exact E. }
      split; [exact Hlt|].
      destruct (lockedVisit_Ok _ _ _ _ _ Hv)
        as [-> | (lt & out & sigs & Hout & _ & _ & _ & _ & _ & HI & HSO & HCO)].
      * exists [], [], []. unfold appended. rewrite !app_nil_r. auto.
      * unfold activeLock in Hact. rewrite Hout in Hact.
        destruct (minIssuanceTime <? lt); [|discriminate]. injection Hact as <- <-.
        eexists _, _, _. split; [split_and!; eassumption|]. split.
        -- apply Forall_app. split; [repeat constructor; eauto|].
           apply Forall_if. eauto.
        -- repeat constructor. simpl. eauto.
    + intros Hv.
      destruct (unlockedVisit_Ok _ _ _ _ _ _ Hv) as [-> | (out & sigs & Hout & _)];
        [reflexivity|].
      assert (Hn : unlockedView minIssuanceTime (utxoOut u) = None)
        by (apply unlockedView_activeLock; eauto).
      congruence.
  - intros Hact. split.
    + intros Hv.
      destruct (lockedVisit_Ok _ _ _ _ _ Hv)
        as [-> | (lt & out & sigs & Hout & Hlt & _)]; [reflexivity|].
      unfold activeLock in Hact. rewrite Hout in Hact.
      destruct (minIssuanceTime <? lt) eqn:E; [discriminate|]. apply Z.ltb_ge in E. lia.
    + intros Hv.
      destruct (unlockedVisit_Ok _ _ _ _ _ _ Hv)
        as [-> | (out & sigs & Hout & _ & _ & _ & _ & HI & HSO & HCO)].
      * exists [], [], []. unfold appended. rewrite !app_nil_r. auto.
      * eexists _, _, _. split; [split_and!; eassumption|]. split.
        -- apply Forall_app. split; apply Forall_if; eauto.
        -- repeat constructor. simpl. eauto.
Qed.

Lemma lock_preserved_witness :
  let st := mkSpendState ∅ {[ djtx := 6 ]} [] [] [] in
  activeLock 1000 (utxoOut lockedUTXO) =
    Some (5000, TransferOut (mkTransferOutput 10 ownerA)) /\
  lockedVisit {[ addrA ]} 1000 st lockedUTXO = Ok lockedAfter6 /\
  1000 < 5000 /\
  exists ni ns nc,
    appended st lockedAfter6 ni ns nc /\
    Forall (fun o => exists amount out,
              TransferOut (mkTransferOutput 10 ownerA) = TransferOut out /\
              o = lockedOutput (utxoAsset lockedUTXO) 5000 amount (Owners out)) (ns ++ nc) /\
    Forall (fun i => exists input,
              inUTXOID i = utxoID lockedUTXO /\ inIn i = StakeableLockIn 5000 input) ni.
Proof.
  intros st.
  assert (Hv : lockedVisit {[ addrA ]} 1000 st lockedUTXO = Ok lockedAfter6)
    by (vm_compute; reflexivity).
  split; [reflexivity|]. split; [exact Hv|].
  exact (proj1 (proj1 (lock_preserved {[ addrA ]} 1000 ownerB st lockedAfter6 lockedUTXO)
                  5000 (TransferOut (mkTransferOutput 10 ownerA)) eq_refl) Hv).
Defined.

(** The same UTXO once its lock time has passed: spent as plain funds. *)
Example matured_lock_gives_plain_outputs :
  spend canonicalRuntime (walletA [lockedUTXO] []) ∅ {[ djtx := 6 ]}
    {| MinIssuanceTime := 5000; changeOwnerOverride := None; optMemo := [] |} =
  Ok ([mkInput (mkUTXOID 3%N 0) djtx (TransferIn (mkTransferInput 10 [0]))],
      [plainOutput djtx 4 ownerA], [plainOutput djtx 6 ownerA]).
Proof. reflexivity. Qed.


(** C5. A UTXO matched in the second loop is consumed whole as one input;
    its amount is first burned up to what is left to burn of its asset, then
    staked up to what is left to stake, and what remains is one unlocked
    change output to the change owner; the two requirements of the asset go
    down by exactly the burned and the staked amounts, the other assets'
    requirements are untouched; a UTXO whose asset needs neither is left
    alone. *)
Theorem unlocked_priority (addrs : gset ShortID) (minIssuanceTime : Z)
    (changeOwner : OutputOwners) (st : spendState) (u : UTXO) :
  wfAmounts (amountsToBurn st) -> wfAmounts (amountsToStake st) -> wfUTXO u ->
  let assetID := utxoAsset u in
  let needBurn := get (amountsToBurn st) assetID in
  let needStake := get (amountsToStake st) assetID in
  (needStake = 0 /\ needBurn = 0 ->
     unlockedVisit addrs minIssuanceTime changeOwner st u = Ok st) /\
  (forall out sigs,
     ~ (needStake = 0 /\ needBurn = 0) ->
     unlockedView minIssuanceTime (utxoOut u) = Some (TransferOut out) ->
     match_ addrs (Owners out) minIssuanceTime = (sigs, true) ->
     let burned := Z.min needBurn (Amt out) in
     let staked := Z.min needStake (Amt out - burned) in
     let leftover := Amt out - burned - staked in
     exists st',
       unlockedVisit addrs minIssuanceTime changeOwner st u = Ok st' /\
       appended st st'
         [mkInput (utxoID u) assetID (TransferIn (mkTransferInput (Amt out) sigs))]
         (if decide (0 < staked) then [plainOutput assetID staked changeOwner] else [])
         (if decide (0 < leftover) then [plainOutput assetID leftover changeOwner] else []) /\
       get (amountsToBurn st') assetID = needBurn - burned /\
       get (amountsToStake st') assetID = needStake - staked /\
       (forall other, other <> assetID ->
          get (amountsToBurn st') other = get (amountsToBurn st) other /\
          get (amountsToStake st') other = get (amountsToStake st) other) /\
       0 <= burned /\ 0 <= staked /\ 0 <= leftover /\
       burned + staked + leftover = Amt out).
Proof.
  intros Hb Hs Hu assetID needBurn needStake. split.
  - intros [HS HB]. unfold unlockedVisit. fold assetID needBurn needStake.
    rewrite HS, HB. reflexivity.
  - intros out sigs Hneed Hview Hm burned staked leftover.
    unfold wfUTXO in Hu. rewrite (unlockedView_Amount _ _ _ Hview) in Hu.
    pose proof (get_uint64 _ assetID Hb) as HgB. fold needBurn in HgB.
    pose proof (get_uint64 _ assetID Hs) as HgS. fold needStake in HgS.
    assert (HminB : Min64 needBurn (Amt out) = burned)
      by (unfold Min64, burned; destruct (needBurn <? Amt out) eqn:E; lia).
    assert (Hav : wrap64 (Amt out - burned) = Amt out - burned)
      by (apply sub64_small; unfold is_uint64 in *; lia).
    assert (HminS : Min64 needStake (Amt out - burned) = staked)
      by (unfold Min64, staked; destruct (needStake <? Amt out - burned) eqn:E; lia).
    assert (Hrem : wrap64 (Amt out - burned - staked) = leftover)
      by (apply wrap64_small; unfold is_uint64 in *; lia).
    eexists. split.
    + unfold unlockedVisit. fold assetID needBurn needStake.
      destruct ((needStake =? 0) && (needBurn =? 0)) eqn:E.
      { apply andb_true_iff in E. rewrite !Z.eqb_eq in E. contradiction. }
      rewrite Hview, Hm, HminB, Hav, HminS, Hrem. reflexivity.
    + unfold appended. cbn [inputs stakeOutputs changeOutputs amountsToBurn amountsToStake].
      rewrite !get_subAt. fold needBurn needStake.
      rewrite (sub64_small needBurn burned), (sub64_small needStake staked)
        by (auto; unfold is_uint64 in *; lia).
      split_and!; try reflexivity; try (unfold is_uint64 in *; lia).
      * destruct (decide (0 < staked)) as [H|H];
          [rewrite (proj2 (Z.ltb_lt _ _) H) | rewrite (proj2 (Z.ltb_ge _ _)) by lia];
          rewrite ?app_nil_r; reflexivity.
      * destruct (decide (0 < leftover)) as [H|H];
          [rewrite (proj2 (Z.ltb_lt _ _) H) | rewrite (proj2 (Z.ltb_ge _ _)) by lia];
          rewrite ?app_nil_r; reflexivity.
      * destruct (decide (assetID = assetID)); [reflexivity | contradiction].
      * destruct (decide (assetID = assetID)); [reflexivity | contradiction].
      * intros other Hne. rewrite !get_subAt.
        destruct (decide (assetID = other)); [congruence | auto].
Qed.

Lemma unlocked_priority_witness :
  let st := mkSpendState {[ djtx := 6 ]} ∅ [] [] [] in
  let u := plainUTXO 1%N djtx 10 ownerA in
  wfAmounts (amountsToBurn st) /\ wfAmounts (amountsToStake st) /\ wfUTXO u /\
  exists st',
    unlockedVisit {[ addrA ]} 1000 ownerA st u = Ok st' /\
    appended st st'
      [mkInput (mkUTXOID 1%N 0) djtx (TransferIn (mkTransferInput 10 [0]))]
      [] [plainOutput djtx 4 ownerA] /\
    get (amountsToBurn st') djtx = 0.
Proof.
  intros st u.
  assert (Hb : wfAmounts (amountsToBurn st))
    by (apply wfAmounts_singleton; vm_compute; intuition discriminate).
  assert (Hs : wfAmounts (amountsToStake st)) by apply wfAmounts_empty.
  assert (Hu : wfUTXO u) by (vm_compute; intuition discriminate).
  split_and!; [exact Hb | exact Hs | exact Hu |].
  destruct (proj2 (unlocked_priority {[ addrA ]} 1000 ownerA st u Hb Hs Hu)
              (mkTransferOutput 10 ownerA) [0])
    as (st' & Hv & Happ & HB & _); [vm_compute; intuition discriminate | reflexivity.. |].
  exists st'. split_and!; [exact Hv | exact Happ | exact HB].
Defined.

(** C10. Every stake output and every change output the second loop makes
    is a plain output owned by the resolved change owner, whoever owned the
    UTXO it was made from; the resolved change owner is the caller's override
    or, without one, the threshold-1 owner over the address [Peek] picks; so
    every output [spend] returns that is not under a stake lock belongs to
    that owner. *)
Theorem unlocked_outputs_to_change_owner (rt : Runtime) (b : builder)
    (toBurn toStake : gmap ID Z) (options : Options) :
  (forall minIssuanceTime changeOwner st u st',
     unlockedVisit (addrs b) minIssuanceTime changeOwner st u = Ok st' ->
     exists ni ns nc,
       appended st st' ni ns nc /\
       Forall (fun o => exists amount,
                 outOut o = TransferOut (mkTransferOutput amount changeOwner)) (ns ++ nc)) /\
  (forall ins change stake,
     spend rt b toBurn toStake options = Ok (ins, change, stake) ->
     exists addr,
       Peek (addrs b) = Some addr /\
       let resolved :=
         match changeOwnerOverride options with
         | Some owner => owner
         | None => {| Locktime := 0; Threshold := 1; Addrs := [addr] |}
         end in
       Forall (fun o =>
                 match outOut o with
                 | TransferOut out => Owners out = resolved
                 | StakeableLockOut locktime _ => MinIssuanceTime options < locktime
                 | OtherOut _ _ => False
                 end) (change ++ stake)).
Proof.
  split.
  - intros mit co st u st' Hv.
    destruct (unlockedVisit_Ok _ _ _ _ _ _ Hv)
      as [-> | (out & sigs & _ & _ & _ & _ & _ & HI & HSO & HCO)].
    + exists [], [], []. unfold appended. rewrite !app_nil_r. auto.
    + eexists _, _, _. split; [split_and!; eassumption|].
      apply Forall_app. split; apply Forall_if; simpl; eauto.
  - intros ins change stake Hsp.
    destruct (spend_produced _ _ _ _ _ _ _ _ Hsp) as (utxos & addr & _ & HP & Hall).
    exists addr. split; [exact HP|]. cbv zeta.
    eapply Forall_impl; [exact Hall|].
    intros o [(a & amt & ->) | (u & lt & out & amt & _ & _ & Hlt & ->)]; simpl.
    + unfold ChangeOwner, defaultChangeOwner. destruct (changeOwnerOverride options); reflexivity.
    + exact Hlt.
Qed.

(** Staking from an unlocked UTXO that A and B own jointly: the stake output
    goes to the change owner, A alone. *)
Example stake_goes_to_change_owner :
  spend canonicalRuntime
    (walletA [plainUTXO 1%N djtx 10 {| Locktime := 0; Threshold := 1; Addrs := [addrB; addrA] |}] [])
    ∅ {[ djtx := 10 ]} noOptions =
  Ok ([mkInput (mkUTXOID 1%N 0) djtx (TransferIn (mkTransferInput 10 [1]))],
      [], [plainOutput djtx 10 ownerA]).
Proof. reflexivity. Qed.

(** ** Unknown output types *)

Lemma transferOut_view_recognized mit o v :
  unlockedView mit o = Some v -> isTransferOut v = false -> recognized o = false.
Proof.
  destruct o as [out|lt inner|t a]; simpl.
  - intros [= <-]. discriminate.
  - destruct (mit <? lt); [discriminate|]. intros [= <-]. auto.
  - reflexivity.
Qed.

Lemma activeLock_recognized mit o lt inner :
  activeLock mit o = Some (lt, inner) -> isTransferOut inner = false -> recognized o = false.
Proof.
  destruct o as [out|lt' inner'|t a]; simpl; try discriminate.
  destruct (mit <? lt'); [|discriminate]. intros [= <- <-]. auto.
Qed.

(** C9 (as amended). [spend] looks at the shape of a UTXO only when the
    UTXO's asset still has an unmet requirement at that point of the scan:
    the first loop fails with UnknownOutputType on a stake lock that is still
    active around something that is not a plain transfer output, when the
    asset still has an amount to stake; the second loop fails on an output
    that, once a lock whose time has passed is unwrapped, is not a plain
    transfer output, when the asset still has an amount to burn or to stake
    (an output still under its lock is passed over).  The failure ends the
    call at that UTXO.  A UTXO whose asset needs nothing more is skipped
    whatever its shape; and [spend] returns UnknownOutputType only for a UTXO
    of an unrecognized shape. *)
Theorem unknown_output_type_failure (rt : Runtime) (b : builder)
    (toBurn toStake : gmap ID Z) (options : Options) (utxos : list UTXO) (addr : ShortID) :
  UTXOs (backend b) PlatformChainID = Ok utxos ->
  Peek (addrs b) = Some addr ->
  let minIssuanceTime := MinIssuanceTime options in
  let changeOwner := ChangeOwner options (defaultChangeOwner addr) in
  let locked := lockedVisit (addrs b) minIssuanceTime in
  let unlocked := unlockedVisit (addrs b) minIssuanceTime changeOwner in
  let st0 := mkSpendState toBurn toStake [] [] [] in
  (forall l1 u l2 st,
     utxos = l1 ++ u :: l2 -> forEach locked st0 l1 = Ok st ->
     get (amountsToStake st) (utxoAsset u) <> 0 ->
     (exists locktime inner,
        activeLock minIssuanceTime (utxoOut u) = Some (locktime, inner) /\
        isTransferOut inner = false) ->
     spend rt b toBurn toStake options = Err errUnknownOutputType) /\
  (forall l1 u l2 st1 st,
     utxos = l1 ++ u :: l2 -> forEach locked st0 utxos = Ok st1 ->
     forEach unlocked st1 l1 = Ok st ->
     ~ (get (amountsToStake st) (utxoAsset u) = 0 /\
        get (amountsToBurn st) (utxoAsset u) = 0) ->
     (exists o, unlockedView minIssuanceTime (utxoOut u) = Some o /\
                isTransferOut o = false) ->
     spend rt b toBurn toStake options = Err errUnknownOutputType) /\
  (forall st u,
     (get (amountsToStake st) (utxoAsset u) = 0 -> locked st u = Ok st) /\
     (get (amountsToStake st) (utxoAsset u) = 0 ->
      get (amountsToBurn st) (utxoAsset u) = 0 -> unlocked st u = Ok st) /\
     (is_Some (activeLock minIssuanceTime (utxoOut u)) -> unlocked st u = Ok st)) /\
  (spend rt b toBurn toStake options = Err errUnknownOutputType ->
   exists l1 u l2, utxos = l1 ++ u :: l2 /\ recognized (utxoOut u) = false).
Proof.
  intros HU HP mit co locked unlocked st0. unfold spend. rewrite HU. cbn [bind].
  rewrite HP. fold mit co. unfold spendPasses. fold locked unlocked st0.
  split_and!.
  - intros l1 u l2 st -> Hrun Hneed Hshape.
    assert (Hv : locked st u = Err errUnknownOutputType)
      by (apply lockedVisit_Err; auto).
    rewrite (forEach_Err_at locked l1 u l2 st0 st _ Hrun Hv). reflexivity.
  - intros l1 u l2 st1 st -> Hrun1 Hrun Hneed Hshape.
    assert (Hv : unlocked st u = Err errUnknownOutputType)
      by (apply unlockedVisit_Err; auto).
    rewrite Hrun1. cbn [bind].
    rewrite (forEach_Err_at unlocked l1 u l2 st1 st _ Hrun Hv). reflexivity.
  - intros st u. split_and!.
    + intros Hz. unfold locked, lockedVisit. rewrite Hz. reflexivity.
    + intros Hs Hb. unfold unlocked, unlockedVisit. rewrite Hs, Hb. reflexivity.
    + intros Hact. apply unlockedView_activeLock in Hact.
      unfold unlocked, unlockedVisit. rewrite Hact. destruct (_ && _); reflexivity.
  - destruct (forEach locked st0 utxos) as [st1|e1] eqn:E1; cbn [bind].
    + destruct (forEach unlocked st1 utxos) as [st2|e2] eqn:E2; cbn [bind].
      * unfold checkExhausted.
        destruct (firstNonzero _) as [[? ?]|]; [discriminate|].
        destruct (firstNonzero _) as [[? ?]|]; discriminate.
      * intros [= ->]. apply forEach_Err_inv in E2.
        destruct E2 as (l1 & u & l2 & st & -> & _ & Hv).
        apply unlockedVisit_Err in Hv. destruct Hv as (_ & _ & o & Hview & Hshape).
        exists l1, u, l2. split; [reflexivity|].
        eapply transferOut_view_recognized; eauto.
    + intros [= ->]. apply forEach_Err_inv in E1.
      destruct E1 as (l1 & u & l2 & st & -> & _ & Hv).
      apply lockedVisit_Err in Hv. destruct Hv as (_ & _ & lt & inner & Hact & Hshape).
      exists l1, u, l2. split; [reflexivity|].
      eapply activeLock_recognized; eauto.
Qed.

Lemma unknown_output_type_failure_witness :
  let b := walletA [unknownUTXO; plainUTXO 1%N djtx 10 ownerA] [] in
  UTXOs (backend b) PlatformChainID = Ok [unknownUTXO; plainUTXO 1%N djtx 10 ownerA] /\
  Peek (addrs b) = Some addrA /\
  spend canonicalRuntime b {[ djtx := 10 ]} ∅ noOptions = Err errUnknownOutputType.
Proof.
  intros b. split_and!; [reflexivity | reflexivity |].
  refine (proj1 (proj2 (unknown_output_type_failure canonicalRuntime b {[ djtx := 10 ]} ∅
                  noOptions [unknownUTXO; plainUTXO 1%N djtx 10 ownerA] addrA
                  eq_refl eq_refl))
            [] unknownUTXO [plainUTXO 1%N djtx 10 ownerA] _ _ eq_refl eq_refl eq_refl _ _).
  - vm_compute. intros [_ H]. discriminate H.
  - exists (OtherOut 99 50). split; reflexivity.
Defined.

(** C9, as stated, fails: an output of unknown type met once its asset needs
    nothing more does not fail the call. *)
Lemma unknown_output_skipped :
  recognized (utxoOut unknownUTXO) = false /\
  spend canonicalRuntime (walletA [plainUTXO 1%N djtx 10 ownerA; unknownUTXO] [])
    {[ djtx := 10 ]} ∅ noOptions =
  Ok ([mkInput (mkUTXOID 1%N 0) djtx (TransferIn (mkTransferInput 10 [0]))], [], []).
Proof. split; reflexivity. Qed.

(** * Further properties of the builder *)

(** ** The picked change address *)

Lemma Peek_None (s : gset ShortID) : Peek s = None <-> s = ∅.
Proof.
  unfold Peek. split.
  - intros H. apply leibniz_equiv, elements_empty_iff.
    destruct (elements s); [reflexivity | discriminate].
  - intros ->. rewrite elements_empty. reflexivity.
Qed.

Lemma Peek_Some (s : gset ShortID) a : Peek s = Some a -> a ∈ s.
Proof.
  unfold Peek. intros H. apply elem_of_elements.
  destruct (elements s) as [|x l]; [discriminate|]. injection H as ->. left.
Qed.

(** ** More on the matcher *)

Lemma controlledFrom_lower addrs i l k : k ∈ controlledFrom addrs i l -> i <= k.
Proof. intros (n & a & -> & _)%elem_of_controlledFrom. lia. Qed.

Lemma controlledFrom_increasing addrs i l : StronglySorted Z.lt (controlledFrom addrs i l).
Proof.
  revert i. induction l as [|a l IH]; intros i; simpl; [constructor|].
  destruct (decide (a ∈ addrs)); [|apply IH].
  constructor; [apply IH|].
  apply Forall_forall. intros k Hk%controlledFrom_lower. lia.
Qed.

Lemma StronglySorted_take {A} (R : relation A) n l :
  StronglySorted R l -> StronglySorted R (take n l).
Proof.
  intros H. revert n. induction H as [|x l Hl IH Hx]; intros [|n]; simpl; try constructor.
  - apply IH.
  - eapply Forall_forall. intros y Hy. rewrite Forall_forall in Hx. apply Hx.
    eapply subseteq_take; eauto.
Qed.

Lemma match_sigs addrs owners minIssuanceTime :
  wfOwners owners ->
  exists n, fst (match_ addrs owners minIssuanceTime) =
            take n (controlledIndices addrs owners) /\
            (n <= Z.to_nat (Threshold owners))%nat.
Proof.
  intros Hwf. destruct (Z_lt_le_dec minIssuanceTime (Locktime owners)) as [H|H].
  - rewrite match_locked by exact H. exists 0%nat. rewrite take_0. split; [reflexivity | lia].
  - rewrite match_unlocked by assumption. eexists. split; [reflexivity | lia].
Qed.

(** X1. Whatever [match] returns, satisfied or not, is sound: at most
    [Threshold] indices, in strictly increasing order, each the position of a
    listed address that the wallet controls; and owners that ask for more
    signers than they list are never satisfied. *)
Theorem match_indices_sound (addrs : gset ShortID) (owners : OutputOwners)
    (minIssuanceTime : Z) :
  wfOwners owners ->
  let sigs := fst (match_ addrs owners minIssuanceTime) in
  Z.of_nat (length sigs) <= Threshold owners /\
  StronglySorted Z.lt sigs /\
  (forall i, i ∈ sigs -> controlledAt addrs owners i /\ i < Z.of_nat (length (Addrs owners))) /\
  (Z.of_nat (length (Addrs owners)) < Threshold owners ->
   snd (match_ addrs owners minIssuanceTime) = false).
Proof.
  intros Hwf sigs. destruct (match_sigs addrs owners minIssuanceTime Hwf) as (n & Hs & Hn).
  fold sigs in Hs. pose proof Hwf as (Hlt & [Hth0 Hth] & Hlen).
  split_and!.
  - rewrite Hs, length_take. lia.
  - rewrite Hs. apply StronglySorted_take, controlledFrom_increasing.
  - intros i Hi. rewrite Hs in Hi. apply subseteq_take in Hi.
    apply elem_of_controlledFrom in Hi. destruct Hi as (k & a & -> & Hl & Ha).
    rewrite Z.add_0_l. split.
    + split; [lia|]. exists a. rewrite Nat2Z.id. auto.
    + apply lookup_lt_Some in Hl. lia.
  - intros Hmore. destruct (Z_lt_le_dec minIssuanceTime (Locktime owners)) as [H|H].
    + rewrite match_locked by exact H. reflexivity.
    + rewrite match_unlocked by assumption. simpl.
      apply Z.leb_gt.
      pose proof (controlledFrom_length_le addrs 0 (Addrs owners)).
      unfold controlledIndices. lia.
Qed.

Lemma match_indices_sound_witness :
  let owners := {| Locktime := 3; Threshold := 2; Addrs := [1%N; 7%N; 2%N; 1%N] |} in
  let addrs : gset ShortID := {[ 1%N; 2%N ]} in
  wfOwners owners /\
  fst (match_ addrs owners 5) = [0; 2] /\
  StronglySorted Z.lt (fst (match_ addrs owners 5)).
Proof.
  intros owners addrs.
  assert (Hwf : wfOwners owners).
  { unfold wfOwners, is_uint64, is_uint32, MaxUint64, MaxUint32. simpl. lia. }
  split_and!; [exact Hwf | reflexivity |].
  exact (proj1 (proj2 (match_indices_sound addrs owners 5 Hwf))).
Defined.

Lemma filter_length_mono {A} (P Q : A -> Prop) `{!forall x, Decision (P x)}
    `{!forall x, Decision (Q x)} (l : list A) :
  (forall x, P x -> Q x) -> (length (filter P l) <= length (filter Q l))%nat.
Proof.
  intros HPQ. induction l as [|x l IH]; [reflexivity|].
  rewrite !filter_cons. destruct (decide (P x)), (decide (Q x)); simpl; try lia.
  exfalso. auto.
Qed.

(** X2. [match] is monotone: owners that are satisfied by a set of
    controlled addresses at some issuance time stay satisfied with more
    controlled addresses and at any later time. *)
Theorem match_monotone (addrs addrs' : gset ShortID) (owners : OutputOwners)
    (minIssuanceTime minIssuanceTime' : Z) :
  wfOwners owners ->
  addrs ⊆ addrs' -> minIssuanceTime <= minIssuanceTime' ->
  snd (match_ addrs owners minIssuanceTime) = true ->
  snd (match_ addrs' owners minIssuanceTime') = true.
Proof.
  intros Hwf Hsub Ht Hok.
  destruct (Z_lt_le_dec minIssuanceTime (Locktime owners)) as [H|H].
  { rewrite match_locked in Hok by exact H. discriminate. }
  rewrite match_unlocked in Hok by assumption.
  rewrite match_unlocked by (auto; lia). simpl in *.
  apply Z.leb_le in Hok. apply Z.leb_le.
  unfold controlledIndices in *. rewrite controlledFrom_length in *.
  pose proof (filter_length_mono (fun a => a ∈ addrs) (fun a => a ∈ addrs') (Addrs owners)
                (fun x Hx => Hsub x Hx)).
  lia.
Qed.

Lemma match_monotone_witness :
  let owners := {| Locktime := 3; Threshold := 2; Addrs := [1%N; 7%N; 2%N] |} in
  wfOwners owners /\
  ({[ 1%N; 2%N ]} : gset ShortID) ⊆ {[ 1%N; 2%N; 7%N ]} /\
  5 <= 9 /\
  snd (match_ {[ 1%N; 2%N ]} owners 5) = true /\
  snd (match_ {[ 1%N; 2%N; 7%N ]} owners 9) = true.
Proof.
  intros owners.
  assert (Hwf : wfOwners owners).
  { unfold wfOwners, is_uint64, is_uint32, MaxUint64, MaxUint32. simpl. lia. }
  assert (Hsub : ({[ 1%N; 2%N ]} : gset ShortID) ⊆ {[ 1%N; 2%N; 7%N ]})
    by (apply union_subseteq_l).
  assert (Ht : 5 <= 9) by lia.
  split_and!; [exact Hwf | exact Hsub | exact Ht | reflexivity |].
  exact (match_monotone _ _ owners 5 9 Hwf Hsub Ht eq_refl).
Defined.

(** ** Subnet authorisation *)

(** X3. When [authorizeSubnet] succeeds, the backend holds, under the subnet
    id, a subnet-creation transaction with [secp256k1fx] owners whose lock
    time has passed, and the indices returned are exactly [Threshold] positions
    of owner addresses the wallet controls, in increasing order.  When it
    fails, the error is the wrapped lookup error, WrongTxType,
    UnknownOwnerType or InsufficientAuthorization, each in its own case. *)
Theorem authorizeSubnet_sound (b : builder) (subnetID : ID) (options : Options) :
  (forall sigs,
     authorizeSubnet b subnetID options = Ok sigs ->
     exists base owner,
       GetTx (backend b) subnetID =
         Ok (mkTx (UnsignedCreateSubnetTx base (SecpOwner owner))) /\
       match_ (addrs b) owner (MinIssuanceTime options) = (sigs, true) /\
       (wfOwners owner ->
          Locktime owner <= MinIssuanceTime options /\
          Z.of_nat (length sigs) = Threshold owner /\
          StronglySorted Z.lt sigs /\
          forall i, i ∈ sigs -> controlledAt (addrs b) owner i)) /\
  (forall e,
     authorizeSubnet b subnetID options = Err e ->
     (exists e', GetTx (backend b) subnetID = Err e' /\ e = errFetchSubnet subnetID e') \/
     (exists tx, GetTx (backend b) subnetID = Ok tx /\
        ((forall base owner, txUnsigned tx <> UnsignedCreateSubnetTx base owner) /\
           e = errWrongTxType \/
         (exists base typeID, txUnsigned tx = UnsignedCreateSubnetTx base (OtherOwner typeID)) /\
           e = errUnknownOwnerType \/
         (exists base owner, txUnsigned tx = UnsignedCreateSubnetTx base (SecpOwner owner) /\
            snd (match_ (addrs b) owner (MinIssuanceTime options)) = false) /\
           e = errInsufficientAuthorization))).
Proof.
  unfold authorizeSubnet. split.
  - intros sigs.
    destruct (GetTx (backend b) subnetID) as [[utx]|e] eqn:HG; [|discriminate].
    simpl.
    destruct utx as [| | | |base [owner|t]| | |]; try discriminate.
    destruct (match_ (addrs b) owner (MinIssuanceTime options)) as [s [|]] eqn:Hm;
      [|discriminate].
    intros [= <-]. exists base, owner. split_and!; auto.
    intros Hwf.
    destruct (Z_lt_le_dec (MinIssuanceTime options) (Locktime owner)) as [H|H].
    { rewrite match_locked in Hm by exact H. discriminate. }
    split; [exact H|].
    pose proof (match_unlocked (addrs b) owner _ Hwf H) as Hu. rewrite Hm in Hu.
    injection Hu as Hs Hok. symmetry in Hok. apply Z.leb_le in Hok.
    pose proof Hwf as (_ & [Hth0 _] & _).
    split_and!.
    + rewrite Hs, length_take. lia.
    + rewrite Hs. apply StronglySorted_take, controlledFrom_increasing.
    + intros i Hi. rewrite Hs in Hi. apply subseteq_take in Hi.
      apply elem_of_controlledFrom in Hi. destruct Hi as (k & a & -> & Hl & Ha).
      split; [lia|]. exists a. rewrite Z.add_0_l, Nat2Z.id. auto.
  - intros e.
    destruct (GetTx (backend b) subnetID) as [[utx]|e'] eqn:HG.
    + simpl. intros He. right. eexists. split; [reflexivity|]. simpl.
      destruct utx as [| | | |base [owner|t]| | |];
        try (injection He as <-; left; split; [intros ? ?; discriminate | reflexivity]).
      * destruct (match_ (addrs b) owner (MinIssuanceTime options)) as [s [|]] eqn:Hm;
          [discriminate|].
        injection He as <-. right. right. split; [|reflexivity].
        exists base, owner. rewrite Hm. auto.
      * injection He as <-. right. left. eauto.
    + intros [= <-]. left. eauto.
Qed.

Example authorizeSubnet_threshold_one :
  authorizeSubnet (subnetWallet []) subnetX noOptions = Ok [1] /\
  authorizeSubnet (subnetWallet []) chainX noOptions =
    Err (errFetchSubnet chainX (errBackend 404)).
Proof. split; reflexivity. Qed.

(** ** Errors and edge cases of [spend] *)

Lemma forEach_fixed {S A} (body : S -> A -> result S) (st : S) (l : list A) :
  (forall x, x ∈ l -> body st x = Ok st) -> forEach body st l = Ok st.
Proof.
  induction l as [|x l IH]; intros H; simpl; [reflexivity|].
  rewrite (H x) by left. simpl. apply IH. intros y Hy. apply H. right. exact Hy.
Qed.

Lemma spendPasses_Err addrs mit changeOwner utxos toBurn toStake e :
  spendPasses addrs mit changeOwner utxos toBurn toStake = Err e ->
  e = errUnknownOutputType.
Proof.
  unfold spendPasses.
  destruct (forEach (lockedVisit addrs mit) _ utxos) as [st1|e1] eqn:E1; cbn [bind].
  - intros (l1 & u & l2 & st & _ & _ & Hv)%forEach_Err_inv.
    apply unlockedVisit_Err in Hv. tauto.
  - intros [= <-]. apply forEach_Err_inv in E1.
    destruct E1 as (l1 & u & l2 & st & _ & _ & Hv).
    apply lockedVisit_Err in Hv. tauto.
Qed.

(** X4. The errors of [spend]: an error of the backend is returned as it is;
    otherwise [spend] fails with NoChangeAddress exactly when the wallet
    controls no address, whatever was asked for and whatever the UTXOs are;
    and its only other errors are UnknownOutputType and InsufficientFunds
    (with an amount to stake or to burn). *)
Theorem spend_errors (rt : Runtime) (b : builder) (toBurn toStake : gmap ID Z)
    (options : Options) :
  (forall e, UTXOs (backend b) PlatformChainID = Err e ->
             spend rt b toBurn toStake options = Err e) /\
  (forall utxos, UTXOs (backend b) PlatformChainID = Ok utxos ->
     (spend rt b toBurn toStake options = Err errNoChangeAddress <-> addrs b = ∅) /\
     (forall e, spend rt b toBurn toStake options = Err e ->
        e = errNoChangeAddress \/ e = errUnknownOutputType \/
        (exists amount assetID, e = errInsufficientFunds (needToStake amount assetID)) \/
        (exists amount assetID, e = errInsufficientFunds (needToBurn amount assetID)))).
Proof.
  unfold spend. split.
  - intros e ->. reflexivity.
  - intros utxos ->. cbn [bind].
    destruct (Peek (addrs b)) as [addr|] eqn:HP.
    + assert (Hne : addrs b <> ∅).
      { intros Hem. apply Peek_None in Hem. congruence. }
      destruct (spendPasses _ _ _ utxos toBurn toStake) as [st|e1] eqn:Hp; cbn [bind].
      * unfold checkExhausted.
        destruct (firstNonzero _) as [[k v]|]; cbn [bind].
        { split; [split; [discriminate | contradiction]|]. intros e [= <-]. eauto 10. }
        destruct (firstNonzero _) as [[k v]|]; cbn [bind].
        { split; [split; [discriminate | contradiction]|]. intros e [= <-]. eauto 10. }
        split; [split; [discriminate | contradiction]|]. discriminate.
      * apply spendPasses_Err in Hp. subst e1.
        split; [split; [discriminate | contradiction]|]. intros e [= <-]. auto.
    + apply Peek_None in HP. split; [tauto|]. intros e [= <-]. auto.
Qed.

(** X5. Asked for nothing (every entry of both maps zero, or the maps
    empty), [spend] consumes nothing and returns three empty lists, even when
    the UTXO set holds outputs it could not read. *)
Theorem spend_nothing_requested (rt : Runtime) (b : builder) (toBurn toStake : gmap ID Z)
    (options : Options) (utxos : list UTXO) :
  UTXOs (backend b) PlatformChainID = Ok utxos ->
  addrs b <> ∅ ->
  (forall assetID, get toBurn assetID = 0) ->
  (forall assetID, get toStake assetID = 0) ->
  spend rt b toBurn toStake options = Ok ([], [], []).
Proof.
  intros HU Hne HB HS.
  destruct (Peek (addrs b)) as [addr|] eqn:HP; [|apply Peek_None in HP; contradiction].
  set (st0 := mkSpendState toBurn toStake [] [] []).
  assert (Hp : spendPasses (addrs b) (MinIssuanceTime options)
                 (ChangeOwner options (defaultChangeOwner addr)) utxos toBurn toStake = Ok st0).
  { unfold spendPasses. fold st0.
    rewrite forEach_fixed; cbn [bind].
    - apply forEach_fixed. intros u _. unfold unlockedVisit. simpl. rewrite HS, HB. reflexivity.
    - intros u _. unfold lockedVisit. simpl. rewrite HS. reflexivity. }
  rewrite (spend_after_passes rt b toBurn toStake options utxos addr st0 HU HP Hp).
  rewrite (proj2 (checkExhausted_Ok rt st0)) by (split; assumption).
  reflexivity.
Qed.

Lemma spend_nothing_requested_witness :
  let b := walletA [unknownUTXO; lockedUTXO] [] in
  UTXOs (backend b) PlatformChainID = Ok [unknownUTXO; lockedUTXO] /\
  addrs b <> ∅ /\
  (forall assetID, get ({[ djtx := 0 ]} : gmap ID Z) assetID = 0) /\
  (forall assetID, get (∅ : gmap ID Z) assetID = 0) /\
  spend canonicalRuntime b {[ djtx := 0 ]} ∅ noOptions = Ok ([], [], []).
Proof.
  intros b.
  assert (Hne : addrs b <> ∅).
  { intros H. apply Peek_None in H. discriminate H. }
  assert (HB : forall assetID, get ({[ djtx := 0 ]} : gmap ID Z) assetID = 0).
  { intros a. rewrite get_singleton. destruct (decide _); reflexivity. }
  split_and!; [reflexivity | exact Hne | exact HB | exact get_empty |].
  exact (spend_nothing_requested canonicalRuntime b {[ djtx := 0 ]} ∅ noOptions
           [unknownUTXO; lockedUTXO] eq_refl Hne HB get_empty).
Defined.

(** ** What [spend] consumes *)

Section consumption.
Variables (controlled : gset ShortID) (minIssuanceTime : Z) (changeOwner : OutputOwners).
Variable utxos : list UTXO.

Local Abbreviation fromBackend :=
  (fun i => exists u, u ∈ utxos /\ spends controlled minIssuanceTime i u).

Lemma lockedVisit_spends st u st' :
  u ∈ utxos -> Forall fromBackend (inputs st) ->
  lockedVisit controlled minIssuanceTime st u = Ok st' -> Forall fromBackend (inputs st').
Proof.
  intros Hu Hall Hv.
  destruct (lockedVisit_Ok _ _ _ _ _ Hv)
    as [-> | (lt & out & sigs & Hout & Hlt & Hm & _ & _ & _ & HI & _)]; [exact Hall|].
  rewrite HI. apply Forall_app. split; [exact Hall|]. apply Forall_singleton.
  exists u. split; [exact Hu|]. unfold spends. simpl. rewrite Hout. simpl.
  split_and!; auto. exists out, sigs. split; [exact Hm|]. left. eauto.
Qed.

Lemma unlockedVisit_spends st u st' :
  u ∈ utxos -> Forall fromBackend (inputs st) ->
  unlockedVisit controlled minIssuanceTime changeOwner st u = Ok st' ->
  Forall fromBackend (inputs st').
Proof.
  intros Hu Hall Hv.
  destruct (unlockedVisit_Ok _ _ _ _ _ _ Hv)
    as [-> | (out & sigs & Hout & Hm & _ & _ & _ & HI & _)]; [exact Hall|].
  rewrite HI. apply Forall_app. split; [exact Hall|]. apply Forall_singleton.
  exists u. split; [exact Hu|]. unfold spends. simpl.
  rewrite (unlockedView_Amount _ _ _ Hout).
  split_and!; auto. exists out, sigs. split; [exact Hm|]. right. auto.
Qed.

Lemma spendPasses_spends toBurn toStake st :
  spendPasses controlled minIssuanceTime changeOwner utxos toBurn toStake = Ok st ->
  Forall fromBackend (inputs st).
Proof.
  unfold spendPasses.
  destruct (forEach (lockedVisit controlled minIssuanceTime) _ utxos) as [st1|e] eqn:E1;
    cbn [bind]; [|discriminate].
  intros E2.
  eapply (forEach_invariant (fun s => Forall fromBackend (inputs s))); [| |exact E2].
  - intros s x s'. apply unlockedVisit_spends.
  - eapply (forEach_invariant (fun s => Forall fromBackend (inputs s))); [| |exact E1].
    + intros s x s'. apply lockedVisit_spends.
    + constructor.
Qed.
End consumption.

(** X6. Every input of a successful [spend] spends a UTXO the backend
    returned for the platform chain and that the wallet matches at the
    issuance time: same id, same asset, the UTXO's whole amount, the signer
    indices [match] gave; a [StakeableLockIn] with the UTXO's lock time for a
    UTXO still locked, a plain input for any other. *)
Theorem spend_inputs_from_backend (rt : Runtime) (b : builder)
    (toBurn toStake : gmap ID Z) (options : Options)
    (ins : list TransferableInput) (change stake : list TransferableOutput) :
  spend rt b toBurn toStake options = Ok (ins, change, stake) ->
  exists utxos,
    UTXOs (backend b) PlatformChainID = Ok utxos /\
    Forall (fun i => exists u,
              u ∈ utxos /\ spends (addrs b) (MinIssuanceTime options) i u) ins.
Proof.
  unfold spend.
  destruct (UTXOs (backend b) PlatformChainID) as [utxos|e]; cbn [bind]; [|discriminate].
  destruct (Peek (addrs b)) as [addr|]; [|discriminate].
  destruct (spendPasses _ _ _ utxos toBurn toStake) as [st|e] eqn:Hp; cbn [bind];
    [|discriminate].
  destruct (checkExhausted rt st) as [[]|e]; cbn [bind]; [|discriminate].
  intros [= <- <- <-]. exists utxos. split; [reflexivity|].
  apply spendPasses_spends in Hp.
  unfold SortTransferableInputs. rewrite merge_sort_Permutation. exact Hp.
Qed.

Lemma spend_inputs_from_backend_witness :
  let b := walletA [lockedUTXO; plainUTXO 1%N djtx 10 ownerA] [] in
  spend canonicalRuntime b {[ djtx := 3 ]} {[ djtx := 12 ]} noOptions =
    Ok ([mkInput (mkUTXOID 1%N 0) djtx (TransferIn (mkTransferInput 10 [0]));
         mkInput (mkUTXOID 3%N 0) djtx (StakeableLockIn 5000 (mkTransferInput 10 [0]))],
        [plainOutput djtx 5 ownerA],
        [plainOutput djtx 2 ownerA; lockedOutput djtx 5000 10 ownerA]) /\
  exists utxos,
    UTXOs (backend b) PlatformChainID = Ok utxos /\
    Forall (fun i => exists u, u ∈ utxos /\ spends (addrs b) 1000 i u)
      [mkInput (mkUTXOID 1%N 0) djtx (TransferIn (mkTransferInput 10 [0]));
       mkInput (mkUTXOID 3%N 0) djtx (StakeableLockIn 5000 (mkTransferInput 10 [0]))].
Proof.
  intros b.
  assert (H : spend canonicalRuntime b {[ djtx := 3 ]} {[ djtx := 12 ]} noOptions =
    Ok ([mkInput (mkUTXOID 1%N 0) djtx (TransferIn (mkTransferInput 10 [0]));
         mkInput (mkUTXOID 3%N 0) djtx (StakeableLockIn 5000 (mkTransferInput 10 [0]))],
        [plainOutput djtx 5 ownerA],
        [plainOutput djtx 2 ownerA; lockedOutput djtx 5000 10 ownerA]))
    by (vm_compute; reflexivity).
  split; [exact H|].
  exact (spend_inputs_from_backend canonicalRuntime b _ _ noOptions _ _ _ H).
Defined.

(** ** Burning never touches locked funds *)

Lemma Min64_zero_wrap x : Min64 0 (wrap64 x) = 0.
Proof.
  unfold Min64, wrap64. pose proof (Z.mod_pos_bound x (2 ^ 64)).
  destruct (0 <? x mod 2 ^ 64) eqn:E; [reflexivity|]. apply Z.ltb_ge in E. lia.
Qed.

Lemma wrap64_zero : wrap64 (0 - 0) = 0.
Proof. reflexivity. Qed.

Section burnOnly.
Variables (controlled : gset ShortID) (minIssuanceTime : Z) (changeOwner : OutputOwners).

Local Abbreviation unstaked :=
  (fun st => (forall a, get (amountsToStake st) a = 0) /\ stakeOutputs st = [] /\
             Forall plainIn (inputs st) /\ Forall plainOut (changeOutputs st)).

Lemma lockedVisit_unstaked st u st' :
  unstaked st -> lockedVisit controlled minIssuanceTime st u = Ok st' -> unstaked st'.
Proof.
  intros H. unfold lockedVisit. rewrite (proj1 H). simpl. intros [= <-]. exact H.
Qed.

Lemma unlockedVisit_unstaked st u st' :
  unstaked st ->
  unlockedVisit controlled minIssuanceTime changeOwner st u = Ok st' -> unstaked st'.
Proof.
  intros (HS & HSO & HI & HC) Hv.
  destruct (unlockedVisit_Ok _ _ _ _ _ _ Hv)
    as [-> | (out & sigs & _ & _ & _ & _ & HS' & HI' & HSO' & HCO')]; [auto|].
  rewrite HS, Min64_zero_wrap in HS', HSO', HCO'. simpl in HSO'.
  split_and!.
  - intros a. rewrite HS', get_subAt, !HS. destruct (decide _); reflexivity.
  - rewrite HSO', HSO. reflexivity.
  - rewrite HI'. apply Forall_app. split; [exact HI|]. apply Forall_singleton.
    unfold plainIn. simpl. eauto.
  - rewrite HCO'. apply Forall_app. split; [exact HC|]. apply Forall_if.
    unfold plainOut, plainOutput. simpl. eauto.
Qed.

Lemma spendPasses_unstaked utxos toBurn toStake st :
  (forall a, get toStake a = 0) ->
  spendPasses controlled minIssuanceTime changeOwner utxos toBurn toStake = Ok st ->
  unstaked st.
Proof.
  intros HS. unfold spendPasses.
  destruct (forEach (lockedVisit controlled minIssuanceTime) _ utxos) as [st1|e] eqn:E1;
    cbn [bind]; [|discriminate].
  intros E2.
  eapply (forEach_invariant unstaked); [| |exact E2].
  - intros s x s' _. apply unlockedVisit_unstaked.
  - eapply (forEach_invariant unstaked); [| |exact E1].
    + intros s x s' _. apply lockedVisit_unstaked.
    + simpl. split_and!; auto.
Qed.
End burnOnly.

Lemma spend_unstaked rt b toBurn toStake options ins change stake :
  (forall a, get toStake a = 0) ->
  spend rt b toBurn toStake options = Ok (ins, change, stake) ->
  stake = [] /\ Forall plainIn ins /\ Forall plainOut change.
Proof.
  intros HS. unfold spend.
  destruct (UTXOs (backend b) PlatformChainID) as [utxos|e]; cbn [bind]; [|discriminate].
  destruct (Peek (addrs b)) as [addr|]; [|discriminate].
  destruct (spendPasses _ _ _ utxos toBurn toStake) as [st|e] eqn:Hp; cbn [bind];
    [|discriminate].
  destruct (checkExhausted rt st) as [[]|e]; cbn [bind]; [|discriminate].
  intros [= <- <- <-].
  apply spendPasses_unstaked in Hp; [|exact HS]. destruct Hp as (_ & HSO & HI & HC).
  unfold SortTransferableInputs, SortTransferableOutputs. rewrite HSO.
  split_and!; [reflexivity | |]; rewrite merge_sort_Permutation; assumption.
Qed.

Lemma importVisit_plain addrs mit dj st u st' :
  Forall plainIn (fst st) -> importVisit addrs mit dj st u = Ok st' ->
  Forall plainIn (fst st').
Proof.
  destruct st as [ins amt]. simpl. intros H. unfold importVisit.
  destruct (negb _); [intros [= <-]; exact H|].
  destruct (utxoOut u) as [out| |]; try (intros [= <-]; exact H).
  destruct (match_ addrs (Owners out) mit) as [sigs [|]]; [|intros [= <-]; exact H].
  destruct (Add64 amt (Amt out)); cbn [bind]; [|discriminate].
  intros [= <-]. simpl. apply Forall_app. split; [exact H|].
  apply Forall_singleton. unfold plainIn. simpl. eauto.
Qed.

(** X7. Funds under an active stake lock are never burned: a [spend] asked
    to stake nothing returns no stake output, only plain inputs and only plain
    change; so the transactions that only pay a fee or export (add subnet
    validator, create chain, create subnet, import, export) spend plain
    inputs only, and the outputs of their base transaction are plain. *)
Theorem fees_paid_from_unlocked_funds (rt : Runtime) (b : builder) (req : request)
    (options : Options) (tx : UnsignedTx) :
  (forall validator rewardsOwner shares, req <> AddValidator validator rewardsOwner shares) ->
  (forall validator rewardsOwner, req <> AddDelegator validator rewardsOwner) ->
  build rt b req options = Ok tx ->
  Forall plainIn (txInputs tx) /\
  exists base, txBase tx = Some base /\ Forall plainOut (Outs base).
Proof.
  intros Hv Hd. destruct req; simpl; try (exfalso; eapply Hv; reflexivity);
    try (exfalso; eapply Hd; reflexivity).
  - unfold NewAddSubnetValidatorTx.
    destruct (spend rt b _ _ options) as [[[ins change] stake]|e] eqn:Hsp; cbn [bind];
      [|discriminate].
    destruct (authorizeSubnet _ _ _); cbn [bind]; [|discriminate].
    intros [= <-]. apply spend_unstaked in Hsp; [|apply get_empty].
    destruct Hsp as (_ & HI & HC). simpl. eauto.
  - unfold NewCreateChainTx.
    destruct (spend rt b _ _ options) as [[[ins change] stake]|e] eqn:Hsp; cbn [bind];
      [|discriminate].
    destruct (authorizeSubnet _ _ _); cbn [bind]; [|discriminate].
    intros [= <-]. apply spend_unstaked in Hsp; [|apply get_empty].
    destruct Hsp as (_ & HI & HC). simpl. eauto.
  - unfold NewCreateSubnetTx.
    destruct (spend rt b _ _ options) as [[[ins change] stake]|e] eqn:Hsp; cbn [bind];
      [|discriminate].
    intros [= <-]. apply spend_unstaked in Hsp; [|apply get_empty].
    destruct Hsp as (_ & HI & HC). simpl. eauto.
  - unfold NewImportTx.
    destruct (UTXOs (backend b) sourceChainID) as [utxos|e]; cbn [bind]; [|discriminate].
    destruct (forEach _ _ utxos) as [[imported amt]|e] eqn:Hloop; cbn [bind]; [|discriminate].
    assert (Himp : Forall plainIn imported).
    { change (Forall plainIn (fst (imported, amt))).
      eapply (forEach_invariant (fun st => Forall plainIn (fst st))); [| |exact Hloop].
      - intros s x s' _. apply importVisit_plain.
      - constructor. }
    destruct (bool_decide _); [discriminate|].
    assert (Hsorted : Forall plainIn (SortTransferableInputs imported))
      by (unfold SortTransferableInputs; rewrite merge_sort_Permutation; exact Himp).
    destruct (amt <? BaseTxFee (backend b)).
    + destruct (spend rt b _ _ options) as [[[ins change] stake]|e] eqn:Hsp; cbn [bind];
        [|discriminate].
      intros [= <-]. apply spend_unstaked in Hsp; [|apply get_empty].
      destruct Hsp as (_ & HI & HC). simpl. split; [apply Forall_app; auto | eauto].
    + destruct (BaseTxFee (backend b) <? amt).
      * destruct (Peek (addrs b)); cbn [bind]; [|discriminate].
        intros [= <-]. simpl. split; [exact Hsorted|].
        eexists. split; [reflexivity|]. simpl. apply Forall_singleton.
        unfold plainOut. simpl. eauto.
      * cbn [bind]. intros [= <-]. simpl. split; [exact Hsorted|].
        eexists. split; [reflexivity|]. constructor.
  - unfold NewExportTx.
    destruct (forEach exportVisit _ outputs) as [m|e]; cbn [bind]; [|discriminate].
    destruct (spend rt b _ _ options) as [[[ins change] stake]|e] eqn:Hsp; cbn [bind];
      [|discriminate].
    intros [= <-]. apply spend_unstaked in Hsp; [|apply get_empty].
    destruct Hsp as (_ & HI & HC). simpl. eauto.
Qed.

Lemma fees_paid_from_unlocked_funds_witness :
  (forall validator rewardsOwner shares,
     Import chainX ownerA <> AddValidator validator rewardsOwner shares) /\
  (forall validator rewardsOwner, Import chainX ownerA <> AddDelegator validator rewardsOwner) /\
  build canonicalRuntime shortfallWallet (Import chainX ownerA) noOptions = Ok shortfallTx /\
  Forall plainIn (txInputs shortfallTx).
Proof.
  assert (H1 : forall validator rewardsOwner shares,
             Import chainX ownerA <> AddValidator validator rewardsOwner shares)
    by (intros; discriminate).
  assert (H2 : forall validator rewardsOwner,
             Import chainX ownerA <> AddDelegator validator rewardsOwner)
    by (intros; discriminate).
  assert (H3 : build canonicalRuntime shortfallWallet (Import chainX ownerA) noOptions =
               Ok shortfallTx) by reflexivity.
  split_and!; [exact H1 | exact H2 | exact H3 |].
  exact (proj1 (fees_paid_from_unlocked_funds canonicalRuntime shortfallWallet
                  (Import chainX ownerA) noOptions shortfallTx H1 H2 H3)).
Defined.

(** ** No output of zero value *)

Lemma Forall_if_guard {A} (P : A -> Prop) (c : bool) (x : A) :
  (c = true -> P x) -> Forall P (if c then [x] else []).
Proof. intros H. destruct c; [apply Forall_singleton; auto | constructor]. Qed.

Section positive.
Variables (controlled : gset ShortID) (minIssuanceTime : Z) (changeOwner : OutputOwners).
Variable utxos : list UTXO.
Hypothesis Hpos : Forall (fun u => 0 < Amount (utxoOut u)) utxos.

Local Abbreviation positive :=
  (fun st => wfAmounts (amountsToStake st) /\
             Forall (fun o => 0 < Amount (outOut o)) (changeOutputs st ++ stakeOutputs st)).

Lemma lockedVisit_positive st u st' :
  u ∈ utxos -> positive st ->
  lockedVisit controlled minIssuanceTime st u = Ok st' -> positive st'.
Proof.
  intros Hu [Hwf Hall] Hv. apply Forall_app in Hall. destruct Hall as [HC HS].
  destruct (lockedVisit_Ok _ _ _ _ _ Hv)
    as [-> | (lt & out & sigs & Hout & _ & _ & Hneed & _ & HS' & _ & HSO & HCO)];
    [split; [exact Hwf | apply Forall_app; auto]|].
  rewrite Forall_forall in Hpos. specialize (Hpos u Hu). rewrite Hout in Hpos. simpl in Hpos.
  pose proof (get_uint64 _ (utxoAsset u) Hwf) as [Hg _].
  split.
  - rewrite HS'. apply wfAmounts_subAt, Hwf.
  - rewrite HSO, HCO, !Forall_app. split_and!; auto.
    + apply Forall_if_guard. intros E%Z.ltb_lt. exact E.
    + apply Forall_singleton.
      change (0 < Min64 (get (amountsToStake st) (utxoAsset u)) (Amt out)).
      destruct (Min64_cases (get (amountsToStake st) (utxoAsset u)) (Amt out)); lia.
Qed.

Lemma unlockedVisit_positive st u st' :
  positive st ->
  unlockedVisit controlled minIssuanceTime changeOwner st u = Ok st' -> positive st'.
Proof.
  intros [Hwf Hall] Hv. apply Forall_app in Hall. destruct Hall as [HC HS].
  destruct (unlockedVisit_Ok _ _ _ _ _ _ Hv)
    as [-> | (out & sigs & _ & _ & _ & _ & HS' & _ & HSO & HCO)];
    [split; [exact Hwf | apply Forall_app; auto]|].
  split.
  - rewrite HS'. apply wfAmounts_subAt, Hwf.
  - rewrite HSO, HCO, !Forall_app. split_and!; auto;
      apply Forall_if_guard; intros E%Z.ltb_lt; exact E.
Qed.

Lemma spendPasses_positive toBurn toStake st :
  wfAmounts toStake ->
  spendPasses controlled minIssuanceTime changeOwner utxos toBurn toStake = Ok st ->
  Forall (fun o => 0 < Amount (outOut o)) (changeOutputs st ++ stakeOutputs st).
Proof.
  intros Hwf. unfold spendPasses.
  destruct (forEach (lockedVisit controlled minIssuanceTime) _ utxos) as [st1|e] eqn:E1;
    cbn [bind]; [|discriminate].
  intros E2.
  apply (forEach_invariant positive _ _ _ _
           (fun s x s' _ => unlockedVisit_positive s x s')) in E2; [apply E2|].
  apply (forEach_invariant positive _ _ _ _ lockedVisit_positive) in E1; [exact E1|].
  simpl. split; [exact Hwf | constructor].
Qed.
End positive.

(** X8. [spend] makes no output of zero value: when every UTXO of the
    backend holds a positive amount, every change output and every stake
    output of a successful [spend] holds a positive amount. *)
Theorem spend_outputs_positive (rt : Runtime) (b : builder) (toBurn toStake : gmap ID Z)
    (options : Options) (utxos : list UTXO)
    (ins : list TransferableInput) (change stake : list TransferableOutput) :
  UTXOs (backend b) PlatformChainID = Ok utxos ->
  Forall (fun u => 0 < Amount (utxoOut u)) utxos ->
  wfAmounts toStake ->
  spend rt b toBurn toStake options = Ok (ins, change, stake) ->
  Forall (fun o => 0 < Amount (outOut o)) (change ++ stake).
Proof.
  intros HU Hpos Hwf. unfold spend. rewrite HU. cbn [bind].
  destruct (Peek (addrs b)) as [addr|]; [|discriminate].
  destruct (spendPasses _ _ _ utxos toBurn toStake) as [st|e] eqn:Hp; cbn [bind];
    [|discriminate].
  destruct (checkExhausted rt st) as [[]|e]; cbn [bind]; [|discriminate].
  intros [= <- <- <-].
  apply spendPasses_positive in Hp; auto.
  unfold SortTransferableOutputs. rewrite !merge_sort_Permutation. exact Hp.
Qed.

(** A locked UTXO of amount zero, asked to stake: the one case of an output
    of zero value. *)
Example zero_utxo_gives_zero_stake_output :
  lockedVisit {[ addrA ]} 1000 (mkSpendState ∅ {[ djtx := 6 ]} [] [] [])
    (mkUTXO (mkUTXOID 3%N 0) djtx
       (StakeableLockOut 5000 (TransferOut (mkTransferOutput 0 ownerA)))) =
  Ok {| amountsToBurn := ∅;
        amountsToStake := {[ djtx := 6 ]};
        inputs := [mkInput (mkUTXOID 3%N 0) djtx
                     (StakeableLockIn 5000 (mkTransferInput 0 [0]))];
        changeOutputs := [];
        stakeOutputs := [lockedOutput djtx 5000 0 ownerA] |}.
Proof. vm_compute. reflexivity. Qed.

Lemma spend_outputs_positive_witness :
  let utxos := [lockedUTXO; plainUTXO 1%N djtx 10 ownerA] in
  let b := walletA utxos [] in
  UTXOs (backend b) PlatformChainID = Ok utxos /\
  Forall (fun u => 0 < Amount (utxoOut u)) utxos /\
  wfAmounts ({[ djtx := 12 ]} : gmap ID Z) /\
  spend canonicalRuntime b {[ djtx := 3 ]} {[ djtx := 12 ]} noOptions =
    Ok ([mkInput (mkUTXOID 1%N 0) djtx (TransferIn (mkTransferInput 10 [0]));
         mkInput (mkUTXOID 3%N 0) djtx (StakeableLockIn 5000 (mkTransferInput 10 [0]))],
        [plainOutput djtx 5 ownerA],
        [plainOutput djtx 2 ownerA; lockedOutput djtx 5000 10 ownerA]) /\
  Forall (fun o => 0 < Amount (outOut o))
    ([plainOutput djtx 5 ownerA] ++
     [plainOutput djtx 2 ownerA; lockedOutput djtx 5000 10 ownerA]).
Proof.
  intros utxos b.
  assert (Hpos : Forall (fun u => 0 < Amount (utxoOut u)) utxos)
    by (repeat constructor).
  assert (Hwf : wfAmounts ({[ djtx := 12 ]} : gmap ID Z))
    by (apply wfAmounts_singleton; unfold is_uint64, MaxUint64; lia).
  assert (H : spend canonicalRuntime b {[ djtx := 3 ]} {[ djtx := 12 ]} noOptions =
    Ok ([mkInput (mkUTXOID 1%N 0) djtx (TransferIn (mkTransferInput 10 [0]));
         mkInput (mkUTXOID 3%N 0) djtx (StakeableLockIn 5000 (mkTransferInput 10 [0]))],
        [plainOutput djtx 5 ownerA],
        [plainOutput djtx 2 ownerA; lockedOutput djtx 5000 10 ownerA]))
    by (vm_compute; reflexivity).
  split_and!; [reflexivity | exact Hpos | exact Hwf | exact H |].
  exact (spend_outputs_positive canonicalRuntime b _ _ noOptions utxos _ _ _
           eq_refl Hpos Hwf H).
Defined.

(** ** Each UTXO is spent at most once *)

Lemma forEach_invariant_prefix {S A} (P : list A -> S -> Prop)
    (body : S -> A -> result S) l st st' :
  P [] st ->
  (forall pre x s s', P pre s -> body s x = Ok s' -> P (pre ++ [x]) s') ->
  forEach body st l = Ok st' -> P l st'.
Proof.
  intros H0 Hstep.
  assert (Hgen : forall pre s, P pre s -> forEach body s l = Ok st' -> P (pre ++ l) st').
  { induction l as [|x l IH]; intros pre s HP Hrun; simpl in Hrun.
    - injection Hrun as <-. rewrite app_nil_r. exact HP.
    - destruct (body s x) as [s1|e] eqn:E; simpl in Hrun; [|discriminate].
      rewrite (cons_middle x pre l), app_assoc. eapply IH; eauto. }
  apply (Hgen [] st H0).
Qed.

Global Instance stillLocked_dec mit u : Decision (stillLocked mit u).
Proof. unfold stillLocked. apply _. Defined.

Section once.
Variables (controlled : gset ShortID) (minIssuanceTime : Z) (changeOwner : OutputOwners).

Local Abbreviation lockedIDs l :=
  (utxoID <$> filter (stillLocked minIssuanceTime) l).
Local Abbreviation otherIDs l :=
  (utxoID <$> filter (fun u => ~ stillLocked minIssuanceTime u) l).

Lemma lockedVisit_ids pre u st st' :
  (inUTXOID <$> inputs st) `sublist_of` lockedIDs pre ->
  lockedVisit controlled minIssuanceTime st u = Ok st' ->
  (inUTXOID <$> inputs st') `sublist_of` lockedIDs (pre ++ [u]).
Proof.
  intros Hsub Hv. rewrite filter_app, fmap_app.
  destruct (lockedVisit_Ok _ _ _ _ _ Hv)
    as [-> | (lt & out & sigs & Hout & Hlt & _ & _ & _ & _ & HI & _)].
  - apply sublist_inserts_r. exact Hsub.
  - rewrite HI, fmap_app. apply sublist_app; [exact Hsub|].
    rewrite filter_cons_True; [reflexivity|].
    unfold stillLocked. rewrite Hout. simpl.
    rewrite (proj2 (Z.ltb_lt _ _) Hlt). eauto.
Qed.

Lemma unlockedVisit_ids pre u st0 st st' :
  (exists l2, inputs st = inputs st0 ++ l2 /\
              (inUTXOID <$> l2) `sublist_of` otherIDs pre) ->
  unlockedVisit controlled minIssuanceTime changeOwner st u = Ok st' ->
  exists l2, inputs st' = inputs st0 ++ l2 /\
             (inUTXOID <$> l2) `sublist_of` otherIDs (pre ++ [u]).
Proof.
  intros (l2 & Hin & Hsub) Hv.
  destruct (unlockedVisit_Ok _ _ _ _ _ _ Hv)
    as [-> | (out & sigs & Hout & _ & _ & _ & _ & HI & _)].
  - exists l2. split; [exact Hin|].
    rewrite filter_app, fmap_app. apply sublist_inserts_r. exact Hsub.
  - eexists (l2 ++ [_]). rewrite HI, Hin, <- app_assoc. split; [reflexivity|].
    rewrite filter_app, !fmap_app. apply sublist_app; [exact Hsub|].
    rewrite filter_cons_True; [reflexivity|].
    unfold stillLocked. intros Hact. apply unlockedView_activeLock in Hact. congruence.
Qed.

Lemma spendPasses_ids utxos toBurn toStake st :
  spendPasses controlled minIssuanceTime changeOwner utxos toBurn toStake = Ok st ->
  (inUTXOID <$> inputs st) `sublist_of` (lockedIDs utxos ++ otherIDs utxos).
Proof.
  unfold spendPasses.
  destruct (forEach (lockedVisit controlled minIssuanceTime) _ utxos) as [st1|e] eqn:E1;
    cbn [bind]; [|discriminate].
  intros E2.
  apply (forEach_invariant_prefix
           (fun pre s => (inUTXOID <$> inputs s) `sublist_of` lockedIDs pre)) in E1;
    [|constructor | intros pre x s s'; apply lockedVisit_ids].
  apply (forEach_invariant_prefix
           (fun pre s => exists l2, inputs s = inputs st1 ++ l2 /\
                                    (inUTXOID <$> l2) `sublist_of` otherIDs pre)) in E2;
    [|exists []; rewrite app_nil_r; split; [reflexivity | constructor]
     |intros pre x s s'; apply unlockedVisit_ids].
  destruct E2 as (l2 & -> & H2). rewrite fmap_app. apply sublist_app; assumption.
Qed.
End once.

(** X9. [spend] never spends a UTXO twice: when the UTXOs the backend
    returns have distinct ids, so have the inputs of a successful [spend]; and
    there are never more inputs than UTXOs. *)
Theorem spend_no_double_spend (rt : Runtime) (b : builder) (toBurn toStake : gmap ID Z)
    (options : Options) (utxos : list UTXO)
    (ins : list TransferableInput) (change stake : list TransferableOutput) :
  UTXOs (backend b) PlatformChainID = Ok utxos ->
  spend rt b toBurn toStake options = Ok (ins, change, stake) ->
  (length ins <= length utxos)%nat /\
  (NoDup (utxoID <$> utxos) -> NoDup (inUTXOID <$> ins)).
Proof.
  intros HU. unfold spend. rewrite HU. cbn [bind].
  destruct (Peek (addrs b)) as [addr|]; [|discriminate].
  destruct (spendPasses _ _ _ utxos toBurn toStake) as [st|e] eqn:Hp; cbn [bind];
    [|discriminate].
  destruct (checkExhausted rt st) as [[]|e]; cbn [bind]; [|discriminate].
  intros [= <- <- <-].
  apply spendPasses_ids in Hp.
  assert (Hperm :
    (utxoID <$> filter (stillLocked (MinIssuanceTime options)) utxos) ++
    (utxoID <$> filter (fun u => ~ stillLocked (MinIssuanceTime options) u) utxos)
    ≡ₚ utxoID <$> utxos).
  { rewrite <- fmap_app. apply fmap_Permutation, filter_app_complement. }
  unfold SortTransferableInputs. split.
  - rewrite merge_sort_Permutation.
    apply sublist_length in Hp. rewrite Hperm, !length_fmap in Hp. exact Hp.
  - intros Hnd. rewrite merge_sort_Permutation.
    eapply sublist_NoDup; [|exact Hp]. rewrite Hperm. exact Hnd.
Qed.

Lemma spend_no_double_spend_witness :
  let utxos := [lockedUTXO; plainUTXO 1%N djtx 10 ownerA] in
  let b := walletA utxos [] in
  let ins := [mkInput (mkUTXOID 1%N 0) djtx (TransferIn (mkTransferInput 10 [0]));
              mkInput (mkUTXOID 3%N 0) djtx
                (StakeableLockIn 5000 (mkTransferInput 10 [0]))] in
  UTXOs (backend b) PlatformChainID = Ok utxos /\
  spend canonicalRuntime b {[ djtx := 3 ]} {[ djtx := 12 ]} noOptions =
    Ok (ins, [plainOutput djtx 5 ownerA],
        [plainOutput djtx 2 ownerA; lockedOutput djtx 5000 10 ownerA]) /\
  (length ins <= length utxos)%nat.
Proof.
  intros utxos b ins.
  assert (H : spend canonicalRuntime b {[ djtx := 3 ]} {[ djtx := 12 ]} noOptions =
    Ok (ins, [plainOutput djtx 5 ownerA],
        [plainOutput djtx 2 ownerA; lockedOutput djtx 5000 10 ownerA]))
    by (vm_compute; reflexivity).
  split_and!; [reflexivity | exact H |].
  exact (proj1 (spend_no_double_spend canonicalRuntime b _ _ noOptions utxos _ _ _
                  eq_refl H)).
Defined.

(** ** [spend] needs the funds *)

Lemma totalFunds_snoc f pre u : totalFunds f (pre ++ [u]) = totalFunds f pre + f u.
Proof.
  unfold totalFunds. induction pre as [|x pre IH]; simpl; [lia|]. rewrite IH. lia.
Qed.

Section funds.
Variables (controlled : gset ShortID) (minIssuanceTime : Z) (changeOwner : OutputOwners).
Variable assetID : ID.

Local Abbreviation offeredLocked := (lockedFunds controlled minIssuanceTime assetID).
Local Abbreviation offeredUnlocked := (unlockedFunds controlled minIssuanceTime assetID).

Lemma lockedFunds_nonneg u : wfUTXO u -> 0 <= offeredLocked u.
Proof.
  unfold wfUTXO, lockedFunds, is_uint64.
  destruct (utxoOut u) as [out|lt [out| |]|]; simpl; try lia.
  destruct (_ && _); lia.
Qed.

Lemma unlockedFunds_nonneg u : wfUTXO u -> 0 <= offeredUnlocked u.
Proof.
  unfold wfUTXO, unlockedFunds, is_uint64.
  destruct (unlockedView minIssuanceTime (utxoOut u)) as [[out| |]|] eqn:E; try lia.
  rewrite (unlockedView_Amount _ _ _ E). destruct (_ && _); lia.
Qed.

(** A visit of the first loop lowers the stake requirement of the asset by
    no more than what the UTXO offers, and leaves the burn map alone. *)
Lemma lockedVisit_funds st u st' :
  wfUTXO u -> wfAmounts (amountsToStake st) ->
  lockedVisit controlled minIssuanceTime st u = Ok st' ->
  wfAmounts (amountsToStake st') /\ amountsToBurn st' = amountsToBurn st /\
  0 <= get (amountsToStake st) assetID - get (amountsToStake st') assetID
    <= offeredLocked u.
Proof.
  intros Hu Hs Hv. pose proof (lockedFunds_nonneg u Hu) as Hnn.
  destruct (lockedVisit_Ok _ _ _ _ _ Hv)
    as [-> | (lt & out & sigs & Hout & Hlt & Hm & Hneed & HB & HS & _)];
    [split_and!; auto; lia|].
  unfold wfUTXO in Hu. rewrite Hout in Hu. simpl in Hu.
  pose proof (get_uint64 _ (utxoAsset u) Hs) as Hg.
  pose proof (Min64_le_l (get (amountsToStake st) (utxoAsset u)) (Amt out)).
  pose proof (Min64_le_r (get (amountsToStake st) (utxoAsset u)) (Amt out)).
  assert (0 <= Min64 (get (amountsToStake st) (utxoAsset u)) (Amt out))
    by (apply Min64_nonneg; unfold is_uint64 in *; lia).
  assert (HL : offeredLocked u = if decide (utxoAsset u = assetID) then Amt out else 0).
  { unfold lockedFunds. rewrite Hout, Hm, (proj2 (Z.ltb_lt _ _) Hlt). simpl.
    destruct (decide (utxoAsset u = assetID));
      [rewrite bool_decide_eq_true_2 | rewrite bool_decide_eq_false_2]; auto. }
  rewrite HL, HS, get_subAt, sub64_small by (auto; lia).
  split_and!; [apply wfAmounts_subAt, Hs | exact HB | |];
    destruct (decide (utxoAsset u = assetID)) as [<-|]; lia.
Qed.

(** A visit of the second loop lowers the two requirements of the asset
    together by no more than what the UTXO offers. *)
Lemma unlockedVisit_funds st u st' :
  wfUTXO u -> wfAmounts (amountsToBurn st) -> wfAmounts (amountsToStake st) ->
  unlockedVisit controlled minIssuanceTime changeOwner st u = Ok st' ->
  wfAmounts (amountsToBurn st') /\ wfAmounts (amountsToStake st') /\
  0 <= get (amountsToBurn st) assetID - get (amountsToBurn st') assetID /\
  0 <= get (amountsToStake st) assetID - get (amountsToStake st') assetID /\
  (get (amountsToBurn st) assetID - get (amountsToBurn st') assetID) +
  (get (amountsToStake st) assetID - get (amountsToStake st') assetID)
    <= offeredUnlocked u.
Proof.
  intros Hu Hb Hs Hv. pose proof (unlockedFunds_nonneg u Hu) as Hnn.
  destruct (unlockedVisit_Ok _ _ _ _ _ _ Hv)
    as [-> | (out & sigs & Hout & Hm & _ & HB & HS & _)];
    [split_and!; auto; lia|].
  unfold wfUTXO in Hu. rewrite (unlockedView_Amount _ _ _ Hout) in Hu.
  pose proof (get_uint64 _ (utxoAsset u) Hs) as Hgs.
  pose proof (get_uint64 _ (utxoAsset u) Hb) as Hgb.
  set (needS := get (amountsToStake st) (utxoAsset u)) in *.
  set (needB := get (amountsToBurn st) (utxoAsset u)) in *.
  pose proof (Min64_le_l needB (Amt out)).
  pose proof (Min64_le_r needB (Amt out)).
  assert (0 <= Min64 needB (Amt out))
    by (apply Min64_nonneg; unfold is_uint64 in *; lia).
  set (bn := Min64 needB (Amt out)) in *.
  rewrite (sub64_small (Amt out) bn) in HS by (auto; lia).
  pose proof (Min64_le_l needS (Amt out - bn)).
  pose proof (Min64_le_r needS (Amt out - bn)).
  assert (0 <= Min64 needS (Amt out - bn))
    by (apply Min64_nonneg; unfold is_uint64 in *; lia).
  set (s := Min64 needS (Amt out - bn)) in *.
  assert (HU : offeredUnlocked u = if decide (utxoAsset u = assetID) then Amt out else 0).
  { unfold unlockedFunds. rewrite Hout, Hm. simpl.
    destruct (decide (utxoAsset u = assetID));
      [rewrite bool_decide_eq_true_2 | rewrite bool_decide_eq_false_2]; auto. }
  rewrite HU, HB, HS, !get_subAt.
  split_and!; try (apply wfAmounts_subAt; assumption);
    destruct (decide (utxoAsset u = assetID)) as [<-|]; fold needS needB;
    rewrite ?(sub64_small needS s), ?(sub64_small needB bn) by (auto; lia); lia.
Qed.

Lemma spendPasses_funds utxos toBurn toStake st :
  Forall wfUTXO utxos -> wfAmounts toBurn -> wfAmounts toStake ->
  spendPasses controlled minIssuanceTime changeOwner utxos toBurn toStake = Ok st ->
  get toBurn assetID - get (amountsToBurn st) assetID
    <= totalFunds offeredUnlocked utxos /\
  (get toBurn assetID - get (amountsToBurn st) assetID) +
  (get toStake assetID - get (amountsToStake st) assetID)
    <= totalFunds offeredLocked utxos + totalFunds offeredUnlocked utxos.
Proof.
  intros Hwf Hb Hs. unfold spendPasses.
  destruct (forEach (lockedVisit controlled minIssuanceTime) _ utxos) as [st1|e] eqn:E1;
    cbn [bind]; [|discriminate].
  intros E2.
  set (P1 := fun pre s => Forall wfUTXO pre ->
          wfAmounts (amountsToStake s) /\ amountsToBurn s = toBurn /\
          0 <= get toStake assetID - get (amountsToStake s) assetID
            <= totalFunds offeredLocked pre).
  assert (H1 : P1 utxos st1).
  { eapply (forEach_invariant_prefix P1); [| |exact E1]; unfold P1.
    - intros _. simpl. split_and!; auto; unfold totalFunds; simpl; lia.
    - intros pre x s s' IH Hv Hall. apply Forall_app in Hall. destruct Hall as [Hpre Hx].
      rewrite Forall_singleton in Hx. destruct (IH Hpre) as (Hws & HB & I1).
      destruct (lockedVisit_funds s x s' Hx Hws Hv) as (Hws' & HB' & D1).
      rewrite totalFunds_snoc. split_and!; auto; [congruence | lia | lia]. }
  destruct (H1 Hwf) as (Hs1 & HB1 & I1).
  set (P2 := fun pre s => Forall wfUTXO pre ->
          wfAmounts (amountsToBurn s) /\ wfAmounts (amountsToStake s) /\
          0 <= get toBurn assetID - get (amountsToBurn s) assetID /\
          0 <= get (amountsToStake st1) assetID - get (amountsToStake s) assetID /\
          (get toBurn assetID - get (amountsToBurn s) assetID) +
          (get (amountsToStake st1) assetID - get (amountsToStake s) assetID)
            <= totalFunds offeredUnlocked pre).
  assert (H2 : P2 utxos st).
  { eapply (forEach_invariant_prefix P2); [| |exact E2]; unfold P2.
    - intros _. rewrite HB1. split_and!; auto; unfold totalFunds; simpl; lia.
    - intros pre x s s' IH Hv Hall. apply Forall_app in Hall. destruct Hall as [Hpre Hx].
      rewrite Forall_singleton in Hx. destruct (IH Hpre) as (Hwb & Hws & J1 & J2 & J3).
      destruct (unlockedVisit_funds s x s' Hx Hwb Hws Hv) as (Hwb' & Hws' & D1 & D2 & D3).
      rewrite totalFunds_snoc. split_and!; auto; lia. }
  destruct (H2 Hwf) as (_ & _ & J1 & J2 & J3). lia.
Qed.
End funds.

(** X10. [spend] succeeds only with the funds for it: for every asset, the
    amount to burn is at most what the matched unlocked UTXOs (plain, or with
    a lock time that has passed) of the asset hold, and the amounts to burn
    and to stake together are at most what all the matched UTXOs of the asset
    hold.  So a wallet short of either gets an error, never a transaction. *)
Theorem spend_needs_funds (rt : Runtime) (b : builder) (toBurn toStake : gmap ID Z)
    (options : Options) (utxos : list UTXO)
    (ins : list TransferableInput) (change stake : list TransferableOutput) :
  UTXOs (backend b) PlatformChainID = Ok utxos ->
  Forall wfUTXO utxos -> wfAmounts toBurn -> wfAmounts toStake ->
  spend rt b toBurn toStake options = Ok (ins, change, stake) ->
  forall assetID,
    get toBurn assetID <=
      totalFunds (unlockedFunds (addrs b) (MinIssuanceTime options) assetID) utxos /\
    get toBurn assetID + get toStake assetID <=
      totalFunds (lockedFunds (addrs b) (MinIssuanceTime options) assetID) utxos +
      totalFunds (unlockedFunds (addrs b) (MinIssuanceTime options) assetID) utxos.
Proof.
  intros HU Hwf Hb Hs. unfold spend. rewrite HU. cbn [bind].
  destruct (Peek (addrs b)) as [addr|]; [|discriminate].
  destruct (spendPasses _ _ _ utxos toBurn toStake) as [st|e] eqn:Hp; cbn [bind];
    [|discriminate].
  destruct (checkExhausted rt st) as [[]|e] eqn:Hc; cbn [bind]; [|discriminate].
  intros _ a. apply checkExhausted_Ok in Hc. destruct Hc as [HzS HzB].
  pose proof (spendPasses_funds _ _ _ a utxos toBurn toStake st Hwf Hb Hs Hp) as [H1 H2].
  rewrite HzS, HzB in *. lia.
Qed.

Lemma spend_needs_funds_witness :
  let utxos := [lockedUTXO; plainUTXO 1%N djtx 10 ownerA] in
  let b := walletA utxos [] in
  UTXOs (backend b) PlatformChainID = Ok utxos /\
  Forall wfUTXO utxos /\
  wfAmounts ({[ djtx := 3 ]} : gmap ID Z) /\ wfAmounts ({[ djtx := 12 ]} : gmap ID Z) /\
  spend canonicalRuntime b {[ djtx := 3 ]} {[ djtx := 12 ]} noOptions =
    Ok ([mkInput (mkUTXOID 1%N 0) djtx (TransferIn (mkTransferInput 10 [0]));
         mkInput (mkUTXOID 3%N 0) djtx (StakeableLockIn 5000 (mkTransferInput 10 [0]))],
        [plainOutput djtx 5 ownerA],
        [plainOutput djtx 2 ownerA; lockedOutput djtx 5000 10 ownerA]) /\
  totalFunds (lockedFunds (addrs b) 1000 djtx) utxos = 10 /\
  totalFunds (unlockedFunds (addrs b) 1000 djtx) utxos = 10 /\
  get ({[ djtx := 3 ]} : gmap ID Z) djtx <=
    totalFunds (unlockedFunds (addrs b) (MinIssuanceTime noOptions) djtx) utxos.
Proof.
  intros utxos b.
  assert (Hwf : Forall wfUTXO utxos).
  { apply Forall_cons_2; [|apply Forall_cons_2; [|apply Forall_nil_2]];
      unfold wfUTXO, is_uint64, MaxUint64; simpl; lia. }
  assert (Hb : wfAmounts ({[ djtx := 3 ]} : gmap ID Z))
    by (apply wfAmounts_singleton; unfold is_uint64, MaxUint64; lia).
  assert (Hs : wfAmounts ({[ djtx := 12 ]} : gmap ID Z))
    by (apply wfAmounts_singleton; unfold is_uint64, MaxUint64; lia).
  assert (H : spend canonicalRuntime b {[ djtx := 3 ]} {[ djtx := 12 ]} noOptions =
    Ok ([mkInput (mkUTXOID 1%N 0) djtx (TransferIn (mkTransferInput 10 [0]));
         mkInput (mkUTXOID 3%N 0) djtx (StakeableLockIn 5000 (mkTransferInput 10 [0]))],
        [plainOutput djtx 5 ownerA],
        [plainOutput djtx 2 ownerA; lockedOutput djtx 5000 10 ownerA]))
    by (vm_compute; reflexivity).
  split_and!; [reflexivity | exact Hwf | exact Hb | exact Hs | exact H
              | reflexivity | reflexivity |].
  exact (proj1 (spend_needs_funds canonicalRuntime b _ _ noOptions utxos _ _ _
                  eq_refl Hwf Hb Hs H djtx)).
Defined.

(** ** What the assemblers build *)

(** X11. The stake of an add-validator or add-delegator transaction is the
    validator's weight: its stake outputs hold exactly [Wght] of the native
    asset and nothing of any other asset, and its inputs pay for its outputs
    and its stake with nothing burned. *)
Theorem stake_is_weight (rt : Runtime) (b : builder) (validator : Validator)
    (rewardsOwner : OutputOwners) (shares : Z) (options : Options) :
  wfBackend (backend b) -> is_uint64 (Wght validator) ->
  (forall tx,
     NewAddValidatorTx rt b validator rewardsOwner shares options = Ok tx ->
     exists base stake,
       tx = UnsignedAddValidatorTx base validator stake (sortOwnerAddrs rewardsOwner) shares /\
       sumOut (DJTXAssetID (backend b)) stake = Wght validator /\
       (forall assetID, assetID <> DJTXAssetID (backend b) -> sumOut assetID stake = 0) /\
       (forall assetID,
          sumIn assetID (Ins base) = sumOut assetID (Outs base) + sumOut assetID stake)) /\
  (forall tx,
     NewAddDelegatorTx rt b validator rewardsOwner options = Ok tx ->
     exists base stake,
       tx = UnsignedAddDelegatorTx base validator stake (sortOwnerAddrs rewardsOwner) /\
       sumOut (DJTXAssetID (backend b)) stake = Wght validator /\
       (forall assetID, assetID <> DJTXAssetID (backend b) -> sumOut assetID stake = 0) /\
       (forall assetID,
          sumIn assetID (Ins base) = sumOut assetID (Outs base) + sumOut assetID stake)).
Proof.
  intros Hb Hw.
  assert (Hsp : forall ins change stake,
            spend rt b ∅ {[ DJTXAssetID (backend b) := Wght validator ]} options =
              Ok (ins, change, stake) ->
            sumOut (DJTXAssetID (backend b)) stake = Wght validator /\
            (forall a, a <> DJTXAssetID (backend b) -> sumOut a stake = 0) /\
            (forall a, sumIn a ins = sumOut a change + sumOut a stake)).
  { intros ins change stake Hsp.
    pose proof (spend_conserves_wf rt b options Hb _ _ _ _ _
                  wfAmounts_empty (wfAmounts_singleton _ _ Hw) Hsp) as Hc.
    split_and!.
    - destruct (Hc (DJTXAssetID (backend b))) as [_ H2].
      rewrite H2, get_singleton. destruct (decide _); [reflexivity | contradiction].
    - intros a Ha. destruct (Hc a) as [_ H2].
      rewrite H2, get_singleton. destruct (decide _); [congruence | reflexivity].
    - intros a. destruct (Hc a) as [H1 _]. rewrite H1, get_empty. lia. }
  split; intros tx.
  - unfold NewAddValidatorTx.
    destruct (spend rt b _ _ options) as [[[ins change] stake]|e] eqn:E; cbn [bind];
      [|discriminate].
    intros [= <-]. eexists _, _. split; [reflexivity|]. apply Hsp. reflexivity.
  - unfold NewAddDelegatorTx.
    destruct (spend rt b _ _ options) as [[[ins change] stake]|e] eqn:E; cbn [bind];
      [|discriminate].
    intros [= <-]. eexists _, _. split; [reflexivity|]. apply Hsp. reflexivity.
Qed.

Lemma stake_is_weight_witness :
  wfBackend (backend stakingWallet) /\ is_uint64 (Wght validator12) /\
  NewAddValidatorTx canonicalRuntime stakingWallet validator12
    {| Locktime := 0; Threshold := 1; Addrs := [addrB; addrA] |} 30000 noOptions =
    Ok validatorTx /\
  exists base stake,
    validatorTx =
      UnsignedAddValidatorTx base validator12 stake
        (sortOwnerAddrs {| Locktime := 0; Threshold := 1; Addrs := [addrB; addrA] |}) 30000 /\
    sumOut (DJTXAssetID (backend stakingWallet)) stake = Wght validator12 /\
    (forall assetID, assetID <> DJTXAssetID (backend stakingWallet) ->
                     sumOut assetID stake = 0) /\
    (forall assetID,
       sumIn assetID (Ins base) = sumOut assetID (Outs base) + sumOut assetID stake).
Proof.
  assert (Hb : wfBackend (backend stakingWallet)).
  { apply wfBackend_backendOf; [|constructor].
    apply Forall_cons_2; [|apply Forall_cons_2; [|apply Forall_nil_2]];
      unfold wfUTXO, is_uint64, MaxUint64; simpl; lia. }
  assert (Hw : is_uint64 (Wght validator12))
    by (unfold is_uint64, MaxUint64; simpl; lia).
  assert (H : NewAddValidatorTx canonicalRuntime stakingWallet validator12
                {| Locktime := 0; Threshold := 1; Addrs := [addrB; addrA] |} 30000 noOptions =
              Ok validatorTx) by (vm_compute; reflexivity).
  split_and!; [exact Hb | exact Hw | exact H |].
  exact (proj1 (stake_is_weight canonicalRuntime stakingWallet validator12 _ 30000 noOptions
                  Hb Hw) validatorTx H).
Defined.

Lemma authorizeSubnet_Ok b subnetID options sigs :
  authorizeSubnet b subnetID options = Ok sigs ->
  exists base owner,
    GetTx (backend b) subnetID = Ok (mkTx (UnsignedCreateSubnetTx base (SecpOwner owner))) /\
    match_ (addrs b) owner (MinIssuanceTime options) = (sigs, true).
Proof.
  unfold authorizeSubnet.
  destruct (GetTx (backend b) subnetID) as [[utx]|e]; [|discriminate]. simpl.
  destruct utx as [| | | |base [owner|t]| | |]; try discriminate.
  destruct (match_ (addrs b) owner (MinIssuanceTime options)) as [s [|]] eqn:Hm;
    [|discriminate].
  intros [= <-]. eauto.
Qed.

(** X12. A subnet transaction is built only with the authorisation of the
    subnet: an add-subnet-validator or create-chain transaction that the
    builder returns carries, as its [SubnetAuth], the indices [match] gave for
    the owners of the subnet-creation transaction the backend holds under the
    subnet's id, and those owners are satisfied. *)
Theorem subnet_transactions_authorized (rt : Runtime) (b : builder) (options : Options) :
  (forall validator tx,
     NewAddSubnetValidatorTx rt b validator options = Ok tx ->
     exists base auth sbase owner,
       tx = UnsignedAddSubnetValidatorTx base validator auth /\
       GetTx (backend b) (Subnet validator) =
         Ok (mkTx (UnsignedCreateSubnetTx sbase (SecpOwner owner))) /\
       match_ (addrs b) owner (MinIssuanceTime options) = (auth, true)) /\
  (forall subnetID genesis vmID fxIDs chainName tx,
     NewCreateChainTx rt b subnetID genesis vmID fxIDs chainName options = Ok tx ->
     exists base auth sbase owner,
       tx = UnsignedCreateChainTx base subnetID chainName vmID (SortIDs fxIDs) genesis auth /\
       GetTx (backend b) subnetID =
         Ok (mkTx (UnsignedCreateSubnetTx sbase (SecpOwner owner))) /\
       match_ (addrs b) owner (MinIssuanceTime options) = (auth, true)).
Proof.
  split.
  - intros validator tx. unfold NewAddSubnetValidatorTx.
    destruct (spend rt b _ _ options) as [[[ins change] stake]|e]; cbn [bind];
      [|discriminate].
    destruct (authorizeSubnet b (Subnet validator) options) as [auth|e] eqn:Ha;
      cbn [bind]; [|discriminate].
    intros [= <-]. apply authorizeSubnet_Ok in Ha. destruct Ha as (sbase & owner & HG & Hm).
    eexists _, auth, sbase, owner. auto.
  - intros subnetID genesis vmID fxIDs chainName tx. unfold NewCreateChainTx.
    destruct (spend rt b _ _ options) as [[[ins change] stake]|e]; cbn [bind];
      [|discriminate].
    destruct (authorizeSubnet b subnetID options) as [auth|e] eqn:Ha;
      cbn [bind]; [|discriminate].
    intros [= <-]. apply authorizeSubnet_Ok in Ha. destruct Ha as (sbase & owner & HG & Hm).
    eexists _, auth, sbase, owner. auto.
Qed.

(** A wallet of A with 150 of the native asset creates a chain in the subnet
    A and B own: the fee of 100 is burned and A signs as owner number 1. *)
Example create_chain_in_owned_subnet :
  NewCreateChainTx canonicalRuntime (subnetWallet [plainUTXO 1%N djtx 150 ownerA])
    subnetX [] 4%N [8%N; 6%N] [] noOptions =
  Ok (UnsignedCreateChainTx
        {| NetworkID := 1; BlockchainID := PlatformChainID;
           Ins := [mkInput (mkUTXOID 1%N 0) djtx (TransferIn (mkTransferInput 150 [0]))];
           Outs := [plainOutput djtx 50 ownerA];
           Memo := [] |}
        subnetX [] 4%N [6%N; 8%N] [] [1]).
Proof. vm_compute. reflexivity. Qed.

(** The same wallet cannot create a chain in a subnet the backend does not
    know. *)
Example create_chain_in_unknown_subnet :
  NewCreateChainTx canonicalRuntime (subnetWallet [plainUTXO 1%N djtx 150 ownerA])
    chainX [] 4%N [] [] noOptions =
  Err (errFetchSubnet chainX (errBackend 404)).
Proof. vm_compute. reflexivity. Qed.

(** X13. A transaction the builder returns is of the kind asked for and
    carries the fields of the request unchanged (owner addresses, feature
    extension ids and exported outputs sorted); its base transaction names the
    backend's network, the platform chain and the memo of the options. *)
Theorem build_answers_request (rt : Runtime) (b : builder) (req : request)
    (options : Options) (tx : UnsignedTx) :
  build rt b req options = Ok tx ->
  answers req tx /\
  exists base,
    txBase tx = Some base /\
    NetworkID base = backendNetworkID (backend b) /\
    BlockchainID base = PlatformChainID /\
    Memo base = optMemo options.
Proof.
  destruct req; simpl.
  - unfold NewAddValidatorTx.
    destruct (spend rt b _ _ options) as [[[ins change] stake]|e]; cbn [bind]; [|discriminate].
    intros [= <-]. simpl. split_and!; eauto 10.
  - unfold NewAddSubnetValidatorTx.
    destruct (spend rt b _ _ options) as [[[ins change] stake]|e]; cbn [bind]; [|discriminate].
    destruct (authorizeSubnet _ _ _); cbn [bind]; [|discriminate].
    intros [= <-]. simpl. split_and!; eauto 10.
  - unfold NewAddDelegatorTx.
    destruct (spend rt b _ _ options) as [[[ins change] stake]|e]; cbn [bind]; [|discriminate].
    intros [= <-]. simpl. split_and!; eauto 10.
  - unfold NewCreateChainTx.
    destruct (spend rt b _ _ options) as [[[ins change] stake]|e]; cbn [bind]; [|discriminate].
    destruct (authorizeSubnet _ _ _); cbn [bind]; [|discriminate].
    intros [= <-]. simpl. split_and!; eauto 10.
  - unfold NewCreateSubnetTx.
    destruct (spend rt b _ _ options) as [[[ins change] stake]|e]; cbn [bind]; [|discriminate].
    intros [= <-]. simpl. split_and!; eauto 10.
  - unfold NewImportTx.
    destruct (UTXOs (backend b) sourceChainID) as [utxos|e]; cbn [bind]; [|discriminate].
    destruct (forEach _ _ utxos) as [[imported amt]|e]; cbn [bind]; [|discriminate].
    destruct (bool_decide _); [discriminate|].
    match goal with |- bind ?r _ = _ -> _ => destruct r as [[ins outs]|e] end;
      cbn [bind]; [|discriminate].
    intros [= <-]. simpl. split_and!; eauto 10.
  - unfold NewExportTx.
    destruct (forEach exportVisit _ outputs) as [m|e]; cbn [bind]; [|discriminate].
    destruct (spend rt b _ _ options) as [[[ins change] stake]|e]; cbn [bind]; [|discriminate].
    intros [= <-]. simpl. split_and!; eauto 10.
Qed.

Lemma build_answers_request_witness :
  build canonicalRuntime shortfallWallet (Import chainX ownerA) noOptions = Ok shortfallTx /\
  answers (Import chainX ownerA) shortfallTx.
Proof.
  assert (H : build canonicalRuntime shortfallWallet (Import chainX ownerA) noOptions =
              Ok shortfallTx) by reflexivity.
  split; [exact H|].
  exact (proj1 (build_answers_request canonicalRuntime shortfallWallet _ noOptions _ H)).
Defined.

(** ** The change comes back to the wallet *)

Lemma match_default_change_owner (s : gset ShortID) addr t :
  addr ∈ s -> 0 <= t -> match_ s (defaultChangeOwner addr) t = ([0], true).
Proof.
  intros Hin Ht. unfold match_, defaultChangeOwner. simpl.
  destruct (t <? 0) eqn:E; [apply Z.ltb_lt in E; lia|].
  change (Z.to_nat (wrap32 1)) with 1%nat. simpl.
  destruct (decide (addr ∈ s)); [reflexivity | contradiction].
Qed.

(** X14. Without a change-owner override, what [spend] gives back can be
    spent by the same wallet: every plain output of a successful [spend]
    belongs to the threshold-1 owner over an address the wallet controls, and
    [match] is satisfied on it, with signer index 0, at any time. *)
Theorem change_is_spendable (rt : Runtime) (b : builder) (toBurn toStake : gmap ID Z)
    (options : Options)
    (ins : list TransferableInput) (change stake : list TransferableOutput) :
  changeOwnerOverride options = None ->
  spend rt b toBurn toStake options = Ok (ins, change, stake) ->
  forall o out,
    o ∈ change ++ stake -> outOut o = TransferOut out ->
    (exists addr, addr ∈ addrs b /\ Owners out = defaultChangeOwner addr) /\
    forall t, 0 <= t -> match_ (addrs b) (Owners out) t = ([0], true).
Proof.
  intros Hno Hsp o out Ho Hout.
  destruct (spend_produced _ _ _ _ _ _ _ _ Hsp) as (utxos & addr & _ & HP & Hall).
  apply Peek_Some in HP. rewrite Forall_forall in Hall. specialize (Hall o Ho).
  unfold ChangeOwner in Hall. rewrite Hno in Hall. simpl in Hall.
  destruct Hall as [(a & amt & ->) | (u & lt & out' & amt & _ & _ & _ & ->)];
    [|discriminate].
  injection Hout as <-. simpl. split; [eauto|].
  intros t Ht. apply match_default_change_owner; assumption.
Qed.

Lemma change_is_spendable_witness :
  changeOwnerOverride noOptions = None /\
  spend canonicalRuntime stakingWallet {[ djtx := 3 ]} {[ djtx := 12 ]} noOptions =
    Ok ([mkInput (mkUTXOID 1%N 0) djtx (TransferIn (mkTransferInput 10 [0]));
         mkInput (mkUTXOID 3%N 0) djtx (StakeableLockIn 5000 (mkTransferInput 10 [0]))],
        [plainOutput djtx 5 ownerA],
        [plainOutput djtx 2 ownerA; lockedOutput djtx 5000 10 ownerA]) /\
  forall t, 0 <= t -> match_ (addrs stakingWallet) ownerA t = ([0], true).
Proof.
  assert (H : spend canonicalRuntime stakingWallet {[ djtx := 3 ]} {[ djtx := 12 ]} noOptions =
    Ok ([mkInput (mkUTXOID 1%N 0) djtx (TransferIn (mkTransferInput 10 [0]));
         mkInput (mkUTXOID 3%N 0) djtx (StakeableLockIn 5000 (mkTransferInput 10 [0]))],
        [plainOutput djtx 5 ownerA],
        [plainOutput djtx 2 ownerA; lockedOutput djtx 5000 10 ownerA]))
    by (vm_compute; reflexivity).
  split_and!; [reflexivity | exact H |].
  refine (proj2 (change_is_spendable canonicalRuntime stakingWallet _ _ noOptions _ _ _
                   eq_refl H (plainOutput djtx 5 ownerA) (mkTransferOutput 5 ownerA)
                   _ eq_refl)).
  left.
Defined.

(** ** [spend] succeeds with the funds *)

Lemma totalFunds_lockedFunds_nonneg controlled mit a l :
  Forall wfUTXO l -> 0 <= totalFunds (lockedFunds controlled mit a) l.
Proof.
  induction 1 as [|u l Hu _ IH]; simpl; [lia|].
  pose proof (lockedFunds_nonneg controlled mit a u Hu). lia.
Qed.

Lemma totalFunds_unlockedFunds_nonneg controlled mit a l :
  Forall wfUTXO l -> 0 <= totalFunds (unlockedFunds controlled mit a) l.
Proof.
  induction 1 as [|u l Hu _ IH]; simpl; [lia|].
  pose proof (unlockedFunds_nonneg controlled mit a u Hu). lia.
Qed.

Section exact.
Variables (controlled : gset ShortID) (minIssuanceTime : Z) (changeOwner : OutputOwners).

Lemma lockedFunds_other a u :
  utxoAsset u <> a -> lockedFunds controlled minIssuanceTime a u = 0.
Proof.
  intros Hne. unfold lockedFunds.
  destruct (utxoOut u) as [out|lt [out| |]|]; try reflexivity.
  rewrite (bool_decide_eq_false_2 _ Hne), andb_false_r. reflexivity.
Qed.

Lemma unlockedFunds_other a u :
  utxoAsset u <> a -> unlockedFunds controlled minIssuanceTime a u = 0.
Proof.
  intros Hne. unfold unlockedFunds.
  destruct (unlockedView minIssuanceTime (utxoOut u)) as [[out| |]|]; try reflexivity.
  rewrite (bool_decide_eq_false_2 _ Hne), andb_false_r. reflexivity.
Qed.

(** On a UTXO it can read the first loop never fails, and it lowers the stake
    requirement of each asset by what the UTXO offers it, down to zero. *)
Lemma lockedVisit_exact st u :
  wfUTXO u -> knownOutput u -> wfAmounts (amountsToStake st) ->
  exists st',
    lockedVisit controlled minIssuanceTime st u = Ok st' /\
    amountsToBurn st' = amountsToBurn st /\
    wfAmounts (amountsToStake st') /\
    forall a, get (amountsToStake st') a =
              Z.max 0 (get (amountsToStake st) a -
                       lockedFunds controlled minIssuanceTime a u).
Proof.
  intros Hu Hk Hs.
  assert (Hsame : (forall a, utxoAsset u = a ->
                     get (amountsToStake st) a = 0 \/
                     lockedFunds controlled minIssuanceTime a u = 0) ->
            forall a, get (amountsToStake st) a =
              Z.max 0 (get (amountsToStake st) a -
                       lockedFunds controlled minIssuanceTime a u)).
  { intros H a. pose proof (get_uint64 _ a Hs) as Hg. unfold is_uint64 in Hg.
    pose proof (lockedFunds_nonneg controlled minIssuanceTime a u Hu).
    destruct (decide (utxoAsset u = a)) as [E|E].
    - destruct (H a E); lia.
    - rewrite (lockedFunds_other a u E). lia. }
  unfold lockedVisit.
  destruct (get (amountsToStake st) (utxoAsset u) =? 0) eqn:E0.
  { apply Z.eqb_eq in E0. exists st. split_and!; auto.
    apply Hsame. intros a <-. auto. }
  unfold knownOutput in Hk.
  destruct (utxoOut u) as [out|lt [out| |]|] eqn:Hout; try contradiction.
  { exists st. split_and!; auto. apply Hsame. intros a _. right.
    unfold lockedFunds. rewrite Hout. reflexivity. }
  destruct (lt <=? minIssuanceTime) eqn:Elt.
  { exists st. split_and!; auto. apply Hsame. intros a _. right.
    unfold lockedFunds. rewrite Hout.
    apply Z.leb_le in Elt. rewrite (proj2 (Z.ltb_ge _ _) Elt). reflexivity. }
  apply Z.leb_gt in Elt.
  destruct (match_ controlled (Owners out) minIssuanceTime) as [sigs [|]] eqn:Hm.
  - eexists. split; [reflexivity|]. cbn [amountsToBurn amountsToStake].
    split_and!; [reflexivity | apply wfAmounts_subAt, Hs |].
    intros a. rewrite get_subAt.
    unfold wfUTXO in Hu. rewrite Hout in Hu. simpl in Hu.
    pose proof (get_uint64 _ (utxoAsset u) Hs) as Hg.
    pose proof (get_uint64 _ a Hs) as Hga.
    destruct (Min64_cases (get (amountsToStake st) (utxoAsset u)) (Amt out)) as [[Hmin ?]|[Hmin ?]];
      rewrite Hmin, sub64_small by (unfold is_uint64 in *; auto; lia).
    + destruct (decide (utxoAsset u = a)) as [<-|E].
      * unfold lockedFunds. rewrite Hout, Hm, (proj2 (Z.ltb_lt _ _) Elt). simpl.
        rewrite bool_decide_eq_true_2 by reflexivity. lia.
      * rewrite (lockedFunds_other a u E). unfold is_uint64 in *. lia.
    + destruct (decide (utxoAsset u = a)) as [<-|E].
      * unfold lockedFunds. rewrite Hout, Hm, (proj2 (Z.ltb_lt _ _) Elt). simpl.
        rewrite bool_decide_eq_true_2 by reflexivity. lia.
      * rewrite (lockedFunds_other a u E). unfold is_uint64 in *. lia.
  - exists st. split_and!; auto. apply Hsame. intros a _. right.
    unfold lockedFunds. rewrite Hout, Hm, andb_false_r. reflexivity.
Qed.

(** On a UTXO it can read the second loop never fails, and it lowers the burn
    requirement of each asset, and the two requirements together, by what the
    UTXO offers it, down to zero. *)
Lemma unlockedVisit_exact st u :
  wfUTXO u -> knownOutput u ->
  wfAmounts (amountsToBurn st) -> wfAmounts (amountsToStake st) ->
  exists st',
    unlockedVisit controlled minIssuanceTime changeOwner st u = Ok st' /\
    wfAmounts (amountsToBurn st') /\ wfAmounts (amountsToStake st') /\
    forall a,
      get (amountsToBurn st') a =
        Z.max 0 (get (amountsToBurn st) a -
                 unlockedFunds controlled minIssuanceTime a u) /\
      get (amountsToBurn st') a + get (amountsToStake st') a =
        Z.max 0 (get (amountsToBurn st) a + get (amountsToStake st) a -
                 unlockedFunds controlled minIssuanceTime a u).
Proof.
  intros Hu Hk Hb Hs.
  assert (Hsame : (forall a, utxoAsset u = a ->
                     (get (amountsToBurn st) a = 0 /\ get (amountsToStake st) a = 0) \/
                     unlockedFunds controlled minIssuanceTime a u = 0) ->
            forall a,
              get (amountsToBurn st) a =
                Z.max 0 (get (amountsToBurn st) a -
                         unlockedFunds controlled minIssuanceTime a u) /\
              get (amountsToBurn st) a + get (amountsToStake st) a =
                Z.max 0 (get (amountsToBurn st) a + get (amountsToStake st) a -
                         unlockedFunds controlled minIssuanceTime a u)).
  { intros H a. pose proof (get_uint64 _ a Hs) as Hgs. pose proof (get_uint64 _ a Hb) as Hgb.
    unfold is_uint64 in *.
    pose proof (unlockedFunds_nonneg controlled minIssuanceTime a u Hu).
    destruct (decide (utxoAsset u = a)) as [E|E].
    - destruct (H a E); lia.
    - rewrite (unlockedFunds_other a u E). lia. }
  unfold unlockedVisit.
  destruct ((get (amountsToStake st) (utxoAsset u) =? 0) &&
            (get (amountsToBurn st) (utxoAsset u) =? 0)) eqn:E0.
  { apply andb_true_iff in E0. destruct E0 as [E1 E2].
    apply Z.eqb_eq in E1, E2. exists st. split_and!; auto.
    apply Hsame. intros a <-. auto. }
  assert (Hview : unlockedView minIssuanceTime (utxoOut u) = None \/
                  exists out, unlockedView minIssuanceTime (utxoOut u) = Some (TransferOut out)).
  { unfold knownOutput in Hk.
    destruct (utxoOut u) as [out|lt [out| |]|]; try contradiction; simpl; eauto.
    destruct (minIssuanceTime <? lt); eauto. }
  destruct Hview as [Hv | [out Hv]].
  { rewrite Hv. exists st. split_and!; auto. apply Hsame. intros a _. right.
    unfold unlockedFunds. rewrite Hv. reflexivity. }
  rewrite Hv.
  destruct (match_ controlled (Owners out) minIssuanceTime) as [sigs [|]] eqn:Hm.
  - eexists. split; [reflexivity|]. cbn [amountsToBurn amountsToStake].
    split_and!; [apply wfAmounts_subAt, Hb | apply wfAmounts_subAt, Hs |].
    intros a. rewrite !get_subAt.
    unfold wfUTXO in Hu. rewrite (unlockedView_Amount _ _ _ Hv) in Hu.
    pose proof (get_uint64 _ (utxoAsset u) Hs) as Hgs.
    pose proof (get_uint64 _ (utxoAsset u) Hb) as Hgb.
    pose proof (get_uint64 _ a Hs) as Hgsa.
    pose proof (get_uint64 _ a Hb) as Hgba.
    set (needS := get (amountsToStake st) (utxoAsset u)) in *.
    set (needB := get (amountsToBurn st) (utxoAsset u)) in *.
    destruct (decide (utxoAsset u = a)) as [E|E].
    + assert (HU : unlockedFunds controlled minIssuanceTime a u = Amt out).
      { unfold unlockedFunds. rewrite Hv, Hm. simpl.
        rewrite bool_decide_eq_true_2 by exact E. reflexivity. }
      rewrite HU. rewrite <- E. fold needS needB.
      unfold is_uint64 in *.
      destruct (Min64_cases needB (Amt out)) as [[HminB ?]|[HminB ?]]; rewrite HminB;
        rewrite (wrap64_small (Amt out - _)) by (unfold is_uint64; lia);
        rewrite (wrap64_small (needB - _)) by (unfold is_uint64; lia);
        match goal with |- context [Min64 needS ?x] =>
          destruct (Min64_cases needS x) as [[HminS ?]|[HminS ?]]; rewrite HminS
        end;
        rewrite (wrap64_small (needS - _)) by (unfold is_uint64; lia); lia.
    + rewrite (unlockedFunds_other a u E). unfold is_uint64 in *. lia.
  - exists st. split_and!; auto. apply Hsame. intros a _. right.
    unfold unlockedFunds. rewrite Hv, Hm. reflexivity.
Qed.

Lemma lockedLoop_exact utxos : forall st,
  Forall wfUTXO utxos -> Forall knownOutput utxos -> wfAmounts (amountsToStake st) ->
  exists st',
    forEach (lockedVisit controlled minIssuanceTime) st utxos = Ok st' /\
    amountsToBurn st' = amountsToBurn st /\
    wfAmounts (amountsToStake st') /\
    forall a, get (amountsToStake st') a =
              Z.max 0 (get (amountsToStake st) a -
                       totalFunds (lockedFunds controlled minIssuanceTime a) utxos).
Proof.
  induction utxos as [|u l IH]; intros st Hwf Hk Hs.
  - exists st. simpl. split_and!; auto. intros a.
    pose proof (get_uint64 _ a Hs) as Hg. unfold is_uint64 in Hg. lia.
  - apply Forall_cons in Hwf, Hk. destruct Hwf as [Hu Hwf], Hk as [Hku Hk].
    destruct (lockedVisit_exact st u Hu Hku Hs) as (s1 & Hv & HB1 & Hs1 & H1).
    destruct (IH s1 Hwf Hk Hs1) as (st' & Hl & HB' & Hs' & H').
    exists st'. cbn [forEach]. rewrite Hv. cbn [bind].
    split_and!; [exact Hl | congruence | exact Hs' |].
    intros a. rewrite H', H1. simpl.
    pose proof (lockedFunds_nonneg controlled minIssuanceTime a u Hu).
    pose proof (totalFunds_lockedFunds_nonneg controlled minIssuanceTime a l Hwf).
    lia.
Qed.

Lemma unlockedLoop_exact utxos : forall st,
  Forall wfUTXO utxos -> Forall knownOutput utxos ->
  wfAmounts (amountsToBurn st) -> wfAmounts (amountsToStake st) ->
  exists st',
    forEach (unlockedVisit controlled minIssuanceTime changeOwner) st utxos = Ok st' /\
    forall a,
      get (amountsToBurn st') a =
        Z.max 0 (get (amountsToBurn st) a -
                 totalFunds (unlockedFunds controlled minIssuanceTime a) utxos) /\
      get (amountsToBurn st') a + get (amountsToStake st') a =
        Z.max 0 (get (amountsToBurn st) a + get (amountsToStake st) a -
                 totalFunds (unlockedFunds controlled minIssuanceTime a) utxos).
Proof.
  induction utxos as [|u l IH]; intros st Hwf Hk Hb Hs.
  - exists st. simpl. split; [reflexivity|]. intros a.
    pose proof (get_uint64 _ a Hs) as Hgs. pose proof (get_uint64 _ a Hb) as Hgb.
    unfold is_uint64 in *. lia.
  - apply Forall_cons in Hwf, Hk. destruct Hwf as [Hu Hwf], Hk as [Hku Hk].
    destruct (unlockedVisit_exact st u Hu Hku Hb Hs) as (s1 & Hv & Hb1 & Hs1 & H1).
    destruct (IH s1 Hwf Hk Hb1 Hs1) as (st' & Hl & H').
    exists st'. cbn [forEach]. rewrite Hv. cbn [bind].
    split; [exact Hl|].
    intros a. destruct (H' a) as [A1 A2]. destruct (H1 a) as [B1 B2].
    change (totalFunds (unlockedFunds controlled minIssuanceTime a) (u :: l))
      with (unlockedFunds controlled minIssuanceTime a u +
            totalFunds (unlockedFunds controlled minIssuanceTime a) l).
    pose proof (unlockedFunds_nonneg controlled minIssuanceTime a u Hu).
    pose proof (totalFunds_unlockedFunds_nonneg controlled minIssuanceTime a l Hwf).
    lia.
Qed.

(** With the funds, and UTXOs it can read, both loops run to the end and
    leave nothing to burn or to stake. *)
Lemma spendPasses_funded utxos toBurn toStake :
  Forall wfUTXO utxos -> Forall knownOutput utxos ->
  wfAmounts toBurn -> wfAmounts toStake ->
  funded controlled minIssuanceTime utxos toBurn toStake ->
  exists st,
    spendPasses controlled minIssuanceTime changeOwner utxos toBurn toStake = Ok st /\
    (forall a, get (amountsToStake st) a = 0) /\ (forall a, get (amountsToBurn st) a = 0).
Proof.
  intros Hwf Hk Hb Hs Hf. unfold spendPasses.
  destruct (lockedLoop_exact utxos (mkSpendState toBurn toStake [] [] []) Hwf Hk Hs)
    as (st1 & Hl1 & HB1 & Hs1 & H1).
  rewrite Hl1. cbn [bind]. simpl in HB1, H1.
  assert (Hb1 : wfAmounts (amountsToBurn st1)) by (rewrite HB1; exact Hb).
  destruct (unlockedLoop_exact utxos st1 Hwf Hk Hb1 Hs1) as (st & Hl2 & H2).
  exists st. split; [exact Hl2|].
  assert (Hboth : forall a, get (amountsToBurn st) a = 0 /\ get (amountsToStake st) a = 0).
  { intros a. destruct (H2 a) as [A1 A2]. destruct (Hf a) as [F1 F2].
    rewrite HB1, H1 in *.
    pose proof (totalFunds_lockedFunds_nonneg controlled minIssuanceTime a utxos Hwf).
    pose proof (get_uint64 _ a Hs) as Hgs. unfold is_uint64 in Hgs. lia. }
  split; intros a; apply Hboth.
Qed.
End exact.

(** [spend] over UTXOs it can read succeeds exactly with the funds. *)
Lemma spend_Ok_iff_funded (rt : Runtime) (b : builder) (toBurn toStake : gmap ID Z)
    (options : Options) (utxos : list UTXO) :
  UTXOs (backend b) PlatformChainID = Ok utxos ->
  Forall wfUTXO utxos -> Forall knownOutput utxos ->
  wfAmounts toBurn -> wfAmounts toStake -> addrs b <> ∅ ->
  (exists r, spend rt b toBurn toStake options = Ok r) <->
  funded (addrs b) (MinIssuanceTime options) utxos toBurn toStake.
Proof.
  intros HU Hwf Hk Hb Hs Hne. unfold spend. rewrite HU. cbn [bind].
  destruct (Peek (addrs b)) as [addr|] eqn:HP; [|apply Peek_None in HP; contradiction].
  split.
  - intros [r Hr].
    destruct (spendPasses _ _ _ utxos toBurn toStake) as [st|e] eqn:Hp; cbn [bind] in Hr;
      [|discriminate].
    destruct (checkExhausted rt st) as [[]|e] eqn:Hc; cbn [bind] in Hr; [|discriminate].
    apply checkExhausted_Ok in Hc. destruct Hc as [HzS HzB].
    intros a.
    pose proof (spendPasses_funds _ _ _ a utxos toBurn toStake st Hwf Hb Hs Hp) as [H1 H2].
    rewrite HzS, HzB in *. lia.
  - intros Hf.
    destruct (spendPasses_funded (addrs b) (MinIssuanceTime options)
                (ChangeOwner options (defaultChangeOwner addr)) utxos toBurn toStake
                Hwf Hk Hb Hs Hf) as (st & Hp & HzS & HzB).
    rewrite Hp. cbn [bind].
    rewrite (proj2 (checkExhausted_Ok rt st) (conj HzS HzB)). cbn [bind]. eauto.
Qed.

(** X15. When every UTXO of the backend is a plain output or a stake lock
    around one, [spend] succeeds exactly when the wallet is funded: per asset,
    the matched unlocked UTXOs hold the amount to burn, and the matched locked
    and unlocked UTXOs together hold the amounts to burn and to stake.  So a
    funded wallet is never refused, whatever the order of its UTXOs. *)
Theorem spend_succeeds_iff_funded (rt : Runtime) (b : builder) (toBurn toStake : gmap ID Z)
    (options : Options) (utxos : list UTXO) :
  UTXOs (backend b) PlatformChainID = Ok utxos ->
  Forall wfUTXO utxos -> Forall knownOutput utxos ->
  wfAmounts toBurn -> wfAmounts toStake -> addrs b <> ∅ ->
  (exists r, spend rt b toBurn toStake options = Ok r) <->
  funded (addrs b) (MinIssuanceTime options) utxos toBurn toStake.
Proof. apply spend_Ok_iff_funded. Qed.

Lemma spend_succeeds_iff_funded_witness :
  let utxos := [lockedUTXO; plainUTXO 1%N djtx 10 ownerA] in
  UTXOs (backend stakingWallet) PlatformChainID = Ok utxos /\
  Forall wfUTXO utxos /\ Forall knownOutput utxos /\
  wfAmounts ({[ djtx := 3 ]} : gmap ID Z) /\ wfAmounts ({[ djtx := 12 ]} : gmap ID Z) /\
  addrs stakingWallet <> ∅ /\
  funded (addrs stakingWallet) (MinIssuanceTime noOptions) utxos
    {[ djtx := 3 ]} {[ djtx := 12 ]} /\
  exists r, spend reversedRuntime stakingWallet {[ djtx := 3 ]} {[ djtx := 12 ]} noOptions =
            Ok r.
Proof.
  intros utxos.
  assert (Hwf : Forall wfUTXO utxos).
  { apply Forall_cons_2; [|apply Forall_cons_2; [|apply Forall_nil_2]];
      unfold wfUTXO, is_uint64, MaxUint64; simpl; lia. }
  assert (Hk : Forall knownOutput utxos).
  { apply Forall_cons_2; [|apply Forall_cons_2; [|apply Forall_nil_2]]; exact I. }
  assert (Hb : wfAmounts ({[ djtx := 3 ]} : gmap ID Z))
    by (apply wfAmounts_singleton; unfold is_uint64, MaxUint64; lia).
  assert (Hs : wfAmounts ({[ djtx := 12 ]} : gmap ID Z))
    by (apply wfAmounts_singleton; unfold is_uint64, MaxUint64; lia).
  assert (Hne : addrs stakingWallet <> ∅).
  { exact (non_empty_singleton_L addrA). }
  assert (Hf : funded (addrs stakingWallet) (MinIssuanceTime noOptions) utxos
                 {[ djtx := 3 ]} {[ djtx := 12 ]}).
  { intros a. rewrite !get_singleton.
    destruct (decide (djtx = a)) as [<-|E].
    - split; vm_compute; discriminate.
    - pose proof (totalFunds_lockedFunds_nonneg (addrs stakingWallet) 1000 a utxos Hwf).
      pose proof (totalFunds_unlockedFunds_nonneg (addrs stakingWallet) 1000 a utxos Hwf).
      simpl MinIssuanceTime. lia. }
  split_and!; [reflexivity | exact Hwf | exact Hk | exact Hb | exact Hs | exact Hne
              | exact Hf |].
  exact (proj2 (spend_succeeds_iff_funded reversedRuntime stakingWallet _ _ noOptions utxos
                  eq_refl Hwf Hk Hb Hs Hne) Hf).
Defined.

(** ** When the assemblers succeed *)

Lemma funded_stake_only controlled mit utxos k w :
  Forall wfUTXO utxos ->
  funded controlled mit utxos ∅ {[ k := w ]} <->
  w <= totalFunds (lockedFunds controlled mit k) utxos +
       totalFunds (unlockedFunds controlled mit k) utxos.
Proof.
  intros Hwf. unfold funded. split.
  - intros H. destruct (H k) as [_ H2]. rewrite get_empty, get_singleton in H2.
    destruct (decide (k = k)); [lia | contradiction].
  - intros H a. rewrite get_empty, get_singleton.
    pose proof (totalFunds_lockedFunds_nonneg controlled mit a utxos Hwf).
    pose proof (totalFunds_unlockedFunds_nonneg controlled mit a utxos Hwf).
    destruct (decide (k = a)) as [<-|]; lia.
Qed.

Lemma funded_burn_only controlled mit utxos k fee :
  Forall wfUTXO utxos ->
  funded controlled mit utxos {[ k := fee ]} ∅ <->
  fee <= totalFunds (unlockedFunds controlled mit k) utxos.
Proof.
  intros Hwf. unfold funded. split.
  - intros H. destruct (H k) as [H1 _]. rewrite get_singleton in H1.
    destruct (decide (k = k)); [lia | contradiction].
  - intros H a. rewrite get_empty, get_singleton.
    pose proof (totalFunds_lockedFunds_nonneg controlled mit a utxos Hwf).
    pose proof (totalFunds_unlockedFunds_nonneg controlled mit a utxos Hwf).
    destruct (decide (k = a)) as [<-|]; lia.
Qed.

(** A wallet without an address gets no result from [spend], funded or not;
    any other wallet gets one exactly with the funds. *)
Lemma spend_Ok_iff (rt : Runtime) (b : builder) (toBurn toStake : gmap ID Z)
    (options : Options) (utxos : list UTXO) :
  UTXOs (backend b) PlatformChainID = Ok utxos ->
  Forall wfUTXO utxos -> Forall knownOutput utxos ->
  wfAmounts toBurn -> wfAmounts toStake ->
  (exists r, spend rt b toBurn toStake options = Ok r) <->
  addrs b <> ∅ /\ funded (addrs b) (MinIssuanceTime options) utxos toBurn toStake.
Proof.
  intros HU Hwf Hk Hb Hs.
  destruct (decide (addrs b = ∅)) as [He|Hne].
  - split; [|intros [Hne _]; contradiction].
    intros [r Hr]. unfold spend in Hr. rewrite HU in Hr. cbn [bind] in Hr.
    rewrite (proj2 (Peek_None _) He) in Hr. discriminate.
  - rewrite (spend_Ok_iff_funded rt b toBurn toStake options utxos HU Hwf Hk Hb Hs Hne).
    tauto.
Qed.

(** X16. When every UTXO of the backend is a plain output or a stake lock
    around one, an add-validator and an add-delegator transaction are built
    exactly when the wallet controls at least one address and the matched
    UTXOs of the native asset, locked and unlocked together, hold the
    validator's weight; a create-subnet transaction is built exactly when the
    wallet controls at least one address and the matched unlocked UTXOs of the
    native asset hold the subnet-creation fee.  (A wallet without an address
    is refused with NoChangeAddress even when it matches enough funds that
    anyone can spend.) *)
Theorem staking_and_subnet_creation_succeed_iff_funded (rt : Runtime) (b : builder)
    (options : Options) (utxos : list UTXO) (validator : Validator) :
  UTXOs (backend b) PlatformChainID = Ok utxos ->
  Forall wfUTXO utxos -> Forall knownOutput utxos ->
  is_uint64 (Wght validator) -> is_uint64 (CreateSubnetTxFee (backend b)) ->
  (forall rewardsOwner shares,
     (exists tx, NewAddValidatorTx rt b validator rewardsOwner shares options = Ok tx) <->
     addrs b <> ∅ /\
     Wght validator <=
       totalFunds (lockedFunds (addrs b) (MinIssuanceTime options) (DJTXAssetID (backend b)))
         utxos +
       totalFunds (unlockedFunds (addrs b) (MinIssuanceTime options) (DJTXAssetID (backend b)))
         utxos) /\
  (forall rewardsOwner,
     (exists tx, NewAddDelegatorTx rt b validator rewardsOwner options = Ok tx) <->
     addrs b <> ∅ /\
     Wght validator <=
       totalFunds (lockedFunds (addrs b) (MinIssuanceTime options) (DJTXAssetID (backend b)))
         utxos +
       totalFunds (unlockedFunds (addrs b) (MinIssuanceTime options) (DJTXAssetID (backend b)))
         utxos) /\
  (forall owner,
     (exists tx, NewCreateSubnetTx rt b owner options = Ok tx) <->
     addrs b <> ∅ /\
     CreateSubnetTxFee (backend b) <=
       totalFunds (unlockedFunds (addrs b) (MinIssuanceTime options) (DJTXAssetID (backend b)))
         utxos).
Proof.
  intros HU Hwf Hk Hw Hfee.
  pose proof (spend_Ok_iff rt b ∅ {[ DJTXAssetID (backend b) := Wght validator ]}
                options utxos HU Hwf Hk wfAmounts_empty (wfAmounts_singleton _ _ Hw))
    as Hstake.
  rewrite (funded_stake_only _ _ _ _ _ Hwf) in Hstake.
  pose proof (spend_Ok_iff rt b
                {[ DJTXAssetID (backend b) := CreateSubnetTxFee (backend b) ]} ∅
                options utxos HU Hwf Hk (wfAmounts_singleton _ _ Hfee) wfAmounts_empty)
    as Hburn.
  rewrite (funded_burn_only _ _ _ _ _ Hwf) in Hburn.
  split_and!.
  - intros rewardsOwner shares. rewrite <- Hstake. clear Hburn Hstake.
    unfold NewAddValidatorTx. cbv zeta.
    destruct (spend rt b _ _ options) as [[[ins change] stake]|e]; cbn [bind].
    + split; intros _; eexists; reflexivity.
    + split; intros [? [=]].
  - intros rewardsOwner. rewrite <- Hstake. clear Hburn Hstake.
    unfold NewAddDelegatorTx. cbv zeta.
    destruct (spend rt b _ _ options) as [[[ins change] stake]|e]; cbn [bind].
    + split; intros _; eexists; reflexivity.
    + split; intros [? [=]].
  - intros owner. rewrite <- Hburn. clear Hstake Hburn.
    unfold NewCreateSubnetTx. cbv zeta.
    destruct (spend rt b _ _ options) as [[[ins change] stake]|e]; cbn [bind].
    + split; intros _; eexists; reflexivity.
    + split; intros [? [=]].
Qed.

Lemma staking_and_subnet_creation_succeed_iff_funded_witness :
  let utxos := [lockedUTXO; plainUTXO 1%N djtx 10 ownerA] in
  UTXOs (backend stakingWallet) PlatformChainID = Ok utxos /\
  Forall wfUTXO utxos /\ Forall knownOutput utxos /\
  is_uint64 (Wght validator12) /\ is_uint64 (CreateSubnetTxFee (backend stakingWallet)) /\
  (exists tx, NewAddValidatorTx canonicalRuntime stakingWallet validator12 ownerB 30000
                noOptions = Ok tx) /\
  ~ (exists tx, NewCreateSubnetTx canonicalRuntime stakingWallet ownerB noOptions = Ok tx).
Proof.
  intros utxos.
  assert (Hwf : Forall wfUTXO utxos).
  { apply Forall_cons_2; [|apply Forall_cons_2; [|apply Forall_nil_2]];
      unfold wfUTXO, is_uint64, MaxUint64; simpl; lia. }
  assert (Hk : Forall knownOutput utxos).
  { apply Forall_cons_2; [|apply Forall_cons_2; [|apply Forall_nil_2]]; exact I. }
  assert (Hw : is_uint64 (Wght validator12)) by (unfold is_uint64, MaxUint64; simpl; lia).
  assert (Hfee : is_uint64 (CreateSubnetTxFee (backend stakingWallet)))
    by (unfold is_uint64, MaxUint64; simpl; lia).
  pose proof (staking_and_subnet_creation_succeed_iff_funded canonicalRuntime stakingWallet
                noOptions utxos validator12 eq_refl Hwf Hk Hw Hfee) as (HV & _ & HS).
  split_and!; [reflexivity | exact Hwf | exact Hk | exact Hw | exact Hfee | |].
  - apply HV. split; [exact (non_empty_singleton_L addrA) | vm_compute; discriminate].
  - intros Hex. apply HS in Hex. destruct Hex as [_ Hex].
    vm_compute in Hex. apply Hex. reflexivity.
Defined.

(** The wallet without an address matches the 100 units that anyone can
    spend, which cover the weight and the fee, and is refused all the same. *)
Example no_address_no_transaction :
  let b := {| addrs := ∅; backend := backendOf [plainUTXO 1%N djtx 100 anyone] [] |} in
  totalFunds (unlockedFunds (addrs b) 1000 djtx) [plainUTXO 1%N djtx 100 anyone] = 100 /\
  NewAddValidatorTx canonicalRuntime b validator12 ownerB 30000 noOptions =
    Err errNoChangeAddress /\
  NewCreateSubnetTx canonicalRuntime b ownerB noOptions = Err errNoChangeAddress /\
  NewExportTx canonicalRuntime b chainX [plainOutput djtx 1 ownerB] noOptions =
    Err errNoChangeAddress.
Proof. split_and!; vm_compute; reflexivity. Qed.

(** The loop of [NewExportTx] runs to the end when no sum leaves [uint64]. *)
Lemma exportLoop_total outputs : forall toBurn0,
  Forall wfOutput outputs -> wfAmounts toBurn0 ->
  (forall assetID, get toBurn0 assetID + sumOut assetID outputs <= MaxUint64) ->
  exists toBurn, forEach exportVisit toBurn0 outputs = Ok toBurn.
Proof.
  induction outputs as [|o l IH]; intros m0 Hwf Hm0 Hfit; cbn [forEach]; [eauto|].
  apply Forall_cons in Hwf. destruct Hwf as [Ho Hl].
  pose proof (sumOut_nonneg (outAsset o) l Hl) as Hnn.
  pose proof (Hfit (outAsset o)) as Hfo. rewrite sumOut_cons in Hfo.
  destruct (decide (outAsset o = outAsset o)) as [_|]; [|contradiction].
  unfold exportVisit at 1.
  destruct (Add64 (get m0 (outAsset o)) (Amount (outOut o))) as [n|e] eqn:Hadd; cbn [bind].
  - apply Add64_Ok in Hadd. destruct Hadd as [Hle ->].
    pose proof (get_uint64 m0 (outAsset o) Hm0) as Hg. unfold wfOutput in Ho.
    apply IH; [exact Hl | apply wfAmounts_insert; [exact Hm0 | unfold is_uint64 in *; lia] |].
    intros a. specialize (Hfit a). rewrite sumOut_cons in Hfit. rewrite get_insert.
    destruct (decide (outAsset o = a)) as [<-|]; lia.
  - apply Add64_Err in Hadd. lia.
Qed.

(** X17. When every UTXO of the backend is a plain output or a stake lock
    around one, an export transaction is built exactly when the wallet
    controls at least one address and, for every asset, the exported amount of
    the asset (plus the base fee, for the native asset) fits [uint64] and is
    held by the matched unlocked UTXOs of the asset.  Locked funds never pay
    for an export. *)
Theorem export_succeeds_iff_funded (rt : Runtime) (b : builder) (chainID : ID)
    (outputs : list TransferableOutput) (options : Options) (utxos : list UTXO) :
  UTXOs (backend b) PlatformChainID = Ok utxos ->
  Forall wfUTXO utxos -> Forall knownOutput utxos ->
  is_uint64 (BaseTxFee (backend b)) -> Forall wfOutput outputs ->
  (exists tx, NewExportTx rt b chainID outputs options = Ok tx) <->
  addrs b <> ∅ /\
  forall assetID,
    get {[ DJTXAssetID (backend b) := BaseTxFee (backend b) ]} assetID +
      sumOut assetID outputs
    <= Z.min MaxUint64
         (totalFunds (unlockedFunds (addrs b) (MinIssuanceTime options) assetID) utxos).
Proof.
  intros HU Hwf Hk Hfee Hout. unfold NewExportTx. cbv zeta.
  pose proof (wfAmounts_singleton (DJTXAssetID (backend b)) _ Hfee) as Hm0.
  split.
  - intros [tx Htx].
    destruct (forEach exportVisit _ outputs) as [m|e] eqn:Hloop; cbn [bind] in Htx;
      [|discriminate].
    destruct (exportLoop_Ok _ _ _ Hout Hm0 Hloop) as [Hwm Hsum].
    destruct (spend rt b m ∅ options) as [[[ins change] stake]|e] eqn:Hsp;
      cbn [bind] in Htx; [|discriminate].
    destruct (proj1 (spend_Ok_iff rt b m ∅ options utxos HU Hwf Hk Hwm wfAmounts_empty)
                (ex_intro _ _ Hsp)) as [Hne Hf].
    split; [exact Hne|].
    intros a. destruct (Hf a) as [H1 _]. rewrite <- Hsum.
    pose proof (get_uint64 m a Hwm) as Hg. unfold is_uint64 in Hg. lia.
  - intros [Hne Hall].
    destruct (exportLoop_total outputs _ Hout Hm0) as [m Hloop].
    { intros a. specialize (Hall a). lia. }
    rewrite Hloop. cbn [bind].
    destruct (exportLoop_Ok _ _ _ Hout Hm0 Hloop) as [Hwm Hsum].
    destruct (proj2 (spend_Ok_iff rt b m ∅ options utxos HU Hwf Hk Hwm wfAmounts_empty))
      as [[[ins change] stake] Hsp].
    { split; [exact Hne|]. intros a. rewrite get_empty, Hsum. specialize (Hall a).
      pose proof (totalFunds_lockedFunds_nonneg (addrs b) (MinIssuanceTime options) a utxos Hwf).
      lia. }
    rewrite Hsp. cbn [bind]. eauto.
Qed.

Lemma export_succeeds_iff_funded_witness :
  let utxos := [lockedUTXO; plainUTXO 1%N djtx 10 ownerA; plainUTXO 2%N assetX 600 ownerA] in
  UTXOs (backend exportingWallet) PlatformChainID = Ok utxos /\
  Forall wfUTXO utxos /\ Forall knownOutput utxos /\
  is_uint64 (BaseTxFee (backend exportingWallet)) /\
  Forall wfOutput [plainOutput assetX 500 ownerB] /\
  Forall wfOutput [plainOutput djtx 1 ownerB] /\
  (exists tx, NewExportTx reversedRuntime exportingWallet chainX
                [plainOutput assetX 500 ownerB] noOptions = Ok tx) /\
  ~ (exists tx, NewExportTx canonicalRuntime exportingWallet chainX
                  [plainOutput djtx 1 ownerB] noOptions = Ok tx).
Proof.
  intros utxos.
  assert (Hwf : Forall wfUTXO utxos).
  { apply Forall_cons_2; [|apply Forall_cons_2; [|apply Forall_cons_2; [|apply Forall_nil_2]]];
      unfold wfUTXO, is_uint64, MaxUint64; simpl; lia. }
  assert (Hk : Forall knownOutput utxos).
  { apply Forall_cons_2; [|apply Forall_cons_2; [|apply Forall_cons_2; [|apply Forall_nil_2]]];
      exact I. }
  assert (Hfee : is_uint64 (BaseTxFee (backend exportingWallet)))
    by (unfold is_uint64, MaxUint64; simpl; lia).
  assert (Hout : Forall wfOutput [plainOutput assetX 500 ownerB]).
  { apply Forall_cons_2; [|apply Forall_nil_2].
    unfold wfOutput, is_uint64, MaxUint64; simpl; lia. }
  assert (Hout' : Forall wfOutput [plainOutput djtx 1 ownerB]).
  { apply Forall_cons_2; [|apply Forall_nil_2].
    unfold wfOutput, is_uint64, MaxUint64; simpl; lia. }
  split_and!; [reflexivity | exact Hwf | exact Hk | exact Hfee | exact Hout | exact Hout' | |].
  - apply (proj2 (export_succeeds_iff_funded reversedRuntime exportingWallet chainX _
                    noOptions utxos eq_refl Hwf Hk Hfee Hout)).
    split; [exact (non_empty_singleton_L addrA)|].
    intros a. rewrite get_singleton. change (DJTXAssetID (backend exportingWallet)) with djtx.
    destruct (decide (djtx = a)) as [<-|E]; [vm_compute; discriminate|].
    destruct (decide (assetX = a)) as [<-|E']; [vm_compute; discriminate|].
    pose proof (totalFunds_unlockedFunds_nonneg (addrs exportingWallet) 1000 a utxos Hwf)
      as Hnn.
    change (MinIssuanceTime noOptions) with 1000.
    set (F := totalFunds (unlockedFunds (addrs exportingWallet) 1000 a) utxos) in *.
    unfold sumOut. simpl. destruct (decide (assetX = a)); [contradiction|].
    unfold MaxUint64. lia.
  - intros Hex.
    pose proof (proj2 (proj1 (export_succeeds_iff_funded canonicalRuntime exportingWallet chainX
                                _ noOptions utxos eq_refl Hwf Hk Hfee Hout') Hex) djtx) as H.
    vm_compute in H. apply H. reflexivity.
Defined.

Lemma authorizeSubnet_Ok_iff b subnetID options sigs :
  authorizeSubnet b subnetID options = Ok sigs <->
  exists base owner,
    GetTx (backend b) subnetID = Ok (mkTx (UnsignedCreateSubnetTx base (SecpOwner owner))) /\
    match_ (addrs b) owner (MinIssuanceTime options) = (sigs, true).
Proof.
  split; [apply authorizeSubnet_Ok|].
  intros (base & owner & HG & Hm). unfold authorizeSubnet. rewrite HG. simpl.
  rewrite Hm. reflexivity.
Qed.

(** X18. When every UTXO of the backend is a plain output or a stake lock
    around one, a create-chain and an add-subnet-validator transaction are
    built exactly when the wallet controls at least one address, the matched
    unlocked UTXOs of the native asset hold the subnet-creation fee, which is
    what both burn, and the backend holds, under the subnet's id, a
    subnet-creation transaction whose owners the wallet satisfies. *)
Theorem subnet_transactions_succeed_iff (rt : Runtime) (b : builder) (options : Options)
    (utxos : list UTXO) :
  UTXOs (backend b) PlatformChainID = Ok utxos ->
  Forall wfUTXO utxos -> Forall knownOutput utxos ->
  is_uint64 (CreateSubnetTxFee (backend b)) ->
  let authorized subnetID :=
    exists sbase owner,
      GetTx (backend b) subnetID =
        Ok (mkTx (UnsignedCreateSubnetTx sbase (SecpOwner owner))) /\
      snd (match_ (addrs b) owner (MinIssuanceTime options)) = true in
  let feeFunded :=
    addrs b <> ∅ /\
    CreateSubnetTxFee (backend b) <=
      totalFunds (unlockedFunds (addrs b) (MinIssuanceTime options) (DJTXAssetID (backend b)))
        utxos in
  (forall subnetID genesis vmID fxIDs chainName,
     (exists tx, NewCreateChainTx rt b subnetID genesis vmID fxIDs chainName options = Ok tx)
     <-> feeFunded /\ authorized subnetID) /\
  (forall validator,
     (exists tx, NewAddSubnetValidatorTx rt b validator options = Ok tx)
     <-> feeFunded /\ authorized (Subnet validator)).
Proof.
  intros HU Hwf Hk Hfee authorized feeFunded.
  pose proof (spend_Ok_iff rt b
                {[ DJTXAssetID (backend b) := CreateSubnetTxFee (backend b) ]} ∅
                options utxos HU Hwf Hk (wfAmounts_singleton _ _ Hfee) wfAmounts_empty)
    as Hburn.
  rewrite (funded_burn_only _ _ _ _ _ Hwf) in Hburn. fold feeFunded in Hburn.
  assert (Hauth : forall subnetID,
            (exists sigs, authorizeSubnet b subnetID options = Ok sigs) <->
            authorized subnetID).
  { intros subnetID. unfold authorized. split.
    - intros [sigs (sbase & owner & HG & Hm)%authorizeSubnet_Ok_iff].
      exists sbase, owner. rewrite Hm. auto.
    - intros (sbase & owner & HG & Hm).
      destruct (match_ (addrs b) owner (MinIssuanceTime options)) as [sigs ok] eqn:E.
      simpl in Hm. subst ok. exists sigs. apply authorizeSubnet_Ok_iff. eauto. }
  split.
  - intros subnetID genesis vmID fxIDs chainName.
    rewrite <- Hburn, <- (Hauth subnetID). clear Hburn Hauth.
    unfold NewCreateChainTx. cbv zeta.
    destruct (spend rt b _ _ options) as [[[ins change] stake]|e]; cbn [bind].
    + destruct (authorizeSubnet b subnetID options) as [sigs|e]; cbn [bind].
      * split; [intros _; split; eexists; reflexivity | intros _; eexists; reflexivity].
      * split; [intros [? [=]] | intros [_ [? [=]]]].
    + split; [intros [? [=]] | intros [[? [=]] _]].
  - intros validator.
    rewrite <- Hburn, <- (Hauth (Subnet validator)). clear Hburn Hauth.
    unfold NewAddSubnetValidatorTx. cbv zeta.
    destruct (spend rt b _ _ options) as [[[ins change] stake]|e]; cbn [bind].
    + destruct (authorizeSubnet b (Subnet validator) options) as [sigs|e]; cbn [bind].
      * split; [intros _; split; eexists; reflexivity | intros _; eexists; reflexivity].
      * split; [intros [? [=]] | intros [_ [? [=]]]].
    + split; [intros [? [=]] | intros [[? [=]] _]].
Qed.

Lemma subnet_transactions_succeed_iff_witness :
  let utxos := [plainUTXO 1%N djtx 150 ownerA] in
  let b := subnetWallet utxos in
  UTXOs (backend b) PlatformChainID = Ok utxos /\
  Forall wfUTXO utxos /\ Forall knownOutput utxos /\
  is_uint64 (CreateSubnetTxFee (backend b)) /\
  (exists tx, NewCreateChainTx canonicalRuntime b subnetX [] 4%N [] [] noOptions = Ok tx) /\
  ~ (exists tx, NewCreateChainTx canonicalRuntime b chainX [] 4%N [] [] noOptions = Ok tx).
Proof.
  intros utxos b.
  assert (Hwf : Forall wfUTXO utxos).
  { apply Forall_cons_2; [|apply Forall_nil_2].
    unfold wfUTXO, is_uint64, MaxUint64; simpl; lia. }
  assert (Hk : Forall knownOutput utxos).
  { apply Forall_cons_2; [|apply Forall_nil_2]. exact I. }
  assert (Hfee : is_uint64 (CreateSubnetTxFee (backend b)))
    by (unfold is_uint64, MaxUint64; simpl; lia).
  pose proof (subnet_transactions_succeed_iff canonicalRuntime b noOptions utxos
                eq_refl Hwf Hk Hfee) as [HC _].
  split_and!; [reflexivity | exact Hwf | exact Hk | exact Hfee | |].
  - apply HC. split; [split|].
    + exact (non_empty_singleton_L addrA).
    + vm_compute. discriminate.
    + exists (mkBaseTx 1 PlatformChainID [] [] []), subnetOwner. split; reflexivity.
  - intros Hex. apply HC in Hex. destruct Hex as [_ (sbase & owner & HG & _)].
    discriminate HG.
Defined.

(** ** Where imported funds go *)

(** X19. [NewImportTx] never uses its [to] argument: the transaction it
    builds is the same for every [to], and every output of it belongs to the
    change owner (the one of the options, or else the threshold-1 owner over
    the address [Peek] gives), so what is imported beyond the fee comes back
    to the wallet and not to [to]. *)
Theorem import_ignores_recipient (rt : Runtime) (b : builder) (sourceChainID : ID)
    (to : OutputOwners) (options : Options) (tx : UnsignedTx) :
  NewImportTx rt b sourceChainID to options = Ok tx ->
  (forall to', NewImportTx rt b sourceChainID to' options = Ok tx) /\
  exists base importedInputs,
    tx = UnsignedImportTx base sourceChainID importedInputs /\
    forall o, o ∈ Outs base ->
      exists addr assetID amount,
        Peek (addrs b) = Some addr /\
        o = plainOutput assetID amount (ChangeOwner options (defaultChangeOwner addr)).
Proof.
  intros H. split; [intros to'; exact H|]. revert H. unfold NewImportTx.
  destruct (UTXOs (backend b) sourceChainID) as [utxos|e]; cbn [bind]; [|discriminate].
  destruct (forEach _ _ utxos) as [[imported amt]|e]; cbn [bind]; [|discriminate].
  destruct (bool_decide _); [discriminate|].
  destruct (amt <? BaseTxFee (backend b)).
  - destruct (spend rt b _ _ options) as [[[ins change] stake]|e] eqn:Hsp; cbn [bind];
      [|discriminate].
    intros [= <-]. eexists _, _. split; [reflexivity|]. simpl. intros o Ho.
    destruct (spend_produced _ _ _ _ _ _ _ _ Hsp) as (utxos' & addr & _ & HP & Hall).
    apply spend_unstaked in Hsp; [|apply get_empty]. destruct Hsp as (_ & _ & HC).
    rewrite Forall_forall in Hall, HC.
    specialize (Hall o (proj2 (elem_of_app _ _ _) (or_introl Ho))).
    destruct (HC o Ho) as [out Hout].
    destruct Hall as [(a & n & ->) | (u & lt & out' & n & _ & _ & _ & ->)];
      [eauto 10 | discriminate].
  - destruct (BaseTxFee (backend b) <? amt).
    + destruct (Peek (addrs b)) as [addr|]; cbn [bind]; [|discriminate].
      intros [= <-]. eexists _, _. split; [reflexivity|]. simpl.
      intros o Ho. apply list_elem_of_singleton in Ho. subst o. unfold plainOutput. eauto 10.
    + cbn [bind]. intros [= <-]. eexists _, _. split; [reflexivity|]. simpl.
      intros o Ho. inversion Ho.
Qed.

Lemma import_ignores_recipient_witness :
  NewImportTx canonicalRuntime shortfallWallet chainX ownerB noOptions = Ok shortfallTx /\
  NewImportTx canonicalRuntime shortfallWallet chainX ownerA noOptions = Ok shortfallTx /\
  txOutputs shortfallTx = [plainOutput djtx 4 ownerA].
Proof.
  assert (H : NewImportTx canonicalRuntime shortfallWallet chainX ownerB noOptions =
              Ok shortfallTx) by (vm_compute; reflexivity).
  split_and!; [exact H | | reflexivity].
  exact (proj1 (import_ignores_recipient canonicalRuntime shortfallWallet chainX ownerB
                  noOptions shortfallTx H) ownerA).
Defined.
